(** * eduVision OCR service: reconstruction of the text layer

    A shallow embedding of [src/services/ocrService.js]: the text
    normaliser, the geometric spacing classifier, the page assembler with its
    escalation passes, the existence probe, the recognition polling loop, the
    entry point [extractText] and the coordinate transform of the
    document-backed overlay; then the paragraph detection and the result
    assembler [processOCRResults], the page-object probe, the callers of the
    entry point ([processMultipleFiles], [generateOverlayPDF],
    [extractTextWithOverlay]), the text-only document and the image-backed
    overlay.

    Conventions of the embedding.
    - A JavaScript string is the list of its UTF-16 code units ([jsstring]).
    - A JavaScript number is an exact rational or [NaN] ([jsnum]); rounding of
      binary floating point and the two infinities are outside the model.
    - A computation that may raise is a value of [Exc]; [try]/[catch] is
      [try_catch]. *)

From Stdlib Require Import List Bool Arith NArith ZArith QArith Qround Lia Lqa.
From Stdlib Require Import Permutation Sorted.
From Stdlib Require Import Ascii String DecimalString.
Import ListNotations.

Set Implicit Arguments.
Local Open Scope nat_scope.

(* ===================================================================== *)
(** ** Strings *)
(* ===================================================================== *)

Definition jschar := N.
Definition jsstring := list jschar.

(** [js "abc"] is the JavaScript string literal ["abc"]. *)
Definition js (s : string) : jsstring :=
  List.map N_of_ascii (list_ascii_of_string s).

Definition chr_space : jschar := 32%N.
Definition chr_tab : jschar := 9%N.
Definition chr_nl : jschar := 10%N.

Module CharClass.
Local Open Scope N_scope.

Definition between (lo hi c : N) : bool := (lo <=? c) && (c <=? hi).

(** [[a-z]] *)
Definition lower (c : jschar) : bool := between 97 122 c.
(** [[A-Z]] *)
Definition upper (c : jschar) : bool := between 65 90 c.
(** [\d] *)
Definition digit (c : jschar) : bool := between 48 57 c.
(** [[a-zA-Z]]; also [[a-z]] under the [i] flag. *)
Definition letter (c : jschar) : bool := lower c || upper c.
(** [\w] *)
Definition word (c : jschar) : bool := letter c || digit c || (c =? 95).
(** [[ \t]] *)
Definition blank (c : jschar) : bool := (c =? 32) || (c =? 9).
(** The line terminators of ECMAScript: LF, CR, LS, PS. *)
Definition lineTerminator (c : jschar) : bool :=
  (c =? 10) || (c =? 13) || (c =? 8232) || (c =? 8233).
(** [\s], which is also what [String.prototype.trim] strips:
    the ECMAScript WhiteSpace and LineTerminator code units. *)
Definition space (c : jschar) : bool :=
  between 9 13 c || (c =? 32) || (c =? 160) || (c =? 5760)
  || between 8192 8202 c || (c =? 8232) || (c =? 8233) || (c =? 8239)
  || (c =? 8287) || (c =? 12288) || (c =? 65279).
(** [[.!?]] *)
Definition sentenceEnd (c : jschar) : bool :=
  (c =? 46) || (c =? 33) || (c =? 63).
(** [[.!?,:;]] *)
Definition punctuation (c : jschar) : bool :=
  sentenceEnd c || (c =? 44) || (c =? 58) || (c =? 59).

(** Canonicalisation of the [i] flag (no [u] flag): upper-casing, which on a
    code unit below 128 only touches [a-z]; a code unit from 128 up never
    canonicalises to one below 128, so it never meets a pattern letter. *)
Definition canonicalize (c : jschar) : jschar :=
  if lower c then c - 32 else c.
End CharClass.

(** [String.prototype.includes] with a one-character needle. *)
Definition includes_char (c : jschar) (s : jsstring) : bool :=
  existsb (N.eqb c) s.

(** Length of the longest prefix whose code units satisfy [p]. *)
Fixpoint runLength (p : jschar -> bool) (s : jsstring) : nat :=
  match s with
  | c :: rest => if p c then S (runLength p rest) else 0
  | [] => 0
  end.

Fixpoint dropWhile (p : jschar -> bool) (s : jsstring) : jsstring :=
  match s with
  | c :: rest => if p c then dropWhile p rest else s
  | [] => []
  end.

Fixpoint trimEnd (s : jsstring) : jsstring :=
  match s with
  | [] => []
  | c :: rest =>
      match trimEnd rest with
      | [] => if CharClass.space c then [] else [c]
      | kept => c :: kept
      end
  end.

(** [String.prototype.trim] *)
Definition trim (s : jsstring) : jsstring :=
  trimEnd (dropWhile CharClass.space s).

(* ===================================================================== *)
(** ** Global regular-expression replacement *)
(* ===================================================================== *)

(** A [matcher] is one regular expression together with its replacement
    template, tried at the front of the remaining input: [Some (out, k)]
    says that a match starts here, that it covers [S k] code units, and that
    the template expands to [out]. *)
Definition matcher := jsstring -> option (jsstring * nat).

(** [s.replace(/re/g, template)]: scan left to right; where the expression
    matches emit the expansion and resume after the match, elsewhere copy one
    code unit.  [skip] counts the code units of the current match that are
    still to be passed over. *)
Fixpoint replace_from (m : matcher) (skip : nat) (s : jsstring) : jsstring :=
  match s with
  | [] => []
  | c :: rest =>
      match skip with
      | S k => replace_from m k rest
      | O =>
          match m s with
          | Some (out, k) => out ++ replace_from m k rest
          | None => c :: replace_from m 0 rest
          end
      end
  end.

Definition replaceAll (m : matcher) (s : jsstring) : jsstring :=
  replace_from m 0 s.

(** Does the expression match at some position of [s]? *)
Fixpoint hasMatch (m : matcher) (s : jsstring) : bool :=
  match s with
  | [] => false
  | _ :: rest => (match m s with Some _ => true | None => false end) || hasMatch m rest
  end.

Module Re.
Import CharClass.

(** [/[ \t]+/g -> " "] *)
Definition blanks : matcher := fun s =>
  match s with
  | c :: rest => if blank c then Some ([chr_space], runLength blank rest) else None
  | [] => None
  end.

(** [/\n{4,}/g -> "\n\n\n"] *)
Definition newlines4 : matcher := fun s =>
  let n := runLength (N.eqb chr_nl) s in
  if 4 <=? n then Some ([chr_nl; chr_nl; chr_nl], n - 1) else None.

(** [/ +\n/g -> "\n"] *)
Definition trailingSpaces : matcher := fun s =>
  let n := runLength (N.eqb chr_space) s in
  match n, skipn n s with
  | S _, c :: _ => if N.eqb chr_nl c then Some ([chr_nl], n) else None
  | _, _ => None
  end.

(** [/\n +/g -> "\n"] *)
Definition leadingSpaces : matcher := fun s =>
  match s with
  | c :: rest =>
      if N.eqb chr_nl c then
        match runLength (N.eqb chr_space) rest with
        | O => None
        | n => Some ([chr_nl], n)
        end
      else None
  | [] => None
  end.

(** [/(p1)(p2)/g -> "$1 $2"] for two one-character classes. *)
Definition boundary (p1 p2 : jschar -> bool) : matcher := fun s =>
  match s with
  | a :: b :: _ => if p1 a && p2 b then Some ([a; chr_space; b], 1) else None
  | _ => None
  end.

(** [/([a-z])([A-Z][a-z])/g -> "$1 $2"] *)
Definition camel : matcher := fun s =>
  match s with
  | a :: b :: c :: _ =>
      if lower a && upper b && lower c then Some ([a; chr_space; b; c], 2)
      else None
  | _ => None
  end.

(** Does [s] start with [w], letter case ignored?  The matched text and
    what follows it. *)
Fixpoint prefix_ci (w s : jsstring) : option (jsstring * jsstring) :=
  match w, s with
  | [], _ => Some ([], s)
  | p :: w', c :: s' =>
      if N.eqb (canonicalize p) (canonicalize c) then
        match prefix_ci w' s' with
        | Some (got, rest) => Some (c :: got, rest)
        | None => None
        end
      else None
  | _ :: _, [] => None
  end.

(** [/(flank)(w)(flank)/gi -> "$1 $2 $3"] *)
Definition embedded (flank : jschar -> bool) (w : jsstring) : matcher := fun s =>
  match s with
  | a :: rest =>
      if flank a then
        match prefix_ci w rest with
        | Some (got, b :: _) =>
            if flank b then
              Some (a :: chr_space :: got ++ [chr_space; b], S (List.length w))
            else None
        | _ => None
        end
      else None
  | [] => None
  end.

(** [/\s+/g -> " "] *)
Definition spaces : matcher := fun s =>
  match s with
  | c :: rest => if space c then Some ([chr_space], runLength space rest) else None
  | [] => None
  end.
End Re.

(* ===================================================================== *)
(** ** The text normaliser: [cleanAndFormatText] *)
(* ===================================================================== *)

(** The words of the "common word concatenations" chain, in source order. *)
Definition commonWords : list jsstring :=
  List.map js
    [ "and"; "the"; "to"; "of"; "in"; "for"; "with"; "that"; "this"; "from";
      "will"; "have"; "been"; "were"; "are"; "not"; "can"; "all"; "but";
      "was"; "has"; "had"; "one"; "you"; "may"; "use"; "its"; "your";
      "their"; "what"; "said"; "each"; "which"; "do"; "how"; "if"; "up";
      "out"; "many"; "then"; "them"; "these"; "so"; "some"; "her"; "would";
      "make"; "like"; "time"; "very"; "when"; "come"; "his"; "here"; "just";
      "long"; "get"; "own"; "say"; "she"; "way"; "too"; "any"; "day"; "man";
      "new"; "now"; "old"; "see"; "him"; "two"; "more"; "go"; "no"; "first";
      "call"; "who" ]%string.

(** The insertion rules of [cleanAndFormatText], in source order. *)
Definition cleanInsertionRules : list matcher :=
  [ Re.boundary CharClass.lower CharClass.upper;
    Re.boundary CharClass.letter CharClass.digit;
    Re.boundary CharClass.digit CharClass.letter;
    Re.boundary CharClass.sentenceEnd CharClass.upper;
    Re.camel ]
  ++ List.map (Re.embedded CharClass.word) commonWords.

Definition applyRules (rules : list matcher) (s : jsstring) : jsstring :=
  fold_left (fun acc m => replaceAll m acc) rules s.

Definition cleanAndFormatText (rawText : jsstring) : jsstring :=
  match rawText with
  | [] => []
  | _ =>
      let t := replaceAll Re.blanks rawText in
      let t := replaceAll Re.newlines4 t in
      let t := replaceAll Re.trailingSpaces t in
      let t := replaceAll Re.leadingSpaces t in
      let t := applyRules cleanInsertionRules t in
      trim (replaceAll Re.spaces t)
  end.

(** The last-resort pass of the page assembler: the insertion rules of
    [addBasicSpacingToText], in source order. *)
Definition basicWords : list jsstring :=
  List.map js
    [ "and"; "the"; "to"; "of"; "in"; "for"; "with"; "that"; "this"; "from";
      "will"; "have"; "been"; "were"; "are"; "not"; "can"; "all"; "but";
      "was" ]%string.

Definition basicInsertionRules : list matcher :=
  [ Re.boundary CharClass.lower CharClass.upper;
    Re.boundary CharClass.letter CharClass.digit;
    Re.boundary CharClass.digit CharClass.letter;
    Re.boundary CharClass.punctuation CharClass.letter ]
  ++ List.map (Re.embedded CharClass.letter) basicWords.

Definition addBasicSpacingToText (concatenatedText : jsstring) : jsstring :=
  match concatenatedText with
  | [] => concatenatedText
  | _ =>
      if includes_char chr_space concatenatedText then concatenatedText
      else trim (replaceAll Re.spaces
                   (applyRules basicInsertionRules concatenatedText))
  end.

(* ===================================================================== *)
(** ** Exceptions *)
(* ===================================================================== *)

(** What the service throws, and what reaches it from its collaborators. *)
Inductive error : Type :=
| MissingArguments      (* "File path and MIME type are required" *)
| FileTooLarge          (* "File size exceeds limit of ... bytes" *)
| UnsupportedFileType   (* "Unsupported file type. Only images and PDFs are supported." *)
| OperationTimeout      (* "Azure OCR operation timeout" *)
| OperationFailed       (* "Azure OCR operation failed" *)
| TypeError             (* raised by the runtime *)
| FileSystemError       (* a rejected [fs] promise *)
| ClientError (imageMustBe : bool).
                        (* raised by the recognition client; the flag
                           records whether its message contains
                           "image must be" *)

Inductive Exc (A : Type) : Type :=
| Ret (a : A)
| Raise (e : error).
Arguments Ret {A} a.
Arguments Raise {A} e.

Definition bind {A B} (c : Exc A) (k : A -> Exc B) : Exc B :=
  match c with
  | Ret a => k a
  | Raise e => Raise e
  end.

Definition try_catch {A} (body : Exc A) (handler : error -> Exc A) : Exc A :=
  match body with
  | Ret a => Ret a
  | Raise e => handler e
  end.

Declare Scope exc_scope.
Delimit Scope exc_scope with exc.
Notation "x <- c ;; k" := (bind c (fun x => k))
  (at level 61, c at next level, right associativity) : exc_scope.

(** [error.message.includes("image must be")]; none of the service's own
    messages contains that text. *)
Definition mentionsImageMustBe (e : error) : bool :=
  match e with
  | ClientError flag => flag
  | _ => false
  end.

(* ===================================================================== *)
(** ** Numbers *)
(* ===================================================================== *)

Inductive jsnum : Type :=
| Fin (q : Q)
| NaN.

Module Num.
Local Open Scope Q_scope.

Definition Qltb (a b : Q) : bool := negb (Qle_bool b a).

Definition lift2 (f : Q -> Q -> Q) (a b : jsnum) : jsnum :=
  match a, b with
  | Fin x, Fin y => Fin (f x y)
  | _, _ => NaN
  end.

Definition add := lift2 Qplus.
Definition sub := lift2 Qminus.
Definition mul := lift2 Qmult.

(** Division.  A quotient by zero with a non-zero dividend is an infinity,
    which the model does not have.  The divisors of the modelled code are
    the literal 2, the advance width of the font, which is positive, and
    [page.width || pageWidth] (and its analogue for the height), which
    vanishes only together with its dividend, where JavaScript gives
    [NaN]. *)
Definition div (a b : jsnum) : jsnum :=
  match a, b with
  | Fin x, Fin y => if Qeq_bool y 0 then NaN else Fin (x / y)
  | _, _ => NaN
  end.

(** [a < b], [a <= b], [a > b]: false as soon as one side is [NaN]. *)
Definition ltb (a b : jsnum) : bool :=
  match a, b with
  | Fin x, Fin y => Qltb x y
  | _, _ => false
  end.
Definition leb (a b : jsnum) : bool :=
  match a, b with
  | Fin x, Fin y => Qle_bool x y
  | _, _ => false
  end.
Definition gtb (a b : jsnum) : bool := ltb b a.

Definition Qmin2 (x y : Q) : Q := if Qle_bool x y then x else y.
Definition Qmax2 (x y : Q) : Q := if Qle_bool x y then y else x.
Definition Qabs' (x : Q) : Q := if Qle_bool 0 x then x else - x.

Definition min := lift2 Qmin2.
Definition max := lift2 Qmax2.
Definition abs (a : jsnum) : jsnum :=
  match a with
  | Fin x => Fin (Qabs' x)
  | NaN => NaN
  end.

(** Truthiness of a number: [0] and [NaN] are falsy. *)
Definition truthy (a : jsnum) : bool :=
  match a with
  | Fin x => negb (Qeq_bool x 0)
  | NaN => false
  end.
End Num.

(** An entry of a [boundingBox] array.  [Hostile] stands for a value whose
    conversion to a number raises a [TypeError] (a Symbol, a BigInt). *)
Inductive cell : Type :=
| Num (n : jsnum)
| Hostile.

Definition toNumber (c : cell) : Exc jsnum :=
  match c with
  | Num n => Ret n
  | Hostile => Raise TypeError
  end.

(** [box[i]] read as a number; past the end the read gives [undefined], whose
    numeric value is [NaN]. *)
Definition at_ (box : list cell) (i : nat) : Exc jsnum :=
  toNumber (nth i box (Num NaN)).

Module JsMath.
Local Open Scope exc_scope.

(** [Math.min(a, b)] and [Math.max(a, b)] on array entries: both arguments
    are converted, left to right, before they are compared. *)
Definition min2 (box : list cell) (i j : nat) : Exc jsnum :=
  a <- at_ box i ;; b <- at_ box j ;; Ret (Num.min a b).
Definition max2 (box : list cell) (i j : nat) : Exc jsnum :=
  a <- at_ box i ;; b <- at_ box j ;; Ret (Num.max a b).

Definition min4 (box : list cell) (i j k l : nat) : Exc jsnum :=
  a <- at_ box i ;; b <- at_ box j ;; c <- at_ box k ;; d <- at_ box l ;;
  Ret (Num.min (Num.min (Num.min a b) c) d).
Definition max4 (box : list cell) (i j k l : nat) : Exc jsnum :=
  a <- at_ box i ;; b <- at_ box j ;; c <- at_ box k ;; d <- at_ box l ;;
  Ret (Num.max (Num.max (Num.max a b) c) d).
End JsMath.

(* ===================================================================== *)
(** ** Configuration *)
(* ===================================================================== *)

Module CONFIG.
Definition TIMEOUT_SECONDS : nat := 30.
Definition MAX_FILE_SIZE_BYTES : N := (20 * 1024 * 1024)%N.
Definition PDF_FONT_SIZE : Q := 17.
Module INTELLIGENT_SPACING.
Definition ENABLED : bool := true.
Definition WORD_SPACING_THRESHOLD : Q := 5 # 10.
Definition WIDE_SPACING_THRESHOLD : Q := 12 # 10.
Definition LINE_HEIGHT_TOLERANCE : Q := 7 # 10.
Definition PARAGRAPH_SPACING_THRESHOLD : Q := 2.
Definition MIN_WORD_GAP_PIXELS : Q := 3.
Definition MIN_LINE_GAP_PIXELS : Q := 5.
Definition FORCE_SPACING_ON_NO_GAPS : bool := true.
End INTELLIGENT_SPACING.
End CONFIG.

(* ===================================================================== *)
(** ** Recognised geometry *)
(* ===================================================================== *)

Module Word.
Record t : Type := mk
  { text : jsstring;
    boundingBox : option (list cell);
    confidence : option jsnum }.
End Word.

Module Line.
Record t : Type := mk
  { words : option (list Word.t);
    boundingBox : option (list cell) }.
End Line.

Module Page.
Record t : Type := mk
  { lines : option (list Line.t);
    width : option jsnum;
    height : option jsnum }.
End Page.

(** The extent of one word as [calculateSpacingBetweenWords] derives it from
    the four corners
    [[topLeft_x, topLeft_y, topRight_x, topRight_y,
      bottomRight_x, bottomRight_y, bottomLeft_x, bottomLeft_y]]. *)
Record Extent : Type := mkExtent
  { left : jsnum; right : jsnum; top : jsnum; bottom : jsnum;
    height : jsnum; width : jsnum; centerY : jsnum }.

Section Spacing.
Local Open Scope exc_scope.
Import CONFIG.INTELLIGENT_SPACING.

Definition extent (bbox : list cell) : Exc Extent :=
  l <- JsMath.min2 bbox 0 6 ;;
  r <- JsMath.max2 bbox 2 4 ;;
  t <- JsMath.min2 bbox 1 3 ;;
  b <- JsMath.max2 bbox 7 5 ;;
  Ret {| left := l; right := r; top := t; bottom := b;
         height := Num.sub b t;
         width := Num.sub r l;
         centerY := Num.div (Num.add t b) (Fin 2) |}.

Definition horizontalGap (e1 e2 : Extent) : jsnum :=
  Num.sub (left e2) (right e1).
Definition verticalGap (e1 e2 : Extent) : jsnum :=
  Num.sub (top e2) (bottom e1).
Definition verticalCenterDistance (e1 e2 : Extent) : jsnum :=
  Num.abs (Num.sub (centerY e2) (centerY e1)).
Definition averageHeight (e1 e2 : Extent) : jsnum :=
  Num.div (Num.add (height e1) (height e2)) (Fin 2).
Definition safeHeight (e1 e2 : Extent) : jsnum :=
  if Num.gtb (averageHeight e1 e2) (Fin 0) then averageHeight e1 e2
  else Fin 12.
Definition sameLine (e1 e2 : Extent) : bool :=
  Num.ltb (verticalCenterDistance e1 e2)
          (Num.mul (safeHeight e1 e2) (Fin LINE_HEIGHT_TOLERANCE)).

(** The decision once both extents are known (the two branches of
    [if (sameLine)]). *)
Definition spacingOf (e1 e2 : Extent) : jsstring :=
  let h := safeHeight e1 e2 in
  if sameLine e1 e2 then
    let g := horizontalGap e1 e2 in
    if Num.ltb g (Fin 0) then js ""
    else if Num.leb g (Fin MIN_WORD_GAP_PIXELS) then js ""
    else if Num.leb g (Num.mul h (Fin WORD_SPACING_THRESHOLD)) then js " "
    else if Num.leb g (Num.mul h (Fin WIDE_SPACING_THRESHOLD)) then js "  "
    else if Num.leb g (Num.mul h (Fin 2)) then js "    "
    else [chr_tab]
  else
    let lineGap := Num.abs (verticalGap e1 e2) in
    if Num.leb lineGap (Num.mul h (Fin (3 # 10))) then js " "
    else if Num.leb lineGap (Num.mul h (Fin (12 # 10))) then [chr_nl]
    else if Num.leb lineGap (Num.mul h (Fin PARAGRAPH_SPACING_THRESHOLD))
         then [chr_nl; chr_nl]
    else [chr_nl; chr_nl; chr_nl].

(** The body of the [try] block. *)
Definition spacingBody (word1_bbox word2_bbox : list cell) : Exc jsstring :=
  e1 <- extent word1_bbox ;;
  e2 <- extent word2_bbox ;;
  Ret (spacingOf e1 e2).

(** An array with at least eight entries. *)
Definition fullBox (bbox : option (list cell)) : option (list cell) :=
  match bbox with
  | Some b => if List.length b <? 8 then None else Some b
  | None => None
  end.

Definition calculateSpacingBetweenWords (word1 word2 : Word.t) : Exc jsstring :=
  match fullBox (Word.boundingBox word1), fullBox (Word.boundingBox word2) with
  | Some b1, Some b2 =>
      try_catch (spacingBody b1 b2) (fun _ => Ret (js " "))
  | _, _ => Ret (js " ")
  end.
End Spacing.

(* ===================================================================== *)
(** ** Line and page assembly *)
(* ===================================================================== *)

Section Assembly.
Local Open Scope exc_scope.

Definition hasFullBox (w : Word.t) : bool :=
  match fullBox (Word.boundingBox w) with Some _ => true | None => false end.

(** The loop of [processWordsWithSpacing], from word [i] on. *)
Fixpoint joinWithSpacing (words : list Word.t) : Exc jsstring :=
  match words with
  | [] => Ret []
  | word :: rest =>
      match rest with
      | [] => Ret (Word.text word)
      | nextWord :: _ =>
          spacing <- (if hasFullBox word && hasFullBox nextWord
                      then calculateSpacingBetweenWords word nextWord
                      else Ret (js " ")) ;;
          tail <- joinWithSpacing rest ;;
          Ret (Word.text word ++ spacing ++ tail)
      end
  end.

Definition processWordsWithSpacing (words : option (list Word.t)) : Exc jsstring :=
  match words with
  | None | Some [] => Ret []
  | Some [w] => Ret (Word.text w)
  | Some ws => joinWithSpacing ws
  end.

Definition calculateSpacingBetweenLines (line1 line2 : Line.t) : Exc jsstring :=
  match Line.boundingBox line1, Line.boundingBox line2 with
  | Some bb1, Some bb2 =>
      line1Bottom <- JsMath.max4 bb1 1 3 5 7 ;;
      line1Top <- JsMath.min4 bb1 1 3 5 7 ;;
      let line1Height := Num.sub line1Bottom line1Top in
      line2Top <- JsMath.min4 bb2 1 3 5 7 ;;
      let verticalGap := Num.sub line2Top line1Bottom in
      if Num.leb verticalGap (Num.mul line1Height (Fin (3 # 10))) then Ret [chr_nl]
      else if Num.leb verticalGap (Num.mul line1Height (Fin 1)) then Ret [chr_nl]
      else if Num.leb verticalGap (Num.mul line1Height (Fin 2)) then Ret [chr_nl; chr_nl]
      else Ret [chr_nl; chr_nl; chr_nl]
  | _, _ => Ret [chr_nl]
  end.

Definition noWords (line : Line.t) : bool :=
  match Line.words line with
  | None | Some [] => true
  | Some _ => false
  end.

(** [lineText.trim()] is truthy. *)
Definition nonBlank (s : jsstring) : bool :=
  match trim s with [] => false | _ => true end.

(** The [for] loop of [processLinesWithIntelligentSpacing]; the state is
    [formattedText] and [previousLine]. *)
Fixpoint assembleLines (lines : list Line.t) (formattedText : jsstring)
         (previousLine : option Line.t) : Exc jsstring :=
  match lines with
  | [] => Ret formattedText
  | line :: rest =>
      if noWords line then assembleLines rest formattedText previousLine
      else
        lineText <- processWordsWithSpacing (Line.words line) ;;
        lineSpacing <- match previousLine with
                       | Some prev =>
                           if nonBlank lineText
                           then calculateSpacingBetweenLines prev line
                           else Ret []
                       | None => Ret []
                       end ;;
        assembleLines rest (formattedText ++ lineSpacing ++ lineText)
                      (if nonBlank lineText then Some line else previousLine)
  end.

Definition processLinesWithIntelligentSpacing (lines : option (list Line.t))
  : Exc jsstring :=
  match lines with
  | None | Some [] => Ret []
  | Some ls => assembleLines ls [] None
  end.

(** The words that [applyForcedSpacingToCompactText] collects: those with
    a bounding box of at least eight entries, in line order. *)
Definition collectWords (lines : list Line.t) : list Word.t :=
  flat_map (fun line =>
              match Line.words line with
              | Some ws => filter hasFullBox ws
              | None => []
              end) lines.

Definition boxOf (w : Word.t) : list cell :=
  match Word.boundingBox w with Some b => b | None => [] end.

(** The comparator handed to [allWords.sort]. *)
Definition compareByPosition (a b : Word.t) : Exc jsnum :=
  aTop <- JsMath.min4 (boxOf a) 1 3 5 7 ;;
  bTop <- JsMath.min4 (boxOf b) 1 3 5 7 ;;
  aLeft <- JsMath.min4 (boxOf a) 0 2 4 6 ;;
  bLeft <- JsMath.min4 (boxOf b) 0 2 4 6 ;;
  aBottom <- JsMath.max4 (boxOf a) 1 3 5 7 ;;
  let aHeight := Num.sub aBottom aTop in
  bBottom <- JsMath.max4 (boxOf b) 1 3 5 7 ;;
  let bHeight := Num.sub bBottom bTop in
  let avgHeight := Num.div (Num.add aHeight bHeight) (Fin 2) in
  if Num.gtb (Num.abs (Num.sub aTop bTop)) (Num.mul avgHeight (Fin (5 # 10)))
  then Ret (Num.sub aTop bTop)
  else Ret (Num.sub aLeft bLeft).

(** [Array.prototype.sort] with a comparator.  ECMAScript requires the sort
    to be stable and treats a [NaN] verdict as [0]; the order of the calls
    to the comparator, and the result when the comparator is not a
    consistent order, are left to the engine.  The model is the stable
    insertion sort. *)
Section Sort.
Context {A : Type} (compare : A -> A -> Exc jsnum).

Fixpoint insertSorted (x : A) (sorted : list A) : Exc (list A) :=
  match sorted with
  | [] => Ret [x]
  | y :: ys =>
      verdict <- compare x y ;;
      if Num.gtb verdict (Fin 0)
      then (ys' <- insertSorted x ys ;; Ret (y :: ys'))
      else Ret (x :: y :: ys)
  end.

Fixpoint sortWith (l : list A) : Exc (list A) :=
  match l with
  | [] => Ret []
  | x :: xs => sorted <- sortWith xs ;; insertSorted x sorted
  end.
End Sort.

(** The final loop of [applyForcedSpacingToCompactText]. *)
Fixpoint joinForced (allWords : list Word.t) : Exc jsstring :=
  match allWords with
  | [] => Ret []
  | currentWord :: rest =>
      match rest with
      | [] => Ret (Word.text currentWord)
      | nextWord :: _ =>
          spacing <- calculateSpacingBetweenWords currentWord nextWord ;;
          tail <- joinForced rest ;;
          Ret (Word.text currentWord ++ spacing ++ tail)
      end
  end.

Definition applyForcedSpacingToCompactText (lines : option (list Line.t))
  : Exc jsstring :=
  match lines with
  | None | Some [] => Ret []
  | Some ls =>
      match collectWords ls with
      | [] => Ret []
      | allWords =>
          sorted <- sortWith compareByPosition allWords ;;
          joinForced sorted
      end
  end.

(** [page.lines.some((line) => line.words && line.words.length > 1)] *)
Definition someMultiWordLine (lines : list Line.t) : bool :=
  existsb (fun line =>
             match Line.words line with
             | Some ws => 1 <? List.length ws
             | None => false
             end) lines.

(** [array.join(sep)] on strings. *)
Fixpoint join (sep : jsstring) (parts : list jsstring) : jsstring :=
  match parts with
  | [] => []
  | [p] => p
  | p :: rest => p ++ sep ++ join sep rest
  end.

Definition hasSpace (s : jsstring) : bool := includes_char chr_space s.

(** The block of [processOCRResults] that computes [pageText] for a page
    whose [lines] array is not empty, before [cleanAndFormatText]. *)
Definition pageText (lines : list Line.t) : Exc jsstring :=
  if CONFIG.INTELLIGENT_SPACING.ENABLED then
    spaced <- processLinesWithIntelligentSpacing (Some lines) ;;
    if CONFIG.INTELLIGENT_SPACING.FORCE_SPACING_ON_NO_GAPS
       && negb (hasSpace spaced) && someMultiWordLine lines
    then
      forced <- applyForcedSpacingToCompactText (Some lines) ;;
      if negb (hasSpace forced) then Ret (addBasicSpacingToText forced)
      else Ret forced
    else Ret spaced
  else
    Ret (join [chr_nl]
           (List.map (fun line =>
                        match Line.words line with
                        | Some ws => join (js " ") (List.map Word.text ws)
                        | None => []
                        end) lines)).
End Assembly.

(* ===================================================================== *)
(** ** The existence probe: [checkPDFTextWithPdfParse] *)
(* ===================================================================== *)

(** [text.match(/re/g)]: the number of successive matches. *)
Fixpoint count_from (m : matcher) (skip : nat) (s : jsstring) : nat :=
  match s with
  | [] => 0
  | _ :: rest =>
      match skip with
      | S k => count_from m k rest
      | O =>
          match m s with
          | Some (_, k) => S (count_from m k rest)
          | None => count_from m 0 rest
          end
      end
  end.

Definition matchCount (m : matcher) (s : jsstring) : nat := count_from m 0 s.

Module Indicator.
Import CharClass.

(** [s] with the literal [w] removed from its front. *)
Fixpoint literal (w s : jsstring) : option jsstring :=
  match w, s with
  | [], _ => Some s
  | p :: w', c :: s' => if N.eqb p c then literal w' s' else None
  | _ :: _, [] => None
  end.

(** [/a\s*b/g] for two literals: [\s*] takes the whole run of white space,
    and giving some of it back cannot help, as [b] starts with a solidus. *)
Definition spacedPair (a b : jsstring) : matcher := fun s =>
  match literal a s with
  | Some rest =>
      let k := runLength space rest in
      match literal b (skipn k rest) with
      | Some _ => Some ([], List.length a + k + List.length b - 1)
      | None => None
      end
  | None => None
  end.

(** Distance to the first ["ET"] that is reachable over code units other
    than line terminators (the lazy [.*?ET]). *)
Fixpoint untilET (s : jsstring) : option nat :=
  match s with
  | [] => None
  | c :: rest =>
      match literal (js "ET") s with
      | Some _ => Some 0
      | None =>
          if lineTerminator c then None
          else match untilET rest with
               | Some n => Some (S n)
               | None => None
               end
      end
  end.

(** [/BT\s+.*?ET/g]: a text object opened and closed on one line. *)
Definition textObject : matcher := fun s =>
  match literal (js "BT") s with
  | Some rest =>
      match runLength space rest with
      | O => None
      | k =>
          match untilET (skipn k rest) with
          | Some n => Some ([], 2 + k + n + 2 - 1)
          | None => None
          end
      end
  | None => None
  end.

(** Number of code units up to and excluding the last line terminator
    among the first [k] code units of [s], if there is one. *)
Fixpoint lastTerminator (k : nat) (s : jsstring) : option nat :=
  match k, s with
  | S k', c :: rest =>
      match lastTerminator k' rest with
      | Some j => Some (S j)
      | None => if lineTerminator c then Some 0 else None
      end
  | _, _ => None
  end.

(** [/op\s*$/gm]: the operator [op], white space, then the end of a line
    (a line terminator follows) or of the input. *)
Definition lineFinal (op : jsstring) : matcher := fun s =>
  match literal op s with
  | Some rest =>
      let k := runLength space rest in
      match skipn k rest with
      | [] => Some ([], List.length op + k - 1)
      | _ :: _ =>
          match lastTerminator k rest with
          | Some j => Some ([], List.length op + j - 1)
          | None => None
          end
      end
  | None => None
  end.

Definition textIndicators : list matcher :=
  [ spacedPair (js "/Type") (js "/Font");
    spacedPair (js "/Subtype") (js "/Type1");
    spacedPair (js "/Subtype") (js "/TrueType");
    textObject;
    lineFinal (js "Tj");
    lineFinal (js "TJ") ].
End Indicator.

Definition textIndicatorCount (pdfString : jsstring) : nat :=
  fold_left (fun count indicator => count + matchCount indicator pdfString)
            Indicator.textIndicators 0.

Record TextCheck : Type := mkTextCheck
  { hasText : bool;
    extractedText : jsstring;
    pageCount : nat;
    textLength : nat }.

(** [readResult] is the outcome of [fsPromises.readFile(filePath)] read as a
    binary string. *)
Definition checkPDFTextWithPdfParse (readResult : Exc jsstring) : TextCheck :=
  match readResult with
  | Ret pdfString =>
      let count := textIndicatorCount pdfString in
      let hasText := 5 <? count in
      {| hasText := hasText;
         extractedText := if hasText then js "[Text detected but not extracted]"
                          else [];
         pageCount := 1;
         textLength := if hasText then count * 10 else 0 |}
  | Raise _ =>
      {| hasText := false; extractedText := []; pageCount := 0; textLength := 0 |}
  end.

(* ===================================================================== *)
(** ** The recognition orchestrator: [readTextFromFile] *)
(* ===================================================================== *)

Inductive OperationStatus : Type := notStarted | running | failed | succeeded.

(** One submitted read operation, as the client answers for it: the status
    reported by the [n]-th call of [getReadResult] (counting from 0), and the
    pages of [analyzeResult.readResults]. *)
Record Operation : Type := mkOperation
  { getReadResult : nat -> Exc OperationStatus;
    readResults : list Page.t }.

(** The recognition client: what [readInStream] answers when it is handed a
    stream factory and when it is handed a buffer. *)
Record Client : Type := mkClient
  { readInStream_stream : Exc Operation;
    readInStream_buffer : Exc Operation }.

Inductive Event : Type :=
| Sleep (ms : nat)
| Poll (status : OperationStatus).

Section Polling.
Local Open Scope exc_scope.
Variable maxAttempts : nat.
Variable op : Operation.

Definition stillPending (status : OperationStatus) : bool :=
  match status with
  | notStarted | running => true
  | failed | succeeded => false
  end.

(** The [do ... while] loop.  [attempts] is the counter on entry to the
    body; the result is the trace of suspensions and polls together with
    the last status, or the error that left the loop.  [fuel] bounds the
    number of iterations; [None] means that it did not suffice. *)
Fixpoint pollLoop (fuel attempts : nat)
  : option (list Event * Exc OperationStatus) :=
  match fuel with
  | O => None
  | S fuel' =>
      match getReadResult op attempts with
      | Raise e => Some ([Sleep 1000], Raise e)
      | Ret status =>
          let attempts' := S attempts in
          if maxAttempts <=? attempts'
          then Some ([Sleep 1000; Poll status], Raise OperationTimeout)
          else if stillPending status then
            match pollLoop fuel' attempts' with
            | Some (events, r) => Some (Sleep 1000 :: Poll status :: events, r)
            | None => None
            end
          else Some ([Sleep 1000; Poll status], Ret status)
      end
  end.

(** What follows the loop. *)
Definition afterLoop (status : OperationStatus) : Exc (list Page.t) :=
  match status with
  | failed => Raise OperationFailed
  | _ => Ret (readResults op)
  end.
End Polling.

(** The loop started as the source starts it: [attempts = 0], bound
    [CONFIG.TIMEOUT_SECONDS]. *)
Definition pollOperation (maxAttempts : nat) (op : Operation)
  : option (list Event * Exc OperationStatus) :=
  pollLoop maxAttempts op (S maxAttempts) 0.

Definition awaitOperation (op : Operation) : Exc (list Page.t) :=
  match pollOperation CONFIG.TIMEOUT_SECONDS op with
  | Some (_, Ret status) => afterLoop op status
  | Some (_, Raise e) => Raise e
  | None => Raise OperationTimeout
  end.

Definition readTextFromFileAlternative (client : Client)
           (readFile : Exc jsstring) : Exc (list Page.t) :=
  bind readFile (fun _ =>
  bind (readInStream_buffer client) awaitOperation).

Definition readTextFromFile (client : Client) (readFile : Exc jsstring)
  : Exc (list Page.t) :=
  try_catch (bind (readInStream_stream client) awaitOperation)
            (fun e => if mentionsImageMustBe e
                      then readTextFromFileAlternative client readFile
                      else Raise e).

(* ===================================================================== *)
(** ** The entry point: [extractText] *)
(* ===================================================================== *)

Definition jsstring_eqb (a b : jsstring) : bool :=
  if list_eq_dec N.eq_dec a b then true else false.

(** [s.startsWith(prefix)] *)
Definition startsWith (prefix s : jsstring) : bool :=
  match Indicator.literal prefix s with Some _ => true | None => false end.

(** Decimal rendering of a size in a template literal. *)
Definition decimal (n : N) : jsstring :=
  js (NilEmpty.string_of_uint (N.to_uint n)).

Inductive Engine : Type :=
| AzureComputerVision     (* "Azure Computer Vision" *)
| ExistingPdfText         (* "Existing PDF Text" *)
| Simulation.             (* "Simulation" *)

(** What [processOCRResults] hands back. *)
Record ExtractedData : Type := mkExtractedData
  { data_text : jsstring;
    data_confidence : Z;
    data_pages : nat }.

Record OcrResult : Type := mkOcrResult
  { text : jsstring;
    confidence : Z;
    ocrEngine : Engine;
    skippedOCR : bool;
    originallySearchable : bool;
    resultPages : list Page.t }.

(** The world around one call: the file system and the module-level
    [computerVisionClient] ([None] when the credentials are not set). *)
Record World : Type := mkWorld
  { stat : jsstring -> Exc N;
    readFile : jsstring -> Exc jsstring;
    computerVisionClient : option Client }.

Section ExtractText.
Local Open Scope exc_scope.

(** Node's [path] module and the [sanitize-filename] package. *)
Variables path_basename path_dirname sanitizePath : jsstring -> jsstring.
Variable path_join : jsstring -> jsstring -> jsstring.
(** [processOCRResults], of which only the outcome matters here: the data
    it returns, or an exception raised on the way. *)
Variable processOCRResults : list Page.t -> Exc ExtractedData.

Variable w : World.

(** [filePath] is what the caller passed, [None] when it is not a string
    ([undefined], [null]); [path.basename] raises a [TypeError] then. *)
Definition simulateOCR (filePath : option jsstring) : Exc OcrResult :=
  match filePath with
  | None => Raise TypeError
  | Some p =>
      let fileName := path_basename p in
      let size := match stat w p with Ret n => n | Raise _ => 0%N end in
      Ret {| text :=
               js "[FALLBACK] Could not process file with Azure Computer Vision."
               ++ [chr_nl] ++ js "File: " ++ fileName
               ++ [chr_nl] ++ js "Size: " ++ decimal size ++ js " bytes"
               ++ [chr_nl] ++ js "Reason: Azure API unavailable"
               ++ [chr_nl; chr_nl]
               ++ js "Fix by checking VISION_KEY and VISION_ENDPOINT in .env";
             confidence := 50;
             ocrEngine := Simulation;
             skippedOCR := false;
             originallySearchable := false;
             resultPages := [] |}
  end.

Definition isPdf (mimetype : jsstring) : bool :=
  jsstring_eqb mimetype (js "application/pdf").

(** [fullPath]: the directory of [filePath] joined with its sanitised base
    name. *)
Definition fullPathOf (filePath : jsstring) : jsstring :=
  let sanitizedPath := sanitizePath (path_basename filePath) in
  path_join (path_dirname filePath) sanitizedPath.

(** The body of the [try] block. *)
Definition extractTextBody (filePath mimetype : option jsstring) : Exc OcrResult :=
  match filePath, mimetype with
  | Some ((_ :: _) as filePath'), Some ((_ :: _) as mimetype') =>
      let fullPath := fullPathOf filePath' in
      size <- stat w fullPath ;;
      if (CONFIG.MAX_FILE_SIZE_BYTES <? size)%N then Raise FileTooLarge
      else
        let textCheck :=
          if isPdf mimetype'
          then checkPDFTextWithPdfParse (readFile w fullPath)
          else {| hasText := false; extractedText := [];
                  pageCount := 0; textLength := 0 |} in
        if isPdf mimetype' && hasText textCheck then
          Ret {| text := extractedText textCheck;
                 confidence := 95;
                 ocrEngine := ExistingPdfText;
                 skippedOCR := true;
                 originallySearchable := true;
                 resultPages := [] |}
        else
          match computerVisionClient w with
          | None => simulateOCR (Some fullPath)
          | Some client =>
              result <- (if startsWith (js "image/") mimetype' || isPdf mimetype'
                         then readTextFromFile client (readFile w fullPath)
                         else Raise UnsupportedFileType) ;;
              extractedData <- processOCRResults result ;;
              Ret {| text := data_text extractedData;
                     confidence := data_confidence extractedData;
                     ocrEngine := AzureComputerVision;
                     skippedOCR := false;
                     originallySearchable := false;
                     resultPages := result |}
          end
  | _, _ => Raise MissingArguments
  end.

Definition extractText (filePath mimetype : option jsstring) : Exc OcrResult :=
  try_catch (extractTextBody filePath mimetype)
            (fun _ => simulateOCR filePath).
End ExtractText.

(* ===================================================================== *)
(** ** The document-backed overlay: [createContinuousSearchablePdfFromPDF] *)
(* ===================================================================== *)

(** One call of [pdfPage.drawText]. *)
Record Draw : Type := mkDraw
  { drawnText : jsstring;
    x : jsnum;
    y : jsnum }.

(** The size of a page of the target document ([pdfPage.getSize()]). *)
Record PageSize : Type := mkPageSize
  { pageWidth : jsnum;
    pageHeight : jsnum }.

Section Overlay.
Local Open Scope exc_scope.

(** [font.widthOfTextAtSize("M", fontSize)], positive for the embedded
    Courier. *)
Variable charWidth : jsnum.

(** [word.boundingBox[i]]; reading an index of a missing array raises. *)
Definition boxEntry (word : Word.t) (i : nat) : Exc jsnum :=
  match Word.boundingBox word with
  | Some b => at_ b i
  | None => Raise TypeError
  end.

Definition boxMin4 (word : Word.t) (i j k l : nat) : Exc jsnum :=
  match Word.boundingBox word with
  | Some b => JsMath.min4 b i j k l
  | None => Raise TypeError
  end.
Definition boxMax4 (word : Word.t) (i j k l : nat) : Exc jsnum :=
  match Word.boundingBox word with
  | Some b => JsMath.max4 b i j k l
  | None => Raise TypeError
  end.

(** [(a, b) => a.boundingBox[0] - b.boundingBox[0]] *)
Definition compareByLeft (a b : Word.t) : Exc jsnum :=
  a0 <- boxEntry a 0 ;; b0 <- boxEntry b 0 ;; Ret (Num.sub a0 b0).

(** [" ".repeat(Math.max(1, Math.round(n)))]; [Math.round] rounds a half
    upwards, and a [NaN] count repeats nothing. *)
Definition spacesFor (n : jsnum) : jsstring :=
  match n with
  | Fin q => repeat chr_space (Z.to_nat (Z.max 1 (Qfloor (q + (1 # 2)))))
  | NaN => []
  end.

Fixpoint continueText (prev : Word.t) (rest : list Word.t) : Exc jsstring :=
  match rest with
  | [] => Ret []
  | curr :: rest' =>
      prevEnd <- boxMax4 prev 0 2 4 6 ;;
      currStart <- boxMin4 curr 0 2 4 6 ;;
      let gap := Num.sub currStart prevEnd in
      tail <- continueText curr rest' ;;
      Ret (spacesFor (Num.div gap charWidth) ++ Word.text curr ++ tail)
  end.

(** [a || b] on an optional number. *)
Definition orElse (a : option jsnum) (b : jsnum) : jsnum :=
  match a with
  | Some n => if Num.truthy n then n else b
  | None => b
  end.

(** The body of the loop over [page.lines] for one line; [None] for a line
    that is skipped. *)
Definition overlayLine (size : PageSize) (page : Page.t) (line : Line.t)
  : Exc (option Draw) :=
  match Line.words line with
  | None | Some [] => Ret None
  | Some ws =>
      sorted <- sortWith compareByLeft ws ;;
      match sorted with
      | [] => Raise TypeError
      | first :: rest =>
          spaced <- continueText first rest ;;
          let fullText := Word.text first ++ spaced in
          minY <- boxMin4 first 1 3 5 7 ;;
          maxY <- boxMax4 first 1 3 5 7 ;;
          let textHeight := Num.sub maxY minY in
          let ocrPageHeight := orElse (Page.height page) (pageHeight size) in
          let scaleX := Num.div (pageWidth size)
                                (orElse (Page.width page) (pageWidth size)) in
          let scaleY := Num.div (pageHeight size) ocrPageHeight in
          leftmost <- boxMin4 first 0 2 4 6 ;;
          let startX := Num.mul leftmost scaleX in
          let pdfY := Num.sub (Num.sub (pageHeight size) (Num.mul minY scaleY))
                              (Num.mul textHeight scaleY) in
          let x := Num.max (Fin 0) (Num.min (Num.sub (pageWidth size) (Fin 10)) startX) in
          let y := Num.max (Fin 10) (Num.min (Num.sub (pageHeight size) (Fin 10)) pdfY) in
          Ret (Some {| drawnText := fullText; x := x; y := y |})
      end
  end.

Fixpoint overlayLines (size : PageSize) (page : Page.t) (lines : list Line.t)
  : Exc (list Draw) :=
  match lines with
  | [] => Ret []
  | line :: rest =>
      d <- overlayLine size page line ;;
      ds <- overlayLines size page rest ;;
      Ret (match d with Some d' => d' :: ds | None => ds end)
  end.

(** The loop [for (pageIndex = 0; pageIndex < Math.min(pages.length,
    pdfPages.length); pageIndex++)]: the draws made on each target page
    that has a recognised page. *)
Fixpoint overlayPages (pages : list Page.t) (pdfPages : list PageSize)
  : Exc (list (list Draw)) :=
  match pages, pdfPages with
  | page :: pages', size :: pdfPages' =>
      ds <- match Page.lines page with
            | Some lines => overlayLines size page lines
            | None => Ret []
            end ;;
      dss <- overlayPages pages' pdfPages' ;;
      Ret (ds :: dss)
  | _, _ => Ret []
  end.

(** What the function leaves at [outputPath]: the source document with the
    invisible layer, or, from the [catch] block, a text-only rendering. *)
Inductive OverlayOutcome : Type :=
| Overlaid (draws : list (list Draw))
| TextOnlyFallback.

Definition createContinuousSearchablePdfFromPDF
           (pdfPages : Exc (list PageSize)) (pages : list Page.t)
  : OverlayOutcome :=
  match (sizes <- pdfPages ;; overlayPages pages sizes) with
  | Ret draws => Overlaid draws
  | Raise _ => TextOnlyFallback
  end.
End Overlay.

(* ===================================================================== *)
(** ** Paragraph detection: [detectAndFormatParagraphs] *)
(* ===================================================================== *)

(** [s.split(sep)] for a one-character separator: the pieces between the
    separators, of which there is always at least one. *)
Fixpoint splitOn (sep : jschar) (s : jsstring) : list jsstring :=
  match s with
  | [] => [[]]
  | c :: rest =>
      if N.eqb sep c then [] :: splitOn sep rest
      else match splitOn sep rest with
           | piece :: pieces => (c :: piece) :: pieces
           | [] => [[c]]
           end
  end.

(** [s.endsWith(suffix)] *)
Definition endsWith (suffix s : jsstring) : bool :=
  startsWith (rev suffix) (rev s).

(** [/[.!?]$/.test(s)] *)
Definition endsWithPunctuation (s : jsstring) : bool :=
  match rev s with
  | c :: _ => CharClass.sentenceEnd c
  | [] => false
  end.

(** [/^[A-Z]/.test(s)] *)
Definition startsWithCapital (s : jsstring) : bool :=
  match s with
  | c :: _ => CharClass.upper c
  | [] => false
  end.

(** What follows [currentLine] when the next line is not blank. *)
Definition lineBreakAfter (currentLine nextLine : jsstring)
           (previousLineLength : nat) : jsstring :=
  let currentIsShort := List.length currentLine <? 50 in
  let significantLengthDiff :=
    (20 <? Z.abs (Z.of_nat (List.length currentLine)
                  - Z.of_nat previousLineLength))%Z in
  if endsWithPunctuation currentLine && startsWithCapital nextLine
  then [chr_nl; chr_nl]
  else if currentIsShort && significantLengthDiff then [chr_nl; chr_nl]
  else if endsWithPunctuation currentLine then [chr_nl]
  else js " ".

(** The [for] loop of [detectAndFormatParagraphs] over the lines from index
    [i] on; the state is [formattedText] and [previousLineLength]. *)
Fixpoint formatLines (lines : list jsstring) (formattedText : jsstring)
         (previousLineLength : nat) : jsstring :=
  match lines with
  | [] => formattedText
  | line :: rest =>
      let currentLine := trim line in
      let nextLine := match rest with
                      | next :: _ => trim next
                      | [] => []
                      end in
      match currentLine with
      | [] =>
          formatLines rest
            (match formattedText with
             | [] => formattedText
             | _ => if endsWith [chr_nl; chr_nl] formattedText
                    then formattedText
                    else formattedText ++ [chr_nl]
             end)
            previousLineLength
      | _ =>
          formatLines rest
            (formattedText ++ currentLine
             ++ match nextLine with
                | [] => []
                | _ => lineBreakAfter currentLine nextLine previousLineLength
                end)
            (List.length currentLine)
      end
  end.

Definition detectAndFormatParagraphs (text : jsstring) : jsstring :=
  match text with
  | [] => []
  | _ => trim (formatLines (splitOn chr_nl text) [] 0)
  end.

(* ===================================================================== *)
(** ** The result assembler: [processOCRResults] *)
(* ===================================================================== *)

Module Processed.
Record t : Type := mk
  { text : jsstring;
    confidence : jsnum;
    language : jsstring;
    pages : nat }.
End Processed.

(** [Math.round]: to the nearest integer, a half upwards. *)
Definition round (a : jsnum) : jsnum :=
  match a with
  | Fin q => Fin (inject_Z (Qfloor (q + (1 # 2))))
  | NaN => NaN
  end.

(** The loops that add up [word.confidence] over the lines of a page; the
    state is [totalConfidence] and [wordCount]. *)
Definition addWordConfidences (words : list Word.t) (acc : jsnum * nat)
  : jsnum * nat :=
  fold_left (fun acc word =>
               match Word.confidence word with
               | Some c => (Num.add (fst acc) c, S (snd acc))
               | None => acc
               end) words acc.

Definition addLineConfidences (lines : list Line.t) (acc : jsnum * nat)
  : jsnum * nat :=
  fold_left (fun acc line =>
               match Line.words line with
               | Some ws => addWordConfidences ws acc
               | None => acc
               end) lines acc.

(** [`\n--- Page ${pageIndex + 1} ---\n`] *)
Definition pageHeader (pageIndex : nat) : jsstring :=
  [chr_nl] ++ js "--- Page " ++ decimal (N.of_nat (S pageIndex))
  ++ js " ---" ++ [chr_nl].

Section ProcessResults.
Local Open Scope exc_scope.

(** The loop over [readResults], from page [pageIndex] on; [count] is
    [readResults.length], the state is [extractedText], [totalConfidence]
    and [wordCount]. *)
Fixpoint processPages (count pageIndex : nat) (pages : list Page.t)
         (extractedText : jsstring) (acc : jsnum * nat)
  : Exc (jsstring * (jsnum * nat)) :=
  match pages with
  | [] => Ret (extractedText, acc)
  | page :: rest =>
      let extractedText :=
        if 1 <? count then extractedText ++ pageHeader pageIndex
        else extractedText in
      step <- match Page.lines page with
              | Some ((_ :: _) as lines) =>
                  pageText <- pageText lines ;;
                  Ret (extractedText ++ cleanAndFormatText pageText,
                       addLineConfidences lines acc)
              | _ =>
                  Ret (extractedText
                       ++ js "No text recognized on this page." ++ [chr_nl],
                       acc)
              end ;;
      let extractedText :=
        if S pageIndex <? count then fst step ++ [chr_nl; chr_nl]
        else fst step in
      processPages count (S pageIndex) rest extractedText (snd step)
  end.

(** [readResults] is [None] for a value that is not an array.  The model of
    [extractText] above is stated for any outcome of this function, of which
    it only passes on the text and the confidence. *)
Definition processOCRResults (readResults : option (list Page.t))
  : Exc Processed.t :=
  match readResults with
  | None | Some [] =>
      Ret {| Processed.text := js "No text detected";
             Processed.confidence := Fin 0;
             Processed.language := js "en";
             Processed.pages := 0 |}
  | Some pages =>
      r <- processPages (List.length pages) 0 pages [] (Fin 0, 0) ;;
      let extractedText := fst r in
      let totalConfidence := fst (snd r) in
      let wordCount := snd (snd r) in
      let averageConfidence :=
        if 0 <? wordCount
        then Num.mul (Num.div totalConfidence
                              (Fin (inject_Z (Z.of_nat wordCount))))
                     (Fin 100)
        else Fin 0 in
      let cleanedText := cleanAndFormatText extractedText in
      let finalText := detectAndFormatParagraphs cleanedText in
      Ret {| Processed.text := match finalText with
                               | [] => js "No readable text found"
                               | _ => finalText
                               end;
             Processed.confidence := round averageConfidence;
             Processed.language := js "en";
             Processed.pages := List.length pages |}
  end.
End ProcessResults.

(* ===================================================================== *)
(** ** The page-object probe: [checkPDFForExistingText] *)
(* ===================================================================== *)

(** What pdf-lib shows of one page object: whether it has a dictionary, and
    whether that dictionary has an entry ["Contents"] (a read that may
    raise). *)
Record PdfPageObject : Type := mkPdfPageObject
  { hasDict : bool;
    hasContents : Exc bool }.

(** A loaded document: the number of its pages, and for a page index what
    [pdfDoc.context.lookup(page.ref)] gives, which may be nothing, or
    raise. *)
Record PdfDocument : Type := mkPdfDocument
  { numberOfPages : nat;
    lookupPage : nat -> Exc (option PdfPageObject) }.

Definition extractTextFromPDFPage (pdfDoc : PdfDocument) (pageIndex : nat)
  : jsstring :=
  match bind (lookupPage pdfDoc pageIndex) (fun pageObject =>
          match pageObject with
          | Some object =>
              if hasDict object then
                bind (hasContents object) (fun contents =>
                  if contents then Ret [] else Ret [])
              else Ret []
          | None => Ret []
          end) with
  | Ret textContent => textContent
  | Raise _ => []
  end.

(** The loop over the pages; the state is [allText] and
    [hasSignificantText]. *)
Fixpoint scanPages (pdfDoc : PdfDocument) (pageIndices : list nat)
         (allText : jsstring) (hasSignificantText : bool) : jsstring * bool :=
  match pageIndices with
  | [] => (allText, hasSignificantText)
  | i :: rest =>
      let textContent := extractTextFromPDFPage pdfDoc i in
      if match textContent with [] => false | _ => true end
         && (0 <? List.length (trim textContent))
      then
        let cleanText := trim (replaceAll Re.spaces textContent) in
        scanPages pdfDoc rest (allText ++ textContent ++ [chr_nl])
                  (if 10 <? List.length cleanText then true
                   else hasSignificantText)
      else scanPages pdfDoc rest allText hasSignificantText
  end.

(** [load] is the outcome of reading the file and handing it to
    [PDFLib.load]. *)
Definition checkPDFForExistingText (load : Exc PdfDocument) : TextCheck :=
  match load with
  | Ret pdfDoc =>
      let scanned := scanPages pdfDoc (seq 0 (numberOfPages pdfDoc)) [] false in
      {| hasText := snd scanned;
         extractedText := trim (fst scanned);
         pageCount := numberOfPages pdfDoc;
         textLength := List.length (trim (fst scanned)) |}
  | Raise _ =>
      {| hasText := false; extractedText := []; pageCount := 0; textLength := 0 |}
  end.

(* ===================================================================== *)
(** ** The callers of [extractText]: [processMultipleFiles],
       [generateOverlayPDF], [extractTextWithOverlay] *)
(* ===================================================================== *)

Module File.
Record t : Type := mk
  { path : option jsstring;
    mimetype : option jsstring;
    filename : jsstring }.
End File.

(** An entry of the array [processMultipleFiles] resolves to:
    [{file, success: true, ...result}] or [{file, success: false, error}]. *)
Inductive FileResult : Type :=
| FileSuccess (file : jsstring) (result : OcrResult)
| FileFailure (file : jsstring) (e : error).

(** The result of [extractText] with the two fields that
    [extractTextWithOverlay] may add. *)
Record OverlayResult : Type := mkOverlayResult
  { ocrResults : OcrResult;
    overlayPDFPath : option jsstring;
    overlayPDFName : option jsstring }.

(** [ext.toLowerCase() === ".pdf"]; no code unit from 128 up lower-cases to
    one of [p], [d], [f]. *)
Definition isPdfExtension (ext : jsstring) : bool :=
  match Re.prefix_ci (js ".pdf") ext with
  | Some (_, []) => true
  | _ => false
  end.

Section Callers.
Local Open Scope exc_scope.

(** Node's [path] module and the [sanitize-filename] package;
    [path_basename_ext p ext] is [path.basename(p, ext)]. *)
Variables path_basename path_dirname path_extname sanitizePath
  : jsstring -> jsstring.
Variable path_join : jsstring -> jsstring -> jsstring.
Variable path_basename_ext : jsstring -> jsstring -> jsstring.
Variable processOCRResults : list Page.t -> Exc ExtractedData.
Variable w : World.

(** What becomes of the three writers of an overlay document, which draw
    and save through pdf-lib, jsPDF and the file system:
    [createContinuousSearchablePdfFromPDF(pdfPath, pages, outputPath)],
    [createContinuousSearchablePdf(imagePath, page, pdfFilename)] and
    [createSimpleTextOnlyPDF(ocrResults, outputPath)]. *)
Variable writeOverlayFromPDF : jsstring -> list Page.t -> jsstring -> Exc unit.
Variable writeOverlayFromImage : jsstring -> option Page.t -> jsstring -> Exc unit.
Variable writeTextOnlyPDF : OcrResult -> jsstring -> Exc unit.

Definition processMultipleFiles (files : list File.t) : list FileResult :=
  List.map (fun file =>
              match extractText path_basename path_dirname sanitizePath
                                path_join processOCRResults w
                                (File.path file) (File.mimetype file) with
              | Ret result => FileSuccess (File.filename file) result
              | Raise e => FileFailure (File.filename file) e
              end) files.

Definition generateOverlayPDF (originalFilePath : jsstring)
           (ocrResults : OcrResult) (outputPath : jsstring) : Exc jsstring :=
  let sanitizedOutput := sanitizePath (path_basename outputPath) in
  let fullOutputPath := path_join (path_dirname outputPath) sanitizedOutput in
  if isPdfExtension (path_extname originalFilePath) then
    _ <- writeOverlayFromPDF originalFilePath (resultPages ocrResults)
                             fullOutputPath ;;
    Ret fullOutputPath
  else
    _ <- writeOverlayFromImage originalFilePath
                               (nth_error (resultPages ocrResults) 0)
                               fullOutputPath ;;
    Ret fullOutputPath.

(** The block guarded by
    [generateOverlay && ocrResults.ocrEngine === "Azure Computer Vision"]. *)
Definition attachOverlay (filePath : jsstring) (mimetype : option jsstring)
           (ocrResults : OcrResult) : OverlayResult :=
  let outputDir := path_dirname filePath in
  let baseName := path_basename_ext filePath (path_extname filePath) in
  let overlayPath :=
    path_join outputDir (sanitizePath (baseName ++ js "_overlay.pdf")) in
  let without := {| ocrResults := ocrResults;
                    overlayPDFPath := None;
                    overlayPDFName := None |} in
  if match mimetype with Some m => isPdf m | None => false end then
    match generateOverlayPDF filePath ocrResults overlayPath with
    | Ret resultPath =>
        {| ocrResults := ocrResults;
           overlayPDFPath := Some resultPath;
           overlayPDFName := Some (path_basename resultPath) |}
    | Raise _ =>
        match writeTextOnlyPDF ocrResults overlayPath with
        | Ret _ =>
            {| ocrResults := ocrResults;
               overlayPDFPath := Some overlayPath;
               overlayPDFName := Some (path_basename overlayPath) |}
        | Raise _ => without
        end
    end
  else
    match generateOverlayPDF filePath ocrResults overlayPath with
    | Ret _ =>
        {| ocrResults := ocrResults;
           overlayPDFPath := Some overlayPath;
           overlayPDFName := Some (baseName ++ js "_overlay.pdf") |}
    | Raise _ => without
    end.

Definition extractTextWithOverlay (filePath mimetype : option jsstring)
           (generateOverlay : bool) : Exc OverlayResult :=
  ocrResults <- extractText path_basename path_dirname sanitizePath path_join
                            processOCRResults w filePath mimetype ;;
  match ocrEngine ocrResults, generateOverlay, filePath with
  | AzureComputerVision, true, Some filePath' =>
      Ret (attachOverlay filePath' mimetype ocrResults)
  | AzureComputerVision, true, None => Raise TypeError
  | _, _, _ =>
      Ret {| ocrResults := ocrResults;
             overlayPDFPath := None;
             overlayPDFName := None |}
  end.
End Callers.

(* ===================================================================== *)
(** ** The text-only document: [generateSearchablePDFLegacy] *)
(* ===================================================================== *)

(** One call of [doc.text(text, x, y)] of jsPDF, with the number of the page
    it lands on (the first page is 0). *)
Record Placed : Type := mkPlaced
  { onPage : nat;
    placedText : jsstring;
    atX : Q;
    atY : Q }.

Section TextOnly.
Local Open Scope Q_scope.

(** [doc.internal.pageSize.height] *)
Variable pageHeight : Q.

(** The loop [for (const line of lines)]; the state is the current page and
    [yPosition]. *)
Fixpoint placeLines (lines : list jsstring) (page : nat) (yPosition : Q)
  : list Placed :=
  match lines with
  | [] => []
  | line :: rest =>
      let overflow := Num.Qltb (pageHeight - 50) yPosition in
      let page := if overflow then S page else page in
      let yPosition := if overflow then 50 else yPosition in
      {| onPage := page; placedText := line; atX := 50; atY := yPosition |}
      :: placeLines rest page (yPosition + 14)
  end.

(** The calls of [doc.text] up to [doc.save]. *)
Definition generateSearchablePDFLegacy (ocrResults : OcrResult) : list Placed :=
  {| onPage := 0; placedText := js "Extracted Text"; atX := 50; atY := 50 |}
  :: match text ocrResults with
     | [] => []
     | text => placeLines (splitOn chr_nl text) 0 80
     end.
End TextOnly.

(* ===================================================================== *)
(** ** The image-backed overlay: [createContinuousSearchablePdf] *)
(* ===================================================================== *)

Section ImageOverlay.
Local Open Scope exc_scope.

(** [doc.getTextWidth(" ")] and [fontSize]. *)
Variable spaceWidth : jsnum.
Variable fontSize : jsnum.

(** [words.map((word) => maxY - descent)] *)
Fixpoint baselinesOf (descent : jsnum) (words : list Word.t) : Exc (list jsnum) :=
  match words with
  | [] => Ret []
  | word :: rest =>
      maxY <- boxMax4 word 1 3 5 7 ;;
      ys <- baselinesOf descent rest ;;
      Ret (Num.sub maxY descent :: ys)
  end.

(** The body of the loop over [page.lines] for one line; [None] for a line
    that is skipped. *)
Definition imageLine (line : Line.t) : Exc (option Draw) :=
  match Line.words line with
  | None | Some [] => Ret None
  | Some ws =>
      sorted <- sortWith compareByLeft ws ;;
      match sorted with
      | [] => Raise TypeError
      | first :: rest =>
          spaced <- continueText spaceWidth first rest ;;
          let fullText := Word.text first ++ spaced in
          let descent := Num.mul fontSize (Fin (2 # 10)) in
          baselines <- baselinesOf descent sorted ;;
          let avgBaseline :=
            Num.div (fold_left Num.add baselines (Fin 0))
                    (Fin (inject_Z (Z.of_nat (List.length baselines)))) in
          startX <- boxMin4 first 0 2 4 6 ;;
          Ret (Some {| drawnText := fullText; x := startX; y := avgBaseline |})
      end
  end.

Fixpoint imageLines (lines : list Line.t) : Exc (list Draw) :=
  match lines with
  | [] => Ret []
  | line :: rest =>
      d <- imageLine line ;;
      ds <- imageLines rest ;;
      Ret (match d with Some d' => d' :: ds | None => ds end)
  end.

(** The calls of [doc.text] for the recognised page.  [image] is the outcome
    of reading the image, asking for its dimensions and placing it on the
    page; [page] is [None] when [readResults] is empty. *)
Definition createContinuousSearchablePdf (image : Exc unit)
           (page : option Page.t) : Exc (list Draw) :=
  _ <- image ;;
  match page with
  | Some page' =>
      match Page.lines page' with
      | Some lines => imageLines lines
      | None => Ret []
      end
  | None => Ret []
  end.
End ImageOverlay.

(* ===================================================================== *)
(** * Scenarios and auxiliary predicates *)
(* ===================================================================== *)

(** Six font declarations, and nothing else. *)
Definition sixFontDeclarations : jsstring :=
  js "/Type/Font /Type /Font /Type/Font /Type/Font /Type/Font /Type/Font".

(** The polls and the suspensions of a trace. *)
Definition polls (events : list Event) : nat :=
  List.length (filter (fun e => match e with Poll _ => true | Sleep _ => false end) events).

Definition suspensions (events : list Event) : nat :=
  List.length (filter (fun e => match e with Sleep _ => true | Poll _ => false end) events).

(** A client answering [running] to the first [n] polls and [succeeded]
    afterwards. *)
Definition succeedsAfter (n : nat) : Operation :=
  {| getReadResult := fun k => Ret (if k <? n then running else succeeded);
     readResults := [] |}.

(** A recognition client whose operations succeed at the first poll. *)
Definition idleClient : Client :=
  {| readInStream_stream := Ret (succeedsAfter 0);
     readInStream_buffer := Ret (succeedsAfter 0) |}.

(** A world with that client configured, in which every path is a file of
    [size] bytes. *)
Definition worldWithFile (size : N) : World :=
  {| stat := fun _ => Ret size;
     readFile := fun _ => Ret [];
     computerVisionClient := Some idleClient |}.

(** A stand-in for [processOCRResults] that returns no text. *)
Definition noData : list Page.t -> Exc ExtractedData :=
  fun _ => Ret {| data_text := []; data_confidence := 0; data_pages := 0 |}.


(** A word with finite corner coordinates. *)
Definition wordAt (text : string) (corners : list Q) : Word.t :=
  {| Word.text := js text;
     Word.boundingBox := Some (List.map (fun q => Num (Fin q)) corners);
     Word.confidence := None |}.

Definition hello : Word.t := wordAt "Hello" [0; 0; 50; 0; 50; 20; 0; 20]%Q.
Definition world : Word.t := wordAt "World" [60; 0; 110; 0; 110; 20; 60; 20]%Q.


(** A word one line further down and to the left of "Hello". *)
Definition nextLineStart : Word.t :=
  wordAt "again" [0; 30; 40; 30; 40; 50; 0; 50]%Q.

(** A line with finite corner coordinates. *)
Definition lineAt (corners : list Q) : Line.t :=
  {| Line.words := None;
     Line.boundingBox := Some (List.map (fun q => Num (Fin q)) corners) |}.

(** Two lines ten pixels high; the second starts eleven pixels below the
    first, and a third starts two pixels below the first. *)
Definition upperLine : Line.t := lineAt [0; 0; 100; 0; 100; 10; 0; 10]%Q.
Definition lowerLine : Line.t := lineAt [0; 21; 100; 21; 100; 31; 0; 31]%Q.

(** "World" with a corner whose ordinate is not a number, and with a corner
    whose conversion to a number raises. *)
Definition undetermined : Word.t :=
  {| Word.text := js "World";
     Word.boundingBox :=
       Some [Num (Fin 60); Num NaN; Num (Fin 110); Num (Fin 0);
             Num (Fin 110); Num (Fin 20); Num (Fin 60); Num (Fin 20)];
     Word.confidence := None |}.


Definition boxless : Word.t :=
  {| Word.text := js "World"; Word.boundingBox := None; Word.confidence := None |}.

(** A recognised page of 1000 x 1000 with one word whose top-left corner is
    at (100, 100) and which is 20 high, and a target page of 500 x 500. *)
Definition sourcePage : Page.t :=
  {| Page.lines :=
       Some [ {| Line.words :=
                   Some [wordAt "Total" [100; 100; 180; 100; 180; 120; 100; 120]%Q];
                 Line.boundingBox := None |} ];
     Page.width := Some (Fin 1000);
     Page.height := Some (Fin 1000) |}.

Definition targetSize : PageSize :=
  {| pageWidth := Fin 500; pageHeight := Fin 500 |}.

(** The advance width of Courier at the shipped font size. *)
Definition courierWidth : jsnum := Fin ((600 # 1000) * CONFIG.PDF_FONT_SIZE).

(** What the overlay draws for that page. *)
Definition exampleDraws : list (list Draw) :=
  match createContinuousSearchablePdfFromPDF courierWidth (Ret [targetSize])
                                             [sourcePage] with
  | Overlaid dss => dss
  | TextOnlyFallback => []
  end.

(** A page whose first line is one word without a bounding box and whose
    second line is two overlapping words. *)
Definition boxlessLine : Line.t :=
  {| Line.words :=
       Some [ {| Word.text := js "a"; Word.boundingBox := None;
                 Word.confidence := None |} ];
     Line.boundingBox := None |}.


(** No insertion rule of the normaliser finds a site in [s]. *)
Definition settled (s : jsstring) : bool :=
  forallb (fun m => negb (hasMatch m s)) cleanInsertionRules.

(** [s] is empty or starts with a code unit that is not white space. *)
Definition headNonSpace (s : jsstring) : bool :=
  match s with
  | [] => true
  | c :: _ => negb (CharClass.space c)
  end.

(** Every white-space code unit of [s] is a space that stands alone. *)
Fixpoint collapsed (s : jsstring) : bool :=
  match s with
  | [] => true
  | c :: rest =>
      (if CharClass.space c then N.eqb c chr_space && headNonSpace rest else true)
      && collapsed rest
  end.

(** [b] may follow [a] in the order of [compare]: the comparator puts [b]
    after [a], or does not put [a] after [b]. *)
Definition mayFollow {A : Type} (compare : A -> A -> Exc jsnum) (a b : A) : Prop :=
  (exists v, compare b a = Ret v /\ Num.gtb v (Fin 0) = true)
  \/ (exists v, compare a b = Ret v /\ Num.gtb v (Fin 0) = false).

(** Does [s] start with a code unit that is not white space? *)
Definition startsSolid (s : jsstring) : bool :=
  match s with
  | c :: _ => negb (CharClass.space c)
  | [] => false
  end.

(** 1 when [a] and the first code unit of [s] are both not white space. *)
Definition headLink (a : jschar) (s : jsstring) : nat :=
  if negb (CharClass.space a) && startsSolid s then 1 else 0.

(** The number of places where two code units that are not white space
    stand next to each other: the places where an insertion rule could
    still put a space. *)
Fixpoint adjacency (s : jsstring) : nat :=
  match s with
  | a :: rest => headLink a rest + adjacency rest
  | [] => 0
  end.

(** A matcher whose expansion starts like what it replaces and has no more
    adjacencies ([thinning]), or strictly fewer ([separating]). *)
Definition thinning (m : matcher) : Prop :=
  forall s out k,
    m s = Some (out, k) ->
    out <> []
    /\ (forall R, startsSolid (out ++ R) = startsSolid s)
    /\ (forall R, adjacency (out ++ R) <= adjacency (firstn (S k) s ++ R)).

Definition separating (m : matcher) : Prop :=
  forall s out k,
    m s = Some (out, k) ->
    out <> []
    /\ (forall R, startsSolid (out ++ R) = startsSolid s)
    /\ (forall R, adjacency (out ++ R) < adjacency (firstn (S k) s ++ R)).

(** A character class that holds no white space. *)
Definition solidClass (p : jschar -> bool) : Prop :=
  forall c, p c = true -> CharClass.space c = false.

(** The code units of [s] that are not white space, in order. *)
Definition solidText (s : jsstring) : jsstring :=
  filter (fun c => negb (CharClass.space c)) s.

(** A matcher whose expansion has, white space aside, the code units of
    what it replaces. *)
Definition solidPreserving (m : matcher) : Prop :=
  forall s out k,
    m s = Some (out, k) -> solidText out = solidText (firstn (S k) s).

(** The separators the spacing classifier chooses from. *)
Definition wordSeparators : list jsstring :=
  [ js ""; js " "; js "  "; js "    "; [chr_tab];
    [chr_nl]; [chr_nl; chr_nl]; [chr_nl; chr_nl; chr_nl] ].

(** The words of the lines of a page, in reading order, and what they hold
    apart from white space. *)
Definition wordsOf (lines : list Line.t) : list Word.t :=
  flat_map (fun line =>
              match Line.words line with
              | Some ws => ws
              | None => []
              end) lines.

Definition solidWords (words : list Word.t) : jsstring :=
  flat_map (fun word => solidText (Word.text word)) words.

(** The separators [calculateSpacingBetweenLines] chooses from. *)
Definition lineSeparators : list jsstring :=
  [ [chr_nl]; [chr_nl; chr_nl]; [chr_nl; chr_nl; chr_nl] ].

(** A bounding box none of whose entries raises when it is read as a
    number. *)
Definition numericBox (box : option (list cell)) : bool :=
  match box with
  | Some entries =>
      forallb (fun c => match c with Num _ => true | Hostile => false end) entries
  | None => true
  end.

(** No code unit of [s] is a newline. *)
Definition oneLine (s : jsstring) : Prop :=
  Forall (fun c => N.eqb chr_nl c = false) s.

(** A confidence that is absent, or a number from 0 to 1. *)
Definition unitConfidence (c : option jsnum) : bool :=
  match c with
  | Some (Fin q) => Qle_bool 0 q && Qle_bool q 1
  | Some NaN => false
  | None => true
  end.

(** Every word of the lines has such a confidence. *)
Definition unitConfidences (lines : list Line.t) : bool :=
  forallb (fun line =>
             match Line.words line with
             | Some ws => forallb (fun word => unitConfidence (Word.confidence word)) ws
             | None => true
             end) lines.

(** The lines of a page, none when the page has no array of lines. *)
Definition linesOf (page : Page.t) : list Line.t :=
  match Page.lines page with
  | Some lines => lines
  | None => []
  end.

(** No entry of a bounding box of a line or of a word raises when it is
    read as a number. *)
Definition numericLine (line : Line.t) : bool :=
  numericBox (Line.boundingBox line)
  && match Line.words line with
     | Some ws => forallb (fun word => numericBox (Word.boundingBox word)) ws
     | None => true
     end.

(** A page of two words read with confidence 0.9 and 0.8. *)
Definition confidentPage : Page.t :=
  {| Page.lines :=
       Some [ {| Line.words :=
                   Some [ {| Word.text := js "Hello";
                             Word.boundingBox := Word.boundingBox hello;
                             Word.confidence := Some (Fin (9 # 10)) |};
                          {| Word.text := js "World";
                             Word.boundingBox := Word.boundingBox world;
                             Word.confidence := Some (Fin (8 # 10)) |} ];
                 Line.boundingBox := None |} ];
     Page.width := None;
     Page.height := None |}.

(** A page on which nothing was recognised. *)
Definition blankPage : Page.t :=
  {| Page.lines := None; Page.width := None; Page.height := None |}.

(** A running total of confidences that is a number between 0 and the
    number of words counted. *)
Definition withinCount (acc : jsnum * nat) : Prop :=
  exists t, fst acc = Fin t
            /\ (0 <= t <= inject_Z (Z.of_nat (snd acc)))%Q.

(** A page with a word one of whose corners is not a number. *)
Definition undeterminedPage : Page.t :=
  {| Page.lines :=
       Some [ {| Line.words := Some [hello; undetermined];
                 Line.boundingBox := None |} ];
     Page.width := None;
     Page.height := None |}.

(** The time a trace spends suspended, in milliseconds. *)
Definition totalSleep (events : list Event) : nat :=
  fold_right (fun e total =>
                match e with
                | Sleep ms => ms + total
                | Poll _ => total
                end) 0 events.

(** A document of three pages: one without a page object, one whose
    dictionary has a content stream, one whose dictionary cannot be read. *)
Definition threePageDocument : PdfDocument :=
  {| numberOfPages := 3;
     lookupPage := fun i =>
       match i with
       | 0 => Ret None
       | 1 => Ret (Some {| hasDict := true; hasContents := Ret true |})
       | _ => Ret (Some {| hasDict := true; hasContents := Raise TypeError |})
       end |}.

(** The file name of an entry of the result of [processMultipleFiles]. *)
Definition fileOf (entry : FileResult) : jsstring :=
  match entry with
  | FileSuccess file _ => file
  | FileFailure file _ => file
  end.

(** [next] is drawn where the loop of the text-only document goes after
    [prev]: one line further down the same page, or at the top margin of the
    next page. *)
Definition drawnAfter (prev next : Placed) : Prop :=
  (onPage next = onPage prev /\ (atY next == atY prev + 14)%Q)
  \/ (onPage next = S (onPage prev) /\ (atY next == 50)%Q).

(** The height of an A4 page in points, as jsPDF has it. *)
Definition a4Height : Q := 84189 # 100.

(** A result whose text has three lines. *)
Definition threeLineResult : OcrResult :=
  {| text := js "first" ++ [chr_nl] ++ js "second" ++ [chr_nl] ++ js "third";
     confidence := 90;
     ocrEngine := AzureComputerVision;
     skippedOCR := false;
     originallySearchable := false;
     resultPages := [] |}.

(** A natural number as a JavaScript number. *)
Definition natQ (n : nat) : Q := inject_Z (Z.of_nat n).

(** A result whose text has sixty lines. *)
Definition sixtyLineResult : OcrResult :=
  {| text := repeat chr_nl 59;
     confidence := 90;
     ocrEngine := AzureComputerVision;
     skippedOCR := false;
     originallySearchable := false;
     resultPages := [] |}.

(** The words [words], each preceded by as many spaces as [gaps] says. *)
Fixpoint spacedWords (words : list Word.t) (gaps : list nat) : jsstring :=
  match words, gaps with
  | word :: rest, gap :: gaps' =>
      repeat chr_space gap ++ Word.text word ++ spacedWords rest gaps'
  | _, _ => []
  end.

(** The four corner abscissas of the word are numbers. *)
Definition finiteAbscissas (word : Word.t) : bool :=
  match Word.boundingBox word with
  | Some box =>
      forallb (fun i => match nth i box (Num NaN) with
                        | Num (Fin _) => true
                        | _ => false
                        end) [0; 2; 4; 6]
  | None => false
  end.

(** A line of three words given out of order, the last two 25 apart. *)
Definition shuffledLine : Line.t :=
  {| Line.words := Some [ wordAt "c" [45; 0; 55; 0; 55; 10; 45; 10]%Q;
                          wordAt "a" [0; 0; 10; 0; 10; 10; 0; 10]%Q;
                          wordAt "b" [12; 0; 20; 0; 20; 10; 12; 10]%Q ];
     Line.boundingBox := None |}.

(** The length of the longest run of newlines in [s]. *)
Fixpoint longestNewlineRun (s : jsstring) : nat :=
  match s with
  | [] => 0
  | _ :: rest => Nat.max (runLength (N.eqb chr_nl) s) (longestNewlineRun rest)
  end.

(** A page whose only line is the word without a bounding box. *)
Definition boxlessPage : Page.t :=
  {| Page.lines := Some [boxlessLine];
     Page.width := None;
     Page.height := None |}.

(** A batch of two files: a readable image, and an entry without a path. *)
Definition twoFiles : list File.t :=
  [ {| File.path := Some (js "scan.png");
       File.mimetype := Some (js "image/png");
       File.filename := js "scan.png" |};
    {| File.path := None;
       File.mimetype := Some (js "image/png");
       File.filename := js "lost.png" |} ].

(** [processMultipleFiles] and [extractTextWithOverlay] in a world in which
    every path is a file of [size] bytes, with paths taken as they are and
    writers that succeed. *)
Definition runBatch (size : N) (files : list File.t) : list FileResult :=
  processMultipleFiles (fun p => p) (fun _ => []) (fun p => p)
                       (fun d p => d ++ p) noData (worldWithFile size) files.

Definition runWithOverlay (size : N) (filePath mimetype : string)
           (generateOverlay : bool) : Exc OverlayResult :=
  extractTextWithOverlay (fun p => p) (fun _ => []) (fun _ => [])
                         (fun p => p) (fun d p => d ++ p) (fun p _ => p)
                         noData (worldWithFile size)
                         (fun _ _ _ => Ret tt) (fun _ _ _ => Ret tt)
                         (fun _ _ => Ret tt)
                         (Some (js filePath)) (Some (js mimetype))
                         generateOverlay.

(** Two lines, the second with two words that have no box. *)
Definition plainLines : list Line.t :=
  [ boxlessLine;
    {| Line.words := Some [ boxless; boxless ]; Line.boundingBox := None |} ].

(* ===================================================================== *)
(** * Properties *)
(* ===================================================================== *)

(* --------------------------------------------------------------------- *)
(** ** Existence probe *)
(* --------------------------------------------------------------------- *)

(** C10. The probe reports [hasText = true] exactly when the number of
    text-indicator matches in the raw bytes exceeds 5: six or more matches
    give [true], no match gives [false]. *)
Theorem probe_threshold (pdfString : jsstring) :
  (hasText (checkPDFTextWithPdfParse (Ret pdfString)) = true
   <-> 5 < textIndicatorCount pdfString)
  /\ (6 <= textIndicatorCount pdfString ->
      hasText (checkPDFTextWithPdfParse (Ret pdfString)) = true)
  /\ (textIndicatorCount pdfString = 0 ->
      hasText (checkPDFTextWithPdfParse (Ret pdfString)) = false).
Proof.
  unfold checkPDFTextWithPdfParse; cbn [hasText].
  repeat split.
  - intros H. apply Nat.ltb_lt in H. exact H.
  - intros H. apply Nat.ltb_lt. exact H.
  - intros H. apply Nat.ltb_lt. lia.
  - intros H. rewrite H. reflexivity.
Qed.

Lemma probe_threshold_witness :
  textIndicatorCount sixFontDeclarations = 6
  /\ hasText (checkPDFTextWithPdfParse (Ret sixFontDeclarations)) = true
  /\ hasText (checkPDFTextWithPdfParse (Ret [])) = false.
Proof.
  split; [reflexivity|]. split.
  - apply (proj1 (proj2 (probe_threshold sixFontDeclarations))).
    vm_compute. lia.
  - apply (proj2 (proj2 (probe_threshold []))). reflexivity.
Defined.

(* --------------------------------------------------------------------- *)
(** ** Polling loop *)
(* --------------------------------------------------------------------- *)

(** The fuel handed to the loop always suffices. *)
Lemma pollLoop_total (maxAttempts : nat) (op : Operation) :
  forall fuel attempts,
    0 < fuel -> maxAttempts < fuel + attempts ->
    exists r, pollLoop maxAttempts op fuel attempts = Some r.
Proof.
  induction fuel as [|fuel IH]; intros attempts Hpos Hfuel; [lia|].
  simpl. destruct (getReadResult op attempts) as [status|e]; [|eauto].
  destruct (maxAttempts <=? S attempts) eqn:Hmax; [eauto|].
  apply Nat.leb_gt in Hmax.
  destruct (stillPending status); [|eauto].
  destruct (IH (S attempts)) as [[events r] Hr]; [lia|lia|].
  rewrite Hr. eauto.
Qed.

Lemma pollOperation_total (maxAttempts : nat) (op : Operation) :
  exists r, pollOperation maxAttempts op = Some r.
Proof. apply pollLoop_total; lia. Qed.

(** Every iteration suspends once before it polls, and the loop never polls
    more often than [maxAttempts] allows. *)
Lemma pollLoop_bounds (maxAttempts : nat) (op : Operation) :
  forall fuel attempts events r,
    pollLoop maxAttempts op fuel attempts = Some (events, r) ->
    polls events <= suspensions events <= S (polls events)
    /\ (attempts < maxAttempts -> attempts + polls events <= maxAttempts).
Proof.
  induction fuel as [|fuel IH]; intros attempts events r H; [discriminate|].
  simpl in H. destruct (getReadResult op attempts) as [status|e].
  - destruct (maxAttempts <=? S attempts) eqn:Hmax.
    + inversion H; subst. cbn. split; lia.
    + apply Nat.leb_gt in Hmax.
      destruct (stillPending status).
      * destruct (pollLoop maxAttempts op fuel (S attempts)) as [[ev r']|] eqn:Hrec;
          [|discriminate].
        inversion H; subst. apply IH in Hrec. cbn.
        unfold polls, suspensions in *. split; lia.
      * inversion H; subst. cbn. split; lia.
  - inversion H; subst. cbn. split; lia.
Qed.

(** The loop under the shipped bound makes at most 30 polls; and in the run
    [running, running, running, succeeded] it ends with [succeeded] after
    four polls, each preceded by one suspension, three of which lie between
    two polls. *)
Lemma polling_bound_and_scenario :
  (forall op events r,
      pollOperation CONFIG.TIMEOUT_SECONDS op = Some (events, r) ->
      polls events <= 30)
  /\ pollOperation CONFIG.TIMEOUT_SECONDS (succeedsAfter 3)
     = Some ([Sleep 1000; Poll running; Sleep 1000; Poll running;
              Sleep 1000; Poll running; Sleep 1000; Poll succeeded],
             Ret succeeded)
  /\ awaitOperation (succeedsAfter 3) = Ret [].
Proof.
  split; [|split; reflexivity].
  intros op events r H. apply pollLoop_bounds in H.
  unfold CONFIG.TIMEOUT_SECONDS in H. lia.
Qed.

(** C4. The thirtieth poll is never honoured: when the first 29 polls answer
    [running] and the thirtieth answers [succeeded], the loop has made 30
    polls, the last status is a success, and the loop still leaves with the
    timeout error; the same happens when the thirtieth poll answers
    [failed]. *)
Theorem polling_last_attempt_times_out :
  (exists events,
      pollOperation CONFIG.TIMEOUT_SECONDS (succeedsAfter 29)
      = Some (events, Raise OperationTimeout)
      /\ polls events = 30
      /\ last events (Sleep 0) = Poll succeeded)
  /\ awaitOperation (succeedsAfter 29) = Raise OperationTimeout
  /\ awaitOperation (succeedsAfter 28) = Ret []
  /\ awaitOperation
       {| getReadResult := fun k => Ret (if k <? 29 then running else failed);
          readResults := [] |} = Raise OperationTimeout.
Proof.
  split; [|repeat split; reflexivity].
  eexists. split; [vm_compute; reflexivity|]. split; reflexivity.
Qed.

(* --------------------------------------------------------------------- *)
(** ** Entry point *)
(* --------------------------------------------------------------------- *)

Section ExtractTextFacts.
Variables path_basename path_dirname sanitizePath : jsstring -> jsstring.
Variable path_join : jsstring -> jsstring -> jsstring.
Variable processOCRResults : list Page.t -> Exc ExtractedData.
Variable w : World.

(** The fallback cannot fail on a string. *)
Lemma simulateOCR_returns (filePath : jsstring) :
  exists r, simulateOCR path_basename w (Some filePath) = Ret r
            /\ ocrEngine r = Simulation /\ confidence r = 50%Z.
Proof. unfold simulateOCR. eexists. repeat split. Qed.


Lemma extractText_returns (filePath : jsstring) (mimetype : option jsstring) :
  exists r,
    extractText path_basename path_dirname sanitizePath path_join
                processOCRResults w (Some filePath) mimetype = Ret r.
Proof.
  unfold extractText.
  destruct (extractTextBody _ _ _ _ _ _ _ _) as [r|e].
  - exists r. reflexivity.
  - destruct (simulateOCR_returns filePath) as [r' [Hr _]].
    exists r'. exact Hr.
Qed.



End ExtractTextFacts.



(* --------------------------------------------------------------------- *)
(** ** Spacing classifier *)
(* --------------------------------------------------------------------- *)

Section NumFacts.
Local Open Scope Q_scope.

Lemma Qltb_lt (a b : Q) : Num.Qltb a b = true <-> a < b.
Proof.
  unfold Num.Qltb. rewrite negb_true_iff.
  split; intros H.
  - apply Qnot_le_lt. intros Hle. apply Qle_bool_iff in Hle. congruence.
  - destruct (Qle_bool b a) eqn:E; [|reflexivity].
    apply Qle_bool_iff in E. exfalso. apply (Qlt_not_le _ _ H E).
Qed.

Lemma Qltb_ge (a b : Q) : Num.Qltb a b = false <-> b <= a.
Proof.
  unfold Num.Qltb. rewrite negb_false_iff. apply Qle_bool_iff.
Qed.




End NumFacts.


Section ClassifierFacts.
Local Open Scope Q_scope.
Import CONFIG.INTELLIGENT_SPACING.

Variables word1 word2 : Word.t.
Variables b1 b2 : list cell.
Variables e1 e2 : Extent.
Hypothesis box1 : fullBox (Word.boundingBox word1) = Some b1.
Hypothesis box2 : fullBox (Word.boundingBox word2) = Some b2.
Hypothesis extent1 : extent b1 = Ret e1.
Hypothesis extent2 : extent b2 = Ret e2.





End ClassifierFacts.






Section LineFacts.
Local Open Scope Q_scope.


Variables line1 line2 : Line.t.
Variables bb1 bb2 : list cell.
Variables line1Bottom line1Top line2Top : Q.
Hypothesis box1 : Line.boundingBox line1 = Some bb1.
Hypothesis box2 : Line.boundingBox line2 = Some bb2.
Hypothesis bottom1 : JsMath.max4 bb1 1 3 5 7 = Ret (Fin line1Bottom).
Hypothesis top1 : JsMath.min4 bb1 1 3 5 7 = Ret (Fin line1Top).
Hypothesis top2 : JsMath.min4 bb2 1 3 5 7 = Ret (Fin line2Top).

End LineFacts.






(** A coordinate that is not a number raises no exception: it fails every
    comparison, so the pair is not on the same line and no gap threshold is
    met, and the decision is the three newlines of a section break. *)
Lemma nan_geometry_is_a_section_break :
  (exists b, fullBox (Word.boundingBox undetermined) = Some b /\ 8 <= List.length b)
  /\ calculateSpacingBetweenWords hello undetermined
     = Ret [chr_nl; chr_nl; chr_nl]
  /\ calculateSpacingBetweenWords hello undetermined <> Ret (js " ").
Proof.
  split; [|split].
  - eexists. split; [reflexivity | cbn; lia].
  - reflexivity.
  - vm_compute. discriminate.
Qed.

(* --------------------------------------------------------------------- *)
(** ** Document-backed overlay *)
(* --------------------------------------------------------------------- *)

Section OverlayFacts.
Local Open Scope Q_scope.
Variable charWidth : jsnum.

Lemma overlayPages_nth :
  forall pages sizes dss,
    overlayPages charWidth pages sizes = Ret dss ->
    List.length dss = Nat.min (List.length pages) (List.length sizes)
    /\ forall i page size,
        nth_error pages i = Some page ->
        nth_error sizes i = Some size ->
        exists ds,
          nth_error dss i = Some ds
          /\ match Page.lines page with
             | Some lines => overlayLines charWidth size page lines
             | None => Ret []
             end = Ret ds.
Proof.
  induction pages as [|page0 pages IH]; intros sizes dss H.
  - cbn in H. injection H as <-. split; [reflexivity|].
    intros [|i] ? ? Hp; discriminate.
  - destruct sizes as [|size0 sizes].
    + cbn in H. injection H as <-. split; [reflexivity|].
      intros [|i] ? ? _ Hs; discriminate.
    + cbn [overlayPages] in H.
      destruct (match Page.lines page0 with
                | Some lines => overlayLines charWidth size0 page0 lines
                | None => Ret []
                end) as [ds0|] eqn:E0; [|discriminate].
      cbn [bind] in H.
      destruct (overlayPages charWidth pages sizes) as [dss'|] eqn:E1;
        [|discriminate].
      cbn [bind] in H. injection H as <-.
      destruct (IH _ _ E1) as [Hlen Hnth]. split; [cbn; lia|].
      intros [|i] page size Hp Hs; cbn in Hp, Hs.
      * injection Hp as <-. injection Hs as <-. exists ds0. split; trivial.
      * cbn. eauto.
Qed.

Lemma overlayLines_In (size : PageSize) (page : Page.t) :
  forall lines ds,
    overlayLines charWidth size page lines = Ret ds ->
    forall line, In line lines ->
      exists od, overlayLine charWidth size page line = Ret od
                 /\ forall d, od = Some d -> In d ds.
Proof.
  induction lines as [|line0 lines IH]; intros ds H line Hin; [destruct Hin|].
  cbn [overlayLines] in H.
  destruct (overlayLine charWidth size page line0) as [od0|] eqn:E0;
    [|discriminate].
  cbn [bind] in H.
  destruct (overlayLines charWidth size page lines) as [ds'|] eqn:E1;
    [|discriminate].
  cbn [bind] in H. injection H as <-.
  destruct Hin as [<-|Hin].
  - exists od0. split; [exact E0|]. intros d ->. left. reflexivity.
  - destruct (IH _ eq_refl line Hin) as [od [Hod Hd]].
    exists od. split; [exact Hod|]. intros d Heq.
    specialize (Hd d Heq). destruct od0; [right|]; exact Hd.
Qed.


End OverlayFacts.



(* --------------------------------------------------------------------- *)
(** ** Page assembly *)
(* --------------------------------------------------------------------- *)

Section SortFacts.
Context {A : Type} (compare : A -> A -> Exc jsnum).

Lemma insertSorted_permutation (x : A) :
  forall sorted out,
    insertSorted compare x sorted = Ret out -> Permutation (x :: sorted) out.
Proof.
  induction sorted as [|y ys IH]; intros out H; cbn [insertSorted] in H.
  - injection H as <-. apply Permutation_refl.
  - destruct (compare x y) as [verdict|]; [|discriminate]. cbn [bind] in H.
    destruct (Num.gtb verdict (Fin 0)).
    + destruct (insertSorted compare x ys) as [ys'|]; [|discriminate].
      cbn [bind] in H. injection H as <-.
      apply perm_trans with (y :: x :: ys); [apply perm_swap|].
      apply perm_skip. apply IH. reflexivity.
    + injection H as <-. apply Permutation_refl.
Qed.

Lemma sortWith_permutation :
  forall l out, sortWith compare l = Ret out -> Permutation l out.
Proof.
  induction l as [|x xs IH]; intros out H; cbn [sortWith] in H.
  - injection H as <-. apply perm_nil.
  - destruct (sortWith compare xs) as [sorted|]; [|discriminate].
    cbn [bind] in H.
    apply perm_trans with (x :: sorted).
    + apply perm_skip. apply IH. reflexivity.
    + apply insertSorted_permutation. exact H.
Qed.
Lemma insertSorted_head (x : A) :
  forall sorted out a,
    insertSorted compare x sorted = Ret out ->
    HdRel (mayFollow compare) a sorted ->
    mayFollow compare a x ->
    HdRel (mayFollow compare) a out.
Proof.
  intros [|y ys] out a H Hhd Hax; cbn [insertSorted] in H.
  - injection H as <-. constructor. exact Hax.
  - destruct (compare x y) as [verdict|]; [|discriminate]. cbn [bind] in H.
    destruct (Num.gtb verdict (Fin 0)).
    + destruct (insertSorted compare x ys) as [ys'|]; [|discriminate].
      cbn [bind] in H. injection H as <-.
      inversion Hhd; subst. constructor. assumption.
    + injection H as <-. constructor. exact Hax.
Qed.

Lemma insertSorted_sorted (x : A) :
  forall sorted out,
    insertSorted compare x sorted = Ret out ->
    Sorted (mayFollow compare) sorted ->
    Sorted (mayFollow compare) out.
Proof.
  induction sorted as [|y ys IH]; intros out H Hsorted; cbn [insertSorted] in H.
  - injection H as <-. repeat constructor.
  - destruct (compare x y) as [verdict|] eqn:Exy; [|discriminate].
    cbn [bind] in H.
    destruct (Num.gtb verdict (Fin 0)) eqn:Egt.
    + destruct (insertSorted compare x ys) as [ys'|] eqn:Eins; [|discriminate].
      cbn [bind] in H. injection H as <-.
      inversion Hsorted as [|? ? Hys Hhd]; subst.
      constructor; [apply IH; [reflexivity | exact Hys]|].
      eapply insertSorted_head; [exact Eins | exact Hhd |].
      left. exists verdict. auto.
    + injection H as <-. constructor; [exact Hsorted|].
      constructor. right. exists verdict. auto.
Qed.

Lemma sortWith_sorted :
  forall l out, sortWith compare l = Ret out -> Sorted (mayFollow compare) out.
Proof.
  induction l as [|x xs IH]; intros out H; cbn [sortWith] in H.
  - injection H as <-. constructor.
  - destruct (sortWith compare xs) as [sorted|]; [|discriminate].
    cbn [bind] in H.
    eapply insertSorted_sorted; [exact H|]. apply IH. reflexivity.
Qed.
End SortFacts.

Lemma classifier_returns (word1 word2 : Word.t) :
  exists spacing, calculateSpacingBetweenWords word1 word2 = Ret spacing.
Proof.
  unfold calculateSpacingBetweenWords.
  destruct (fullBox (Word.boundingBox word1)) as [b1|]; [|eauto].
  destruct (fullBox (Word.boundingBox word2)) as [b2|]; [|eauto].
  destruct (spacingBody b1 b2); cbn; eauto.
Qed.

Lemma joinForced_returns :
  forall allWords, exists forced, joinForced allWords = Ret forced.
Proof.
  induction allWords as [|w rest IH]; [cbn; eauto|].
  cbn [joinForced]. destruct rest as [|next rest']; [eauto|].
  destruct (classifier_returns w next) as [spacing ->]. cbn [bind].
  destruct IH as [tail ->]. cbn [bind]. eauto.
Qed.

(** Decides a fact about the character class of a code unit from the
    classes it is known to be in. *)
Ltac class_arith :=
  unfold CharClass.punctuation, CharClass.sentenceEnd, CharClass.word,
    CharClass.letter, CharClass.lower, CharClass.upper, CharClass.digit,
    CharClass.space, CharClass.blank, CharClass.between, chr_space in *;
  repeat match goal with
    | H : _ = true |- _ =>
        first [ rewrite andb_true_iff in H | rewrite orb_true_iff in H
              | rewrite N.leb_le in H | rewrite N.eqb_eq in H ]
    | H : _ /\ _ |- _ => destruct H
    | H : _ \/ _ |- _ => destruct H
    end;
  repeat match goal with
    | |- _ = false => apply not_true_is_false; intro
    | H : _ = true |- _ =>
        first [ rewrite andb_true_iff in H | rewrite orb_true_iff in H
              | rewrite N.leb_le in H | rewrite N.eqb_eq in H ]
    | H : _ /\ _ |- _ => destruct H
    | H : _ \/ _ |- _ => destruct H
    end;
  lia.

Lemma applyRules_fixed (rules : list matcher) (s : jsstring) :
  Forall (fun m => replaceAll m s = s) rules -> applyRules rules s = s.
Proof.
  unfold applyRules. induction 1 as [|m rules Hm _ IH]; [reflexivity|].
  cbn [fold_left]. rewrite Hm. exact IH.
Qed.




Lemma collectWords_In (lines : list Line.t) (w : Word.t) :
  In w (collectWords lines)
  <-> exists line ws,
      In line lines /\ Line.words line = Some ws /\ In w ws
      /\ hasFullBox w = true.
Proof.
  unfold collectWords. rewrite in_flat_map. split.
  - intros [line [Hline Hw]].
    destruct (Line.words line) as [ws|] eqn:E; [|destruct Hw].
    apply filter_In in Hw. destruct Hw as [Hw Hbox].
    exists line, ws. auto.
  - intros [line [ws [Hline [E [Hw Hbox]]]]].
    exists line. split; [exact Hline|]. rewrite E.
    apply filter_In. auto.
Qed.




(* --------------------------------------------------------------------- *)
(** ** Text normaliser *)
(* --------------------------------------------------------------------- *)

Section ReplaceFacts.
Variable m : matcher.

Lemma replace_from_skipn :
  forall s k, replace_from m k s = replace_from m 0 (skipn k s).
Proof.
  induction s as [|c rest IH]; intros [|k]; try reflexivity.
  cbn [replace_from skipn]. apply IH.
Qed.

Lemma replaceAll_no_match (s : jsstring) :
  hasMatch m s = false -> replaceAll m s = s.
Proof.
  unfold replaceAll. induction s as [|c rest IH]; [reflexivity|].
  cbn [hasMatch replace_from]. intros H.
  apply orb_false_iff in H. destruct H as [Hhere Hrest].
  destruct (m (c :: rest)); [discriminate|].
  rewrite (IH Hrest). reflexivity.
Qed.
End ReplaceFacts.

Lemma applyRules_settled (rules : list matcher) (s : jsstring) :
  forallb (fun m => negb (hasMatch m s)) rules = true ->
  applyRules rules s = s.
Proof.
  intros H. apply applyRules_fixed. apply Forall_forall. intros m Hm.
  rewrite forallb_forall in H. specialize (H m Hm).
  apply negb_true_iff in H. apply replaceAll_no_match. exact H.
Qed.

Section TrimFacts.
Variable p : jschar -> bool.

Lemma dropWhile_idempotent (s : jsstring) :
  dropWhile p (dropWhile p s) = dropWhile p s.
Proof.
  induction s as [|c rest IH]; [reflexivity|].
  cbn [dropWhile]. destruct (p c) eqn:E; [exact IH|].
  cbn [dropWhile]. rewrite E. reflexivity.
Qed.
End TrimFacts.

Lemma dropWhile_head (s : jsstring) :
  headNonSpace (dropWhile CharClass.space s) = true.
Proof.
  induction s as [|c rest IH]; [reflexivity|].
  cbn [dropWhile]. destruct (CharClass.space c) eqn:E; [exact IH|].
  cbn [headNonSpace]. rewrite E. reflexivity.
Qed.

Lemma dropWhile_kept (s : jsstring) :
  headNonSpace s = true -> dropWhile CharClass.space s = s.
Proof.
  destruct s as [|c rest]; [reflexivity|].
  cbn [headNonSpace dropWhile]. intros H.
  apply negb_true_iff in H. rewrite H. reflexivity.
Qed.

(** [trimEnd] keeps the first code unit of what it leaves. *)
Lemma trimEnd_head (s : jsstring) :
  headNonSpace s = true -> headNonSpace (trimEnd s) = true.
Proof.
  destruct s as [|c rest]; [reflexivity|].
  cbn [headNonSpace trimEnd]. intros H.
  destruct (trimEnd rest) as [|d kept].
  - apply negb_true_iff in H. rewrite H. cbn. rewrite H. reflexivity.
  - cbn. exact H.
Qed.

Lemma trimEnd_cons (c : jschar) (s : jsstring) :
  trimEnd (c :: s)
  = match trimEnd s with
    | [] => if CharClass.space c then [] else [c]
    | kept => c :: kept
    end.
Proof. reflexivity. Qed.

Lemma trimEnd_idempotent (s : jsstring) : trimEnd (trimEnd s) = trimEnd s.
Proof.
  induction s as [|c rest IH]; [reflexivity|].
  rewrite trimEnd_cons. destruct (trimEnd rest) as [|d kept] eqn:E.
  - destruct (CharClass.space c) eqn:Ec; [reflexivity|].
    cbn [trimEnd]. rewrite Ec. reflexivity.
  - rewrite trimEnd_cons, IH. reflexivity.
Qed.

Lemma trim_idempotent (s : jsstring) : trim (trim s) = trim s.
Proof.
  unfold trim.
  rewrite (dropWhile_kept (trimEnd (dropWhile CharClass.space s))).
  - apply trimEnd_idempotent.
  - apply trimEnd_head. apply dropWhile_head.
Qed.

Lemma space_of_space : CharClass.space chr_space = true.
Proof. reflexivity. Qed.

Lemma blank_is_space (c : jschar) :
  CharClass.blank c = true -> CharClass.space c = true.
Proof.
  unfold CharClass.blank. rewrite orb_true_iff, !N.eqb_eq.
  intros [->| ->]; reflexivity.
Qed.

(** What the collapse of white space leaves after a run starts with a code
    unit that is not white space. *)
Lemma collapse_head (s : jsstring) :
  headNonSpace (replace_from Re.spaces (runLength CharClass.space s) s) = true.
Proof.
  induction s as [|c rest IH]; [reflexivity|].
  cbn [runLength]. destruct (CharClass.space c) eqn:E.
  - cbn [replace_from]. exact IH.
  - cbn [replace_from Re.spaces]. rewrite E. cbn [headNonSpace].
    rewrite E. reflexivity.
Qed.

Lemma collapse_collapsed :
  forall s k, collapsed (replace_from Re.spaces k s) = true.
Proof.
  induction s as [|c rest IH]; intros k; [reflexivity|].
  destruct k as [|k]; cbn [replace_from]; [|apply IH].
  cbn [Re.spaces]. destruct (CharClass.space c) eqn:E.
  - cbn [app collapsed]. rewrite space_of_space, N.eqb_refl, collapse_head, IH.
    reflexivity.
  - cbn [collapsed]. rewrite E, IH. reflexivity.
Qed.

Lemma collapsed_cons (c : jschar) (s : jsstring) :
  collapsed (c :: s)
  = (if CharClass.space c then N.eqb c chr_space && headNonSpace s else true)
    && collapsed s.
Proof. reflexivity. Qed.

Lemma collapsed_tail (c : jschar) (s : jsstring) :
  collapsed (c :: s) = true -> collapsed s = true.
Proof. cbn [collapsed]. intros H. apply andb_true_iff in H. apply H. Qed.

Lemma collapsed_dropWhile (p : jschar -> bool) (s : jsstring) :
  collapsed s = true -> collapsed (dropWhile p s) = true.
Proof.
  induction s as [|c rest IH]; [reflexivity|]. intros H.
  cbn [dropWhile]. destruct (p c); [|exact H].
  apply IH. exact (collapsed_tail _ _ H).
Qed.

Lemma collapsed_trimEnd (s : jsstring) :
  collapsed s = true -> collapsed (trimEnd s) = true.
Proof.
  induction s as [|c rest IH]; [reflexivity|]. intros H.
  pose proof (collapsed_tail _ _ H) as Hrest.
  rewrite trimEnd_cons. destruct (trimEnd rest) as [|d kept] eqn:E.
  - destruct (CharClass.space c) eqn:Ec; [reflexivity|].
    cbn [collapsed]. rewrite Ec. reflexivity.
  - rewrite collapsed_cons in H |- *.
    apply andb_true_iff in H. destruct H as [Hc _].
    rewrite (IH Hrest), andb_true_r.
    destruct (CharClass.space c); [|reflexivity].
    apply andb_true_iff in Hc. destruct Hc as [Hc Hhead].
    rewrite Hc. cbn [andb]. rewrite <- E. apply trimEnd_head. exact Hhead.
Qed.

(** A collapsed string has no line feed. *)
Lemma collapsed_no_newline (s : jsstring) :
  collapsed s = true -> Forall (fun c => N.eqb chr_nl c = false) s.
Proof.
  induction s as [|c rest IH]; intros H; constructor.
  - cbn [collapsed] in H. apply andb_true_iff in H. destruct H as [Hc _].
    destruct (N.eqb chr_nl c) eqn:E; [|reflexivity].
    apply N.eqb_eq in E. subst c. cbn in Hc. discriminate.
  - apply IH. exact (collapsed_tail _ _ H).
Qed.

Section Collapsed.
Variable s : jsstring.
Hypothesis tidy : collapsed s = true.

Lemma collapsed_spaces_fixed : replaceAll Re.spaces s = s.
Proof.
  unfold replaceAll. revert tidy.
  induction s as [|c rest IH]; [reflexivity|]. intros H.
  pose proof (collapsed_tail _ _ H) as Hrest.
  cbn [replace_from Re.spaces]. cbn [collapsed] in H.
  destruct (CharClass.space c) eqn:E.
  - apply andb_true_iff in H. destruct H as [Hc _].
    apply andb_true_iff in Hc. destruct Hc as [Hc Hhead].
    apply N.eqb_eq in Hc. subst c.
    assert (Hrun : runLength CharClass.space rest = 0).
    { destruct rest as [|d rest']; [reflexivity|].
      cbn [headNonSpace] in Hhead. apply negb_true_iff in Hhead.
      cbn [runLength]. rewrite Hhead. reflexivity. }
    rewrite Hrun, (IH Hrest). reflexivity.
  - rewrite (IH Hrest). reflexivity.
Qed.

Lemma collapsed_blanks_fixed : replaceAll Re.blanks s = s.
Proof.
  unfold replaceAll. revert tidy.
  induction s as [|c rest IH]; [reflexivity|]. intros H.
  pose proof (collapsed_tail _ _ H) as Hrest.
  cbn [replace_from Re.blanks]. cbn [collapsed] in H.
  destruct (CharClass.blank c) eqn:E.
  - rewrite (blank_is_space _ E) in H.
    apply andb_true_iff in H. destruct H as [Hc _].
    apply andb_true_iff in Hc. destruct Hc as [Hc Hhead].
    apply N.eqb_eq in Hc. subst c.
    assert (Hrun : runLength CharClass.blank rest = 0).
    { destruct rest as [|d rest']; [reflexivity|].
      cbn [headNonSpace] in Hhead. apply negb_true_iff in Hhead.
      cbn [runLength]. destruct (CharClass.blank d) eqn:Ed; [|reflexivity].
      apply blank_is_space in Ed. congruence. }
    rewrite Hrun, (IH Hrest). reflexivity.
  - rewrite (IH Hrest). reflexivity.
Qed.
End Collapsed.

Lemma skipn_keeps_no_newline (s : jsstring) (n : nat) :
  Forall (fun c => N.eqb chr_nl c = false) s ->
  Forall (fun c => N.eqb chr_nl c = false) (skipn n s).
Proof.
  intros H. revert n. induction H as [|c rest Hc Hrest IH]; intros [|n];
    cbn [skipn]; try constructor; auto.
Qed.

Lemma newlines4_none (s : jsstring) :
  Forall (fun c => N.eqb chr_nl c = false) s ->
  hasMatch Re.newlines4 s = false.
Proof.
  induction 1 as [|c rest Hc Hrest IH]; [reflexivity|].
  cbn [hasMatch]. rewrite IH, orb_false_r.
  unfold Re.newlines4. cbn [runLength]. rewrite Hc. reflexivity.
Qed.

Lemma leadingSpaces_none (s : jsstring) :
  Forall (fun c => N.eqb chr_nl c = false) s ->
  hasMatch Re.leadingSpaces s = false.
Proof.
  induction 1 as [|c rest Hc Hrest IH]; [reflexivity|].
  cbn [hasMatch]. rewrite IH, orb_false_r.
  unfold Re.leadingSpaces. rewrite Hc. reflexivity.
Qed.

Lemma trailingSpaces_none (s : jsstring) :
  Forall (fun c => N.eqb chr_nl c = false) s ->
  hasMatch Re.trailingSpaces s = false.
Proof.
  induction 1 as [|c rest Hc Hrest IH]; [reflexivity|].
  cbn [hasMatch]. rewrite IH, orb_false_r.
  unfold Re.trailingSpaces.
  destruct (runLength (N.eqb chr_space) (c :: rest)) as [|n]; [reflexivity|].
  pose proof (skipn_keeps_no_newline (S n) (Forall_cons c Hc Hrest)) as Hskip.
  cbn [skipn] in Hskip |- *. unfold jschar in *.
  destruct (skipn n rest) as [|d tail]; [reflexivity|].
  inversion Hskip as [|? ? Hd _]; subst. rewrite Hd. reflexivity.
Qed.

(** The normaliser leaves a collapsed, trimmed string in which no insertion
    rule finds a site as it is. *)
Lemma cleanAndFormatText_fixed (y : jsstring) :
  collapsed y = true ->
  trim y = y ->
  settled y = true ->
  cleanAndFormatText y = y.
Proof.
  intros Htidy Htrim Hsettled.
  destruct y as [|c rest]; [reflexivity|].
  unfold cleanAndFormatText.
  pose proof (collapsed_no_newline _ Htidy) as Hnl.
  rewrite (collapsed_blanks_fixed _ Htidy).
  rewrite (replaceAll_no_match _ _ (newlines4_none Hnl)).
  rewrite (replaceAll_no_match _ _ (trailingSpaces_none Hnl)).
  rewrite (replaceAll_no_match _ _ (leadingSpaces_none Hnl)).
  rewrite (applyRules_settled _ _ Hsettled).
  rewrite (collapsed_spaces_fixed _ Htidy).
  exact Htrim.
Qed.

(** What the normaliser returns is collapsed and trimmed. *)
Lemma cleanAndFormatText_tidy (x : jsstring) :
  collapsed (cleanAndFormatText x) = true
  /\ trim (cleanAndFormatText x) = cleanAndFormatText x.
Proof.
  destruct x as [|c rest]; [split; reflexivity|].
  unfold cleanAndFormatText. split.
  - unfold trim. apply collapsed_trimEnd. apply collapsed_dropWhile.
    apply collapse_collapsed.
  - apply trim_idempotent.
Qed.

Lemma adjacency_suffix (X R : jsstring) : adjacency R <= adjacency (X ++ R).
Proof. induction X as [|x X IH]; cbn [app adjacency]; lia. Qed.

Lemma startsSolid_app (X R R' : jsstring) :
  startsSolid R = startsSolid R' -> startsSolid (X ++ R) = startsSolid (X ++ R').
Proof. destruct X; [trivial | reflexivity]. Qed.

Lemma headLink_same (a : jschar) (R R' : jsstring) :
  startsSolid R = startsSolid R' -> headLink a R = headLink a R'.
Proof. unfold headLink. intros ->. reflexivity. Qed.

Lemma headLink_le (a : jschar) (R R' : jsstring) :
  (startsSolid R = true -> startsSolid R' = true) -> headLink a R <= headLink a R'.
Proof.
  unfold headLink. intros H. destruct (negb (CharClass.space a)); cbn; [|lia].
  destruct (startsSolid R); [rewrite H by reflexivity; lia|].
  destruct (startsSolid R'); lia.
Qed.

(** Replacing the end of a string by one with the same kind of start and no
    more adjacencies does not add adjacencies. *)
Lemma adjacency_app_le (X R R' : jsstring) :
  startsSolid R = startsSolid R' ->
  adjacency R <= adjacency R' ->
  adjacency (X ++ R) <= adjacency (X ++ R').
Proof.
  intros Hs Ha. induction X as [|x X IH]; [exact Ha|].
  cbn [app adjacency].
  rewrite (@headLink_same x _ _ (@startsSolid_app X _ _ Hs)). lia.
Qed.

(** A space put into a string adds no adjacency. *)
Lemma adjacency_space_inserted (X Y : jsstring) :
  adjacency (X ++ chr_space :: Y) <= adjacency (X ++ Y).
Proof.
  induction X as [|x X IH]; cbn [app adjacency].
  - unfold headLink. cbn. lia.
  - assert (headLink x (X ++ chr_space :: Y) <= headLink x (X ++ Y)).
    { apply headLink_le. destruct X; [discriminate | trivial]. }
    lia.
Qed.

Section Thinning.
Variable m : matcher.
Hypothesis thin : thinning m.

Lemma replace_from_thins :
  forall s k,
    startsSolid (replace_from m k s) = startsSolid (skipn k s)
    /\ adjacency (replace_from m k s) <= adjacency (skipn k s).
Proof.
  induction s as [|c rest IH]; intros k.
  - destruct k; split; reflexivity.
  - destruct k as [|k]; [|exact (IH k)].
    cbn [replace_from skipn].
    destruct (m (c :: rest)) as [[out k']|] eqn:E.
    + destruct (thin E) as [Hout [Hstart Hadj]].
      destruct (IH k') as [IHs IHa].
      specialize (Hstart (skipn k' rest)). specialize (Hadj (skipn k' rest)).
      change (firstn (S k') (c :: rest) ++ skipn k' rest)
        with (firstn (S k') (c :: rest) ++ skipn (S k') (c :: rest)) in Hadj.
      rewrite firstn_skipn in Hadj.
      split.
      * rewrite <- Hstart. destruct out; [congruence | reflexivity].
      * pose proof (@adjacency_app_le out _ _ IHs IHa). lia.
    + destruct (IH 0) as [IHs IHa]. cbn [skipn] in IHs, IHa.
      split; [reflexivity|].
      cbn [adjacency]. rewrite (@headLink_same c _ _ IHs). lia.
Qed.

Lemma replaceAll_thins (s : jsstring) :
  startsSolid (replaceAll m s) = startsSolid s
  /\ adjacency (replaceAll m s) <= adjacency s.
Proof. exact (replace_from_thins s 0). Qed.
End Thinning.

Lemma separating_thinning (m : matcher) : separating m -> thinning m.
Proof.
  intros H s out k E. destruct (H s out k E) as [Hout [Hstart Hadj]].
  split; [exact Hout|]. split; [exact Hstart|].
  intros R. specialize (Hadj R). lia.
Qed.

(** A rule that finds a site removes an adjacency. *)
Lemma replaceAll_separates (m : matcher) :
  separating m ->
  forall s, hasMatch m s = true -> adjacency (replaceAll m s) < adjacency s.
Proof.
  intros Hsep. pose proof (separating_thinning Hsep) as Hthin.
  unfold replaceAll.
  induction s as [|c rest IH]; [discriminate|].
  cbn [hasMatch replace_from]. intros Hmatch.
  destruct (m (c :: rest)) as [[out k']|] eqn:E.
  - destruct (Hsep _ _ _ E) as [Hout [Hstart Hadj]].
    destruct (replace_from_thins Hthin rest k') as [IHs IHa].
    specialize (Hadj (skipn k' rest)).
    change (firstn (S k') (c :: rest) ++ skipn k' rest)
      with (firstn (S k') (c :: rest) ++ skipn (S k') (c :: rest)) in Hadj.
    rewrite firstn_skipn in Hadj.
    pose proof (@adjacency_app_le out _ _ IHs IHa). lia.
  - cbn [orb] in Hmatch. specialize (IH Hmatch).
    destruct (replace_from_thins Hthin rest 0) as [IHs _]. cbn [skipn] in IHs.
    cbn [adjacency]. rewrite (@headLink_same c _ _ IHs). lia.
Qed.

Lemma spaces_thinning : thinning Re.spaces.
Proof.
  intros s out k E. unfold Re.spaces in E.
  destruct s as [|c rest]; [discriminate|].
  destruct (CharClass.space c) eqn:Ec; [|discriminate].
  injection E as <- <-.
  split; [discriminate|]. split.
  - intros R. cbn. rewrite Ec. reflexivity.
  - intros R.
    pose proof (adjacency_suffix
                  (firstn (S (runLength CharClass.space rest)) (c :: rest)) R).
    cbn [app adjacency]. unfold headLink at 1. cbn. exact H.
Qed.

Lemma adjacency_dropWhile (p : jschar -> bool) (s : jsstring) :
  adjacency (dropWhile p s) <= adjacency s.
Proof.
  induction s as [|c rest IH]; [reflexivity|].
  cbn [dropWhile]. destruct (p c); [|reflexivity].
  cbn [adjacency]. lia.
Qed.

Lemma trimEnd_startsSolid (s : jsstring) :
  startsSolid (trimEnd s) = true -> startsSolid s = true.
Proof.
  destruct s as [|c rest]; [trivial|].
  rewrite trimEnd_cons. destruct (trimEnd rest).
  - destruct (CharClass.space c) eqn:Ec; cbn; [discriminate|].
    rewrite Ec. trivial.
  - trivial.
Qed.

Lemma adjacency_trimEnd (s : jsstring) : adjacency (trimEnd s) <= adjacency s.
Proof.
  induction s as [|c rest IH]; [reflexivity|].
  rewrite trimEnd_cons. destruct (trimEnd rest) as [|d kept] eqn:E.
  - destruct (CharClass.space c); cbn [adjacency]; unfold headLink;
      cbn; rewrite ?andb_false_r; lia.
  - cbn [adjacency] in IH |- *.
    assert (headLink c (d :: kept) <= headLink c rest).
    { apply headLink_le. rewrite <- E. apply trimEnd_startsSolid. }
    lia.
Qed.

Lemma adjacency_trim (s : jsstring) : adjacency (trim s) <= adjacency s.
Proof.
  unfold trim.
  pose proof (adjacency_trimEnd (dropWhile CharClass.space s)).
  pose proof (adjacency_dropWhile CharClass.space s). lia.
Qed.

Lemma solid_lower : solidClass CharClass.lower.
Proof. intros c H. class_arith. Qed.
Lemma solid_upper : solidClass CharClass.upper.
Proof. intros c H. class_arith. Qed.
Lemma solid_digit : solidClass CharClass.digit.
Proof. intros c H. class_arith. Qed.
Lemma solid_letter : solidClass CharClass.letter.
Proof. intros c H. class_arith. Qed.
Lemma solid_word : solidClass CharClass.word.
Proof. intros c H. class_arith. Qed.
Lemma solid_sentenceEnd : solidClass CharClass.sentenceEnd.
Proof. intros c H. class_arith. Qed.

Lemma headLink_solid (a b : jschar) (R : jsstring) :
  CharClass.space a = false -> CharClass.space b = false ->
  headLink a (b :: R) = 1.
Proof. unfold headLink. cbn. intros -> ->. reflexivity. Qed.

Lemma headLink_space_left (R : jsstring) : headLink chr_space R = 0.
Proof. reflexivity. Qed.

Lemma headLink_space_right (a : jschar) (R : jsstring) :
  headLink a (chr_space :: R) = 0.
Proof. unfold headLink. cbn. rewrite andb_false_r. reflexivity. Qed.

Lemma boundary_separating (p1 p2 : jschar -> bool) :
  solidClass p1 -> solidClass p2 -> separating (Re.boundary p1 p2).
Proof.
  intros S1 S2 s out k E. unfold Re.boundary in E.
  destruct s as [|a [|b rest]]; try discriminate.
  destruct (p1 a && p2 b) eqn:Ep; [|discriminate].
  apply andb_true_iff in Ep. destruct Ep as [Ha Hb].
  apply S1 in Ha. apply S2 in Hb.
  injection E as <- <-.
  split; [discriminate|]. split; [reflexivity|].
  intros R. cbn [firstn app adjacency].
  rewrite headLink_space_right, headLink_space_left.
  rewrite headLink_solid by assumption. lia.
Qed.

Lemma camel_separating : separating Re.camel.
Proof.
  intros s out k E. unfold Re.camel in E.
  destruct s as [|a [|b [|c rest]]]; try discriminate.
  destruct (CharClass.lower a && CharClass.upper b && CharClass.lower c) eqn:Ep;
    [|discriminate].
  apply andb_true_iff in Ep. destruct Ep as [Ep _].
  apply andb_true_iff in Ep. destruct Ep as [Ha Hb].
  apply solid_lower in Ha. apply solid_upper in Hb.
  injection E as <- <-.
  split; [discriminate|]. split; [reflexivity|].
  intros R. cbn [firstn app adjacency].
  rewrite headLink_space_right, headLink_space_left.
  rewrite (@headLink_solid a b (c :: R)) by assumption. lia.
Qed.

(** What [prefix_ci] returns is a split of its input, and a code unit that
    matches a lowercase letter of the pattern is a letter. *)
Lemma prefix_ci_split :
  forall w s got rest,
    Re.prefix_ci w s = Some (got, rest) ->
    s = got ++ rest /\ List.length got = List.length w.
Proof.
  induction w as [|p w IH]; intros s got rest H; cbn [Re.prefix_ci] in H.
  - injection H as <- <-. split; reflexivity.
  - destruct s as [|c s']; [discriminate|].
    destruct (N.eqb (CharClass.canonicalize p) (CharClass.canonicalize c));
      [|discriminate].
    destruct (Re.prefix_ci w s') as [[got' rest']|] eqn:E; [|discriminate].
    injection H as <- <-. destruct (IH _ _ _ E) as [-> Hlen].
    split; [reflexivity | cbn; lia].
Qed.

Lemma canonical_match_is_solid (p c : jschar) :
  CharClass.lower p = true ->
  N.eqb (CharClass.canonicalize p) (CharClass.canonicalize c) = true ->
  CharClass.space c = false.
Proof.
  unfold CharClass.canonicalize. intros Hp H. rewrite Hp in H.
  destruct (CharClass.lower c) eqn:Hc; [apply solid_lower; exact Hc|].
  class_arith.
Qed.

Lemma prefix_ci_startsSolid (w s got rest : jsstring) :
  Forall (fun p => CharClass.lower p = true) w ->
  Re.prefix_ci w s = Some (got, rest) ->
  got <> [] -> startsSolid got = true.
Proof.
  intros Hw H Hgot. destruct w as [|p w]; cbn [Re.prefix_ci] in H.
  - injection H as <- <-. congruence.
  - destruct s as [|c s']; [discriminate|].
    destruct (N.eqb (CharClass.canonicalize p) (CharClass.canonicalize c)) eqn:Ec;
      [|discriminate].
    destruct (Re.prefix_ci w s') as [[got' rest']|]; [|discriminate].
    injection H as <- <-. cbn.
    inversion Hw; subst.
    erewrite canonical_match_is_solid by eassumption. reflexivity.
Qed.

Lemma embedded_separating (flank : jschar -> bool) (w : jsstring) :
  solidClass flank ->
  Forall (fun p => CharClass.lower p = true) w ->
  separating (Re.embedded flank w).
Proof.
  intros Hflank Hw s out k E. unfold Re.embedded in E.
  destruct s as [|a rest]; [discriminate|].
  destruct (flank a) eqn:Fa; [|discriminate].
  destruct (Re.prefix_ci w rest) as [[got [|b rest']]|] eqn:Ep; try discriminate.
  destruct (flank b) eqn:Fb; [|discriminate].
  injection E as <- <-.
  destruct (prefix_ci_split _ _ Ep) as [-> Hlen].
  apply Hflank in Fa. apply Hflank in Fb.
  split; [discriminate|]. split; [reflexivity|].
  intros R.
  assert (Hfirst : firstn (S (S (List.length w))) (a :: got ++ b :: rest')
                   = a :: got ++ [b]).
  { rewrite firstn_cons. f_equal. rewrite <- Hlen.
    replace (S (List.length got)) with (List.length got + 1) by lia.
    rewrite firstn_app_2. reflexivity. }
  rewrite Hfirst.
  change ((a :: chr_space :: got ++ [chr_space; b]) ++ R)
    with (a :: chr_space :: (got ++ [chr_space; b]) ++ R).
  change ((a :: got ++ [b]) ++ R) with (a :: (got ++ [b]) ++ R).
  rewrite <- !app_assoc. cbn [app adjacency].
  rewrite headLink_space_right, headLink_space_left.
  pose proof (adjacency_space_inserted got (b :: R)) as Hins.
  assert (Hlink : headLink a (got ++ b :: R) = 1).
  { unfold headLink. rewrite Fa. cbn [negb andb].
    destruct got as [|g got'] eqn:Eg.
    - cbn. rewrite Fb. reflexivity.
    - assert (Hs : startsSolid (g :: got') = true).
      { eapply prefix_ci_startsSolid; [exact Hw | exact Ep | discriminate]. }
      cbn in Hs |- *. rewrite Hs. reflexivity. }
  lia.
Qed.

Lemma clean_rules_separating : Forall separating cleanInsertionRules.
Proof.
  unfold cleanInsertionRules. apply Forall_app. split.
  - apply Forall_cons;
      [apply boundary_separating; [apply solid_lower | apply solid_upper]|].
    apply Forall_cons;
      [apply boundary_separating; [apply solid_letter | apply solid_digit]|].
    apply Forall_cons;
      [apply boundary_separating; [apply solid_digit | apply solid_letter]|].
    apply Forall_cons;
      [apply boundary_separating; [apply solid_sentenceEnd | apply solid_upper]|].
    apply Forall_cons; [apply camel_separating | apply Forall_nil].
  - apply Forall_map. apply Forall_forall. intros w Hin.
    apply embedded_separating; [apply solid_word|].
    revert w Hin. apply Forall_forall.
    unfold commonWords. apply Forall_map.
    repeat constructor.
Qed.

(** The rules only ever remove adjacencies, and a rule that finds a site
    removes one. *)
Lemma applyRules_thins (rules : list matcher) :
  Forall separating rules ->
  forall s, adjacency (applyRules rules s) <= adjacency s.
Proof.
  unfold applyRules. induction 1 as [|m rules Hm _ IH]; intros s; [reflexivity|].
  cbn [fold_left].
  pose proof (replaceAll_thins (separating_thinning Hm) s) as [_ Hle].
  specialize (IH (replaceAll m s)). lia.
Qed.

Lemma applyRules_separates (rules : list matcher) :
  Forall separating rules ->
  forall s,
    forallb (fun m => negb (hasMatch m s)) rules = false ->
    adjacency (applyRules rules s) < adjacency s.
Proof.
  induction 1 as [|m rules Hm Hrules IH]; intros s Hsome; [discriminate|].
  cbn [forallb] in Hsome. unfold applyRules. cbn [fold_left].
  destruct (hasMatch m s) eqn:Em.
  - pose proof (replaceAll_separates Hm s Em).
    pose proof (applyRules_thins Hrules (replaceAll m s)) as Hle.
    unfold applyRules in Hle. lia.
  - cbn [negb andb] in Hsome.
    rewrite (replaceAll_no_match _ _ Em). apply IH. exact Hsome.
Qed.

(** On a collapsed string in which some insertion rule finds a site, the
    normaliser removes an adjacency, so it changes the string. *)
Lemma cleanAndFormatText_moves (y : jsstring) :
  collapsed y = true ->
  settled y = false ->
  adjacency (cleanAndFormatText y) < adjacency y.
Proof.
  intros Htidy Hsettled.
  destruct y as [|c rest]; [discriminate|].
  unfold cleanAndFormatText.
  pose proof (collapsed_no_newline _ Htidy) as Hnl.
  rewrite (collapsed_blanks_fixed _ Htidy).
  rewrite (replaceAll_no_match _ _ (newlines4_none Hnl)).
  rewrite (replaceAll_no_match _ _ (trailingSpaces_none Hnl)).
  rewrite (replaceAll_no_match _ _ (leadingSpaces_none Hnl)).
  pose proof (applyRules_separates clean_rules_separating _ Hsettled) as Hrules.
  pose proof (replaceAll_thins spaces_thinning
                (applyRules cleanInsertionRules (c :: rest))) as [_ Hcollapse].
  pose proof (adjacency_trim
                (replaceAll Re.spaces
                   (applyRules cleanInsertionRules (c :: rest)))) as Htrim.
  lia.
Qed.

(** C2 (as the code has it). What the normaliser returns is collapsed (every
    white-space code unit is a single space between two other code units)
    and trimmed; and applying the normaliser a second time changes nothing
    exactly when its first result holds no site of an insertion rule (a
    lowercase-uppercase, letter-digit, digit-letter or sentence-end
    transition, or a dictionary word between two word characters). *)
Theorem cleanAndFormatText_idempotent_iff_settled (x : jsstring) :
  collapsed (cleanAndFormatText x) = true
  /\ trim (cleanAndFormatText x) = cleanAndFormatText x
  /\ (settled (cleanAndFormatText x) = true ->
      cleanAndFormatText (cleanAndFormatText x) = cleanAndFormatText x)
  /\ (cleanAndFormatText (cleanAndFormatText x) = cleanAndFormatText x ->
      settled (cleanAndFormatText x) = true).
Proof.
  destruct (cleanAndFormatText_tidy x) as [Htidy Htrim].
  split; [exact Htidy|]. split; [exact Htrim|]. split.
  - intros Hsettled. apply cleanAndFormatText_fixed; assumption.
  - intros Hfixed.
    destruct (settled (cleanAndFormatText x)) eqn:Hsettled; [reflexivity|].
    pose proof (cleanAndFormatText_moves _ Htidy Hsettled) as Hmoves.
    rewrite Hfixed in Hmoves. lia.
Qed.

Lemma cleanAndFormatText_idempotent_iff_settled_witness :
  cleanAndFormatText (js "  helloWorld  v2.Next ") = js "hello World v 2. Next"
  /\ cleanAndFormatText (cleanAndFormatText (js "  helloWorld  v2.Next "))
     = cleanAndFormatText (js "  helloWorld  v2.Next ").
Proof.
  split; [vm_compute; reflexivity|].
  apply (proj1 (proj2 (proj2 (cleanAndFormatText_idempotent_iff_settled
                                (js "  helloWorld  v2.Next "))))).
  vm_compute. reflexivity.
Defined.

(** C2, refuted as stated: in "xinainb" the two occurrences of "in" share
    the letter between them, one pass splits only the first, and the second
    pass splits the other. *)
Lemma cleanAndFormatText_not_idempotent :
  cleanAndFormatText (js "xinainb") = js "x in ainb"
  /\ cleanAndFormatText (cleanAndFormatText (js "xinainb")) = js "x in a in b"
  /\ cleanAndFormatText (cleanAndFormatText (js "xinainb"))
     <> cleanAndFormatText (js "xinainb").
Proof.
  split; [vm_compute; reflexivity|].
  split; [vm_compute; reflexivity|].
  vm_compute. discriminate.
Qed.

(* --------------------------------------------------------------------- *)
(** ** What the passes keep: the text apart from white space *)
(* --------------------------------------------------------------------- *)

Lemma solidText_app (a b : jsstring) :
  solidText (a ++ b) = solidText a ++ solidText b.
Proof. apply filter_app. Qed.

Lemma solidText_space (c : jschar) (s : jsstring) :
  CharClass.space c = true -> solidText (c :: s) = solidText s.
Proof. intros H. unfold solidText. cbn [filter]. rewrite H. reflexivity. Qed.

Lemma solidText_solid (c : jschar) (s : jsstring) :
  CharClass.space c = false -> solidText (c :: s) = c :: solidText s.
Proof. intros H. unfold solidText. cbn [filter]. rewrite H. reflexivity. Qed.

(** A run of white space holds nothing else. *)
Lemma solidText_run (p : jschar -> bool) (s : jsstring) :
  (forall c, p c = true -> CharClass.space c = true) ->
  solidText (firstn (runLength p s) s) = [].
Proof.
  intros Hp. induction s as [|c rest IH]; [reflexivity|].
  cbn [runLength]. destruct (p c) eqn:E; [|reflexivity].
  rewrite firstn_cons, solidText_space by auto. exact IH.
Qed.

Lemma firstn_S_skipn (s : jsstring) (n : nat) (c : jschar) (tl : jsstring) :
  skipn n s = c :: tl -> firstn (S n) s = firstn n s ++ [c].
Proof.
  revert s. induction n as [|n IH]; intros s H.
  - cbn in H. subst s. reflexivity.
  - destruct s as [|a s']; [discriminate|].
    cbn [skipn] in H. rewrite firstn_cons, (IH _ H). reflexivity.
Qed.

Section SolidReplace.
Variable m : matcher.
Hypothesis keeps : solidPreserving m.

Lemma replace_from_solid :
  forall s k, solidText (replace_from m k s) = solidText (skipn k s).
Proof.
  induction s as [|c rest IH]; intros k.
  - destruct k; reflexivity.
  - cbn [replace_from]. destruct k as [|k]; [|apply IH].
    cbn [skipn]. destruct (m (c :: rest)) as [[out k']|] eqn:E.
    + rewrite solidText_app, IH, (keeps E), <- solidText_app.
      change (skipn k' rest) with (skipn (S k') (c :: rest)).
      rewrite firstn_skipn. reflexivity.
    + specialize (IH 0). cbn [skipn] in IH.
      unfold solidText in *. cbn [filter]. rewrite IH. reflexivity.
Qed.

Lemma replaceAll_solid (s : jsstring) :
  solidText (replaceAll m s) = solidText s.
Proof. apply (replace_from_solid s 0). Qed.
End SolidReplace.

Lemma applyRules_solid (rules : list matcher) :
  Forall solidPreserving rules ->
  forall s, solidText (applyRules rules s) = solidText s.
Proof.
  unfold applyRules. induction 1 as [|m rules Hm _ IH]; intros s; [reflexivity|].
  cbn [fold_left]. rewrite IH. apply replaceAll_solid. exact Hm.
Qed.

Lemma eqb_space_is_space (c : jschar) :
  N.eqb chr_space c = true -> CharClass.space c = true.
Proof. intros H. apply N.eqb_eq in H. subst c. reflexivity. Qed.

Lemma eqb_nl_is_space (c : jschar) :
  N.eqb chr_nl c = true -> CharClass.space c = true.
Proof. intros H. apply N.eqb_eq in H. subst c. reflexivity. Qed.

Lemma blanks_solid : solidPreserving Re.blanks.
Proof.
  intros s out k H. unfold Re.blanks in H.
  destruct s as [|c rest]; [discriminate|].
  destruct (CharClass.blank c) eqn:E; [|discriminate].
  injection H as <- <-.
  rewrite firstn_cons, (solidText_space _ _ (blank_is_space _ E)).
  rewrite solidText_run by apply blank_is_space. reflexivity.
Qed.

Lemma spaces_solid : solidPreserving Re.spaces.
Proof.
  intros s out k H. unfold Re.spaces in H.
  destruct s as [|c rest]; [discriminate|].
  destruct (CharClass.space c) eqn:E; [|discriminate].
  injection H as <- <-.
  rewrite firstn_cons, (solidText_space _ _ E).
  rewrite solidText_run by auto. reflexivity.
Qed.

Lemma newlines4_solid : solidPreserving Re.newlines4.
Proof.
  intros s out k H. unfold Re.newlines4 in H.
  destruct (4 <=? runLength (N.eqb chr_nl) s) eqn:E; [|discriminate].
  injection H as <- <-. apply Nat.leb_le in E.
  replace (S (runLength (N.eqb chr_nl) s - 1)) with (runLength (N.eqb chr_nl) s) by lia.
  rewrite solidText_run by apply eqb_nl_is_space. reflexivity.
Qed.

Lemma trailingSpaces_solid : solidPreserving Re.trailingSpaces.
Proof.
  intros s out k H. unfold Re.trailingSpaces in H.
  destruct (runLength (N.eqb chr_space) s) as [|n] eqn:En; [discriminate|].
  destruct (skipn (S n) s) as [|c tl] eqn:Es; [discriminate|].
  destruct (N.eqb chr_nl c) eqn:Ec; [|discriminate].
  injection H as <- <-.
  rewrite (firstn_S_skipn _ _ Es), solidText_app, <- En.
  rewrite solidText_run by apply eqb_space_is_space.
  rewrite (solidText_space _ _ (eqb_nl_is_space _ Ec)). reflexivity.
Qed.

Lemma leadingSpaces_solid : solidPreserving Re.leadingSpaces.
Proof.
  intros s out k H. unfold Re.leadingSpaces in H.
  destruct s as [|c rest]; [discriminate|].
  destruct (N.eqb chr_nl c) eqn:Ec; [|discriminate].
  destruct (runLength (N.eqb chr_space) rest) as [|n] eqn:En; [discriminate|].
  injection H as <- <-.
  rewrite firstn_cons, (solidText_space _ _ (eqb_nl_is_space _ Ec)), <- En.
  rewrite solidText_run by apply eqb_space_is_space. reflexivity.
Qed.

Lemma boundary_solid (p1 p2 : jschar -> bool) : solidPreserving (Re.boundary p1 p2).
Proof.
  intros s out k H. unfold Re.boundary in H.
  destruct s as [|a [|b tl]]; try discriminate.
  destruct (p1 a && p2 b); [|discriminate].
  injection H as <- <-. cbn [firstn]. unfold solidText. cbn [filter].
  destruct (CharClass.space a), (CharClass.space b); reflexivity.
Qed.

Lemma camel_solid : solidPreserving Re.camel.
Proof.
  intros s out k H. unfold Re.camel in H.
  destruct s as [|a [|b [|c tl]]]; try discriminate.
  destruct (CharClass.lower a && CharClass.upper b && CharClass.lower c);
    [|discriminate].
  injection H as <- <-. cbn [firstn]. unfold solidText. cbn [filter].
  destruct (CharClass.space a), (CharClass.space b), (CharClass.space c);
    reflexivity.
Qed.

Lemma embedded_solid (flank : jschar -> bool) (w : jsstring) :
  solidPreserving (Re.embedded flank w).
Proof.
  intros s out k H. unfold Re.embedded in H.
  destruct s as [|a rest]; [discriminate|].
  destruct (flank a); [|discriminate].
  destruct (Re.prefix_ci w rest) as [[got [|b tl]]|] eqn:E; try discriminate.
  destruct (flank b); [|discriminate].
  injection H as <- <-.
  destruct (prefix_ci_split _ _ E) as [-> Hlen].
  rewrite firstn_cons, <- Hlen.
  replace (S (List.length got)) with (List.length got + 1) by lia.
  rewrite firstn_app_2. cbn [firstn].
  change (a :: chr_space :: got ++ [chr_space; b])
    with ([a] ++ [chr_space] ++ got ++ [chr_space] ++ [b]).
  change (a :: got ++ [b]) with ([a] ++ got ++ [b]).
  rewrite !solidText_app. reflexivity.
Qed.

Lemma clean_rules_solid : Forall solidPreserving cleanInsertionRules.
Proof.
  unfold cleanInsertionRules. apply Forall_app. split.
  - repeat (apply Forall_cons; [first [apply boundary_solid | apply camel_solid]|]).
    apply Forall_nil.
  - apply Forall_map. apply Forall_forall. intros w _. apply embedded_solid.
Qed.

Lemma basic_rules_solid : Forall solidPreserving basicInsertionRules.
Proof.
  unfold basicInsertionRules. apply Forall_app. split.
  - repeat (apply Forall_cons; [apply boundary_solid|]). apply Forall_nil.
  - apply Forall_map. apply Forall_forall. intros w _. apply embedded_solid.
Qed.

Lemma dropWhile_solid (s : jsstring) :
  solidText (dropWhile CharClass.space s) = solidText s.
Proof.
  induction s as [|c rest IH]; [reflexivity|].
  cbn [dropWhile]. destruct (CharClass.space c) eqn:E; [|reflexivity].
  rewrite solidText_space by exact E. exact IH.
Qed.

Lemma trimEnd_solid (s : jsstring) : solidText (trimEnd s) = solidText s.
Proof.
  induction s as [|c rest IH]; [reflexivity|].
  rewrite trimEnd_cons. destruct (trimEnd rest) as [|k kept] eqn:E.
  - destruct (CharClass.space c) eqn:Ec.
    + rewrite solidText_space by exact Ec. exact IH.
    + rewrite !solidText_solid by exact Ec. rewrite <- IH. reflexivity.
  - unfold solidText in *. cbn [filter] in *. rewrite IH. reflexivity.
Qed.

Lemma trim_solid (s : jsstring) : solidText (trim s) = solidText s.
Proof. unfold trim. rewrite trimEnd_solid. apply dropWhile_solid. Qed.

(** X1. The normaliser changes white space only: apart from white space,
    its result holds the code units of its input, each of them and in the
    same order. *)
Theorem cleanAndFormatText_keeps_solid (rawText : jsstring) :
  solidText (cleanAndFormatText rawText) = solidText rawText.
Proof.
  unfold cleanAndFormatText. destruct rawText as [|c rest]; [reflexivity|].
  cbv zeta. rewrite trim_solid.
  rewrite (replaceAll_solid spaces_solid).
  rewrite (applyRules_solid clean_rules_solid).
  rewrite (replaceAll_solid leadingSpaces_solid).
  rewrite (replaceAll_solid trailingSpaces_solid).
  rewrite (replaceAll_solid newlines4_solid).
  apply (replaceAll_solid blanks_solid).
Qed.

Lemma basic_pass_solid (s : jsstring) :
  solidText (trim (replaceAll Re.spaces (applyRules basicInsertionRules s)))
  = solidText s.
Proof.
  rewrite trim_solid, (replaceAll_solid spaces_solid).
  apply (applyRules_solid basic_rules_solid).
Qed.

(** X2. The pattern pass of last resort changes white space only: apart
    from white space, its result holds the code units of its input, each of
    them and in the same order. *)
Theorem addBasicSpacingToText_keeps_solid (concatenatedText : jsstring) :
  solidText (addBasicSpacingToText concatenatedText) = solidText concatenatedText.
Proof.
  unfold addBasicSpacingToText.
  destruct concatenatedText as [|c rest]; [reflexivity|].
  destruct (includes_char chr_space (c :: rest)); [reflexivity|].
  apply basic_pass_solid.
Qed.

(* --------------------------------------------------------------------- *)
(** ** The separators of the assembler *)
(* --------------------------------------------------------------------- *)

Lemma spacingOf_range (e1 e2 : Extent) : In (spacingOf e1 e2) wordSeparators.
Proof.
  unfold spacingOf, wordSeparators.
  repeat match goal with
         | |- context [if ?b then _ else _] => destruct b
         end; cbn; auto 10.
Qed.

Lemma spacingBody_range (b1 b2 : list cell) (spacing : jsstring) :
  spacingBody b1 b2 = Ret spacing -> In spacing wordSeparators.
Proof.
  unfold spacingBody.
  destruct (extent b1) as [e1|]; [|discriminate].
  destruct (extent b2) as [e2|]; [|discriminate].
  cbn [bind]. intros H. injection H as <-. apply spacingOf_range.
Qed.

(** X3. Whatever the two words, the spacing classifier returns, and what it
    returns is one of eight separators: nothing, one, two or four spaces, a
    tab, or one to three newlines. *)
Theorem calculateSpacingBetweenWords_range (word1 word2 : Word.t) :
  exists spacing,
    calculateSpacingBetweenWords word1 word2 = Ret spacing
    /\ In spacing wordSeparators.
Proof.
  unfold calculateSpacingBetweenWords.
  destruct (fullBox (Word.boundingBox word1)) as [b1|];
    [|exists (js " "); split; [reflexivity | cbn; auto]].
  destruct (fullBox (Word.boundingBox word2)) as [b2|];
    [|exists (js " "); split; [reflexivity | cbn; auto]].
  destruct (spacingBody b1 b2) as [spacing|e] eqn:E; cbn [try_catch].
  - exists spacing. split; [reflexivity | exact (spacingBody_range _ _ E)].
  - exists (js " "). split; [reflexivity | cbn; auto].
Qed.

Lemma wordSeparators_blank (sep : jsstring) :
  In sep wordSeparators -> solidText sep = [].
Proof.
  unfold wordSeparators. cbn [In].
  intros H; repeat (destruct H as [<-|H]; [reflexivity|]). destruct H.
Qed.

Lemma lineSeparators_blank (sep : jsstring) :
  In sep lineSeparators -> solidText sep = [].
Proof.
  unfold lineSeparators. cbn [In].
  intros H; repeat (destruct H as [<-|H]; [reflexivity|]). destruct H.
Qed.

Lemma classifier_blank (word1 word2 : Word.t) :
  exists spacing,
    calculateSpacingBetweenWords word1 word2 = Ret spacing
    /\ solidText spacing = [].
Proof.
  unfold calculateSpacingBetweenWords.
  destruct (fullBox (Word.boundingBox word1)) as [b1|];
    [|exists (js " "); split; reflexivity].
  destruct (fullBox (Word.boundingBox word2)) as [b2|];
    [|exists (js " "); split; reflexivity].
  destruct (spacingBody b1 b2) as [spacing|e] eqn:E; cbn [try_catch].
  - exists spacing. split; [reflexivity|].
    apply wordSeparators_blank. exact (spacingBody_range _ _ E).
  - exists (js " "). split; reflexivity.
Qed.

(** Reading an entry of a numeric box does not raise. *)
Lemma at_numeric (box : list cell) (i : nat) :
  numericBox (Some box) = true -> exists n, at_ box i = Ret n.
Proof.
  cbn [numericBox]. intros H. unfold at_.
  destruct (nth_in_or_default i box (Num NaN)) as [Hin| ->]; [|cbn; eauto].
  rewrite forallb_forall in H. specialize (H _ Hin).
  destruct (nth i box (Num NaN)); [cbn; eauto | discriminate].
Qed.

Lemma min4_numeric (box : list cell) (i j k l : nat) :
  numericBox (Some box) = true -> exists n, JsMath.min4 box i j k l = Ret n.
Proof.
  intros H. unfold JsMath.min4.
  destruct (at_numeric _ i H) as [a ->], (at_numeric _ j H) as [b ->],
           (at_numeric _ k H) as [c ->], (at_numeric _ l H) as [d ->].
  cbn. eauto.
Qed.

Lemma max4_numeric (box : list cell) (i j k l : nat) :
  numericBox (Some box) = true -> exists n, JsMath.max4 box i j k l = Ret n.
Proof.
  intros H. unfold JsMath.max4.
  destruct (at_numeric _ i H) as [a ->], (at_numeric _ j H) as [b ->],
           (at_numeric _ k H) as [c ->], (at_numeric _ l H) as [d ->].
  cbn. eauto.
Qed.

Lemma lineSpacing_range (line1 line2 : Line.t) (spacing : jsstring) :
  calculateSpacingBetweenLines line1 line2 = Ret spacing ->
  In spacing lineSeparators.
Proof.
  unfold calculateSpacingBetweenLines, lineSeparators.
  destruct (Line.boundingBox line1) as [bb1|];
    [|intros H; injection H as <-; cbn; auto].
  destruct (Line.boundingBox line2) as [bb2|];
    [|intros H; injection H as <-; cbn; auto].
  destruct (JsMath.max4 bb1 1 3 5 7); [|discriminate].
  destruct (JsMath.min4 bb1 1 3 5 7); [|discriminate].
  destruct (JsMath.min4 bb2 1 3 5 7); [|discriminate].
  cbn [bind].
  repeat match goal with
         | |- context [if ?b then _ else _] => destruct b
         end; intros H; injection H as <-; cbn; auto.
Qed.

Lemma lineSpacing_returns (line1 line2 : Line.t) :
  numericBox (Line.boundingBox line1) = true ->
  numericBox (Line.boundingBox line2) = true ->
  exists spacing, calculateSpacingBetweenLines line1 line2 = Ret spacing.
Proof.
  intros H1 H2. unfold calculateSpacingBetweenLines.
  destruct (Line.boundingBox line1) as [bb1|]; [|eauto].
  destruct (Line.boundingBox line2) as [bb2|]; [|eauto].
  destruct (max4_numeric _ 1 3 5 7 H1) as [a ->].
  destruct (min4_numeric _ 1 3 5 7 H1) as [b ->].
  destruct (min4_numeric _ 1 3 5 7 H2) as [c ->].
  cbn [bind].
  repeat match goal with
         | |- context [if ?b then _ else _] => destruct b
         end; eauto.
Qed.

(** X4. Between two lines the assembler puts one, two or three newlines and
    nothing else, so a line break is never lost nor replaced by a space; and
    it does so without raising when no entry of either line box is a value
    that cannot be read as a number. *)
Theorem calculateSpacingBetweenLines_range (line1 line2 : Line.t) :
  (forall spacing,
      calculateSpacingBetweenLines line1 line2 = Ret spacing ->
      In spacing lineSeparators)
  /\ (numericBox (Line.boundingBox line1) = true ->
      numericBox (Line.boundingBox line2) = true ->
      exists spacing,
        calculateSpacingBetweenLines line1 line2 = Ret spacing
        /\ In spacing lineSeparators).
Proof.
  split; [intros spacing; apply lineSpacing_range|].
  intros H1 H2. destruct (lineSpacing_returns _ _ H1 H2) as [spacing E].
  exists spacing. split; [exact E | exact (lineSpacing_range _ _ E)].
Qed.

Lemma calculateSpacingBetweenLines_range_witness :
  exists spacing,
    calculateSpacingBetweenLines upperLine lowerLine = Ret spacing
    /\ In spacing lineSeparators.
Proof.
  apply (proj2 (calculateSpacingBetweenLines_range upperLine lowerLine));
    reflexivity.
Defined.

(* --------------------------------------------------------------------- *)
(** ** What the assembler passes keep *)
(* --------------------------------------------------------------------- *)

Lemma solidWords_app (a b : list Word.t) :
  solidWords (a ++ b) = solidWords a ++ solidWords b.
Proof. apply flat_map_app. Qed.

Lemma joinWithSpacing_solid :
  forall words,
    exists lineText,
      joinWithSpacing words = Ret lineText
      /\ solidText lineText = solidWords words.
Proof.
  induction words as [|word rest IH]; [exists []; split; reflexivity|].
  cbn [joinWithSpacing]. destruct rest as [|nextWord rest'].
  - exists (Word.text word). split; [reflexivity|].
    unfold solidWords. cbn [flat_map]. rewrite app_nil_r. reflexivity.
  - destruct IH as [tail [-> Htail]].
    assert (exists spacing,
               (if hasFullBox word && hasFullBox nextWord
                then calculateSpacingBetweenWords word nextWord
                else Ret (js " ")) = Ret spacing
               /\ solidText spacing = []) as [spacing [-> Hs]].
    { destruct (hasFullBox word && hasFullBox nextWord);
        [apply classifier_blank | exists (js " "); split; reflexivity]. }
    cbn [bind]. eexists. split; [reflexivity|].
    rewrite !solidText_app, Hs, Htail. reflexivity.
Qed.

Lemma processWordsWithSpacing_solid (words : option (list Word.t)) :
  exists lineText,
    processWordsWithSpacing words = Ret lineText
    /\ solidText lineText
       = solidWords (match words with Some ws => ws | None => [] end).
Proof.
  unfold processWordsWithSpacing.
  destruct words as [[|w [|w' rest]]|].
  - exists []. split; reflexivity.
  - exists (Word.text w). split; [reflexivity|].
    unfold solidWords. cbn [flat_map]. rewrite app_nil_r. reflexivity.
  - apply joinWithSpacing_solid.
  - exists []. split; reflexivity.
Qed.

(** X5. A line of words always assembles, and apart from white space the
    assembled line is the texts of its words, each of them and in the order
    of the array: the classifier only ever separates words. *)
Theorem processWordsWithSpacing_keeps_words (words : option (list Word.t)) :
  exists lineText,
    processWordsWithSpacing words = Ret lineText
    /\ solidText lineText
       = solidWords (match words with Some ws => ws | None => [] end).
Proof. apply processWordsWithSpacing_solid. Qed.

Lemma assembleLines_solid :
  forall lines formattedText previousLine result,
    assembleLines lines formattedText previousLine = Ret result ->
    solidText result = solidText formattedText ++ solidWords (wordsOf lines).
Proof.
  induction lines as [|line rest IH]; intros formattedText previousLine result H.
  - cbn in H. injection H as <-. cbn. rewrite app_nil_r. reflexivity.
  - cbn [assembleLines] in H.
    unfold wordsOf. cbn [flat_map]. fold (wordsOf rest).
    rewrite solidWords_app.
    destruct (noWords line) eqn:En.
    + rewrite (IH _ _ _ H). unfold noWords in En.
      destruct (Line.words line) as [[|? ?]|]; try discriminate; reflexivity.
    + destruct (processWordsWithSpacing_solid (Line.words line))
        as [lineText [E Hsolid]].
      rewrite E in H. cbn [bind] in H.
      assert (Hw : solidText lineText
                   = solidWords (match Line.words line with
                                 | Some ws => ws | None => [] end))
        by exact Hsolid.
      destruct (match previousLine with
                | Some prev =>
                    if nonBlank lineText
                    then calculateSpacingBetweenLines prev line
                    else Ret []
                | None => Ret []
                end) as [lineSpacing|] eqn:Es; [|discriminate].
      cbn [bind] in H. rewrite (IH _ _ _ H), !solidText_app, Hw.
      assert (solidText lineSpacing = []) as ->.
      { destruct previousLine as [prev|]; [|injection Es as <-; reflexivity].
        destruct (nonBlank lineText); [|injection Es as <-; reflexivity].
        apply lineSeparators_blank. exact (lineSpacing_range _ _ Es). }
      cbn [app]. rewrite app_assoc. reflexivity.
Qed.

(** X6. The first pass of the page assembler loses nothing and moves
    nothing: when it returns, its text is, apart from white space, the
    texts of all the words of all the lines, in reading order. *)
Theorem processLinesWithIntelligentSpacing_keeps_words
        (lines : list Line.t) (formattedText : jsstring) :
  processLinesWithIntelligentSpacing (Some lines) = Ret formattedText ->
  solidText formattedText = solidWords (wordsOf lines).
Proof.
  unfold processLinesWithIntelligentSpacing. intros H.
  destruct lines as [|l ls]; [injection H as <-; reflexivity|].
  rewrite (assembleLines_solid _ _ _ H). reflexivity.
Qed.

Lemma processLinesWithIntelligentSpacing_keeps_words_witness :
  solidText (js "a" ++ [chr_nl] ++ js "World World") = js "aWorldWorld"
  /\ solidText (js "a" ++ [chr_nl] ++ js "World World")
     = solidWords (wordsOf plainLines).
Proof.
  split; [reflexivity|].
  apply processLinesWithIntelligentSpacing_keeps_words. reflexivity.
Defined.





(* --------------------------------------------------------------------- *)
(** ** Paragraph detection *)
(* --------------------------------------------------------------------- *)

Lemma splitOn_oneLine (s : jsstring) :
  oneLine s -> splitOn chr_nl s = [s].
Proof.
  induction 1 as [|c rest Hc _ IH]; [reflexivity|].
  cbn [splitOn]. rewrite Hc, IH. reflexivity.
Qed.

Lemma detectAndFormatParagraphs_oneLine (text : jsstring) :
  oneLine text -> detectAndFormatParagraphs text = trim text.
Proof.
  intros H. unfold detectAndFormatParagraphs.
  destruct text as [|c rest]; [reflexivity|].
  rewrite (splitOn_oneLine H). cbn [formatLines].
  destruct (trim (c :: rest)) as [|k kept] eqn:E; [reflexivity|].
  cbn [app]. rewrite app_nil_r, <- E. apply trim_idempotent.
Qed.

(** X8. A text without a newline comes out of the paragraph detection as it
    went in, less the white space at its two ends. *)
Theorem detectAndFormatParagraphs_single_line (text : jsstring) :
  oneLine text -> detectAndFormatParagraphs text = trim text.
Proof. apply detectAndFormatParagraphs_oneLine. Qed.

Lemma detectAndFormatParagraphs_single_line_witness :
  detectAndFormatParagraphs (js "  one line. Another  ") = js "one line. Another".
Proof.
  rewrite detectAndFormatParagraphs_single_line; [reflexivity|].
  unfold oneLine. repeat constructor.
Defined.

Lemma splitOn_nonempty (sep : jschar) (s : jsstring) : splitOn sep s <> [].
Proof.
  destruct s as [|c rest]; cbn [splitOn]; [discriminate|].
  destruct (N.eqb sep c); [discriminate|].
  destruct (splitOn sep rest); discriminate.
Qed.

Lemma splitOn_solid (sep : jschar) (s : jsstring) :
  CharClass.space sep = true ->
  solidText (List.concat (splitOn sep s)) = solidText s.
Proof.
  intros Hsep. induction s as [|c rest IH]; [reflexivity|].
  cbn [splitOn]. destruct (N.eqb sep c) eqn:E.
  - apply N.eqb_eq in E. subst c. cbn [List.concat app].
    rewrite solidText_space by exact Hsep. exact IH.
  - destruct (splitOn sep rest) as [|piece pieces] eqn:Es;
      [exfalso; exact (splitOn_nonempty _ _ Es)|].
    cbn [List.concat app] in *. unfold solidText in *. cbn [filter].
    rewrite IH. reflexivity.
Qed.

Lemma lineBreakAfter_blank (currentLine nextLine : jsstring) (n : nat) :
  solidText (lineBreakAfter currentLine nextLine n) = [].
Proof.
  unfold lineBreakAfter. cbv zeta.
  repeat match goal with
         | |- context [if ?b then _ else _] => destruct b
         end; reflexivity.
Qed.

Lemma formatLines_solid :
  forall lines formattedText n,
    solidText (formatLines lines formattedText n)
    = solidText formattedText ++ solidText (List.concat lines).
Proof.
  induction lines as [|line rest IH]; intros formattedText n.
  - cbn. rewrite app_nil_r. reflexivity.
  - cbn [formatLines List.concat]. rewrite solidText_app, <- (trim_solid line).
    destruct (trim line) as [|k kept] eqn:E.
    + rewrite IH. cbn [solidText filter app]. f_equal.
      destruct formattedText as [|f ft]; [reflexivity|].
      destruct (endsWith [chr_nl; chr_nl] (f :: ft)); [reflexivity|].
      rewrite solidText_app. cbn. apply app_nil_r.
    + rewrite IH, !solidText_app.
      match goal with
      | |- context [lineBreakAfter _ ?next _] => destruct next
      end; [change (solidText []) with (@nil jschar)
           | rewrite lineBreakAfter_blank];
      rewrite app_nil_r, <- app_assoc; reflexivity.
Qed.

(** X9. The paragraph detection changes white space only: it joins and
    separates lines, and apart from white space its result holds the code
    units of its input, each of them and in the same order. *)
Theorem detectAndFormatParagraphs_keeps_solid (text : jsstring) :
  solidText (detectAndFormatParagraphs text) = solidText text.
Proof.
  unfold detectAndFormatParagraphs. destruct text as [|c rest]; [reflexivity|].
  rewrite trim_solid, formatLines_solid. cbn [solidText filter app].
  apply splitOn_solid. reflexivity.
Qed.

(** *** No more than one blank line in a row *)

Lemma longestNewlineRun_infix (a b : jsstring) :
  3 <= longestNewlineRun (a ++ [chr_nl; chr_nl; chr_nl] ++ b).
Proof.
  induction a as [|c a IH].
  - cbn [app longestNewlineRun runLength]. rewrite N.eqb_refl. lia.
  - cbn [app longestNewlineRun]. cbn [app] in IH. lia.
Qed.

Lemma longestNewlineRun_oneLine (x r : jsstring) :
  oneLine x -> longestNewlineRun (x ++ r) = longestNewlineRun r.
Proof.
  induction 1 as [|c x Hc _ IH]; [reflexivity|].
  cbn [app longestNewlineRun runLength]. rewrite Hc, IH. reflexivity.
Qed.

Lemma runLength_oneLine (x r : jsstring) :
  x <> [] -> oneLine x -> runLength (N.eqb chr_nl) (x ++ r) = 0.
Proof.
  intros Hne H. destruct H as [|c x Hc _]; [contradiction|].
  cbn [app runLength]. rewrite Hc. reflexivity.
Qed.

Lemma oneLine_dropWhile (p : jschar -> bool) (s : jsstring) :
  oneLine s -> oneLine (dropWhile p s).
Proof.
  induction 1 as [|c s Hc Hs IH]; [constructor|].
  cbn [dropWhile]. destruct (p c); [exact IH | constructor; assumption].
Qed.

Lemma oneLine_trimEnd (s : jsstring) : oneLine s -> oneLine (trimEnd s).
Proof.
  induction 1 as [|c s Hc Hs IH]; [constructor|].
  rewrite trimEnd_cons. destruct (trimEnd s) as [|k kept].
  - destruct (CharClass.space c); [constructor | constructor; [exact Hc | constructor]].
  - constructor; assumption.
Qed.

Lemma oneLine_trim (s : jsstring) : oneLine s -> oneLine (trim s).
Proof. intros H. apply oneLine_trimEnd, oneLine_dropWhile, H. Qed.

Lemma splitOn_pieces (s : jsstring) : Forall oneLine (splitOn chr_nl s).
Proof.
  induction s as [|c rest IH]; [repeat constructor|].
  cbn [splitOn]. destruct (N.eqb chr_nl c) eqn:E.
  - constructor; [constructor | exact IH].
  - destruct (splitOn chr_nl rest) as [|piece pieces]; [repeat constructor; exact E|].
    inversion IH; subst. constructor; [constructor; assumption | assumption].
Qed.

Lemma dropWhile_suffix (p : jschar -> bool) (s : jsstring) :
  exists pre, s = pre ++ dropWhile p s.
Proof.
  induction s as [|c rest [pre IH]]; [exists []; reflexivity|].
  cbn [dropWhile]. destruct (p c).
  - exists (c :: pre). cbn [app]. rewrite <- IH. reflexivity.
  - exists []. reflexivity.
Qed.

Lemma trimEnd_prefix (s : jsstring) : exists post, s = trimEnd s ++ post.
Proof.
  induction s as [|c rest [post IH]]; [exists []; reflexivity|].
  rewrite trimEnd_cons. destruct (trimEnd rest) as [|k kept].
  - cbn [app] in IH. destruct (CharClass.space c).
    + exists (c :: rest). reflexivity.
    + exists rest. reflexivity.
  - exists post. cbn [app] in *. rewrite <- IH. reflexivity.
Qed.

Lemma trim_infix (s : jsstring) : exists pre post, s = pre ++ trim s ++ post.
Proof.
  unfold trim. destruct (dropWhile_suffix CharClass.space s) as [pre Hpre].
  destruct (trimEnd_prefix (dropWhile CharClass.space s)) as [post Hpost].
  exists pre, post. rewrite <- Hpost. exact Hpre.
Qed.

Lemma no_double_newline_ahead (r : jsstring) :
  startsWith [chr_nl; chr_nl] r = false -> runLength (N.eqb chr_nl) r <= 1.
Proof.
  unfold startsWith. cbn [Indicator.literal].
  destruct r as [|a [|b r']]; cbn [runLength Indicator.literal].
  - lia.
  - destruct (N.eqb chr_nl a); lia.
  - destruct (N.eqb chr_nl a); [|lia].
    destruct (N.eqb chr_nl b); [discriminate | lia].
Qed.

Lemma lineBreakAfter_cases (currentLine nextLine : jsstring) (n : nat) :
  lineBreakAfter currentLine nextLine n = [chr_nl; chr_nl]
  \/ lineBreakAfter currentLine nextLine n = [chr_nl]
  \/ lineBreakAfter currentLine nextLine n = [chr_space].
Proof.
  unfold lineBreakAfter. cbv zeta.
  repeat match goal with
         | |- context [if ?b then _ else _] => destruct b
         end; auto.
Qed.

Lemma formatLines_runs :
  forall lines formattedText n,
    Forall oneLine lines ->
    longestNewlineRun (rev formattedText) <= 2 ->
    longestNewlineRun (rev (formatLines lines formattedText n)) <= 2.
Proof.
  induction lines as [|line rest IH]; intros formattedText n Hall Hft;
    [exact Hft|].
  inversion Hall as [|? ? Hline Hrest]; subst.
  cbn [formatLines]. cbv zeta.
  pose proof (oneLine_trim Hline) as Hcl.
  destruct (trim line) as [|k kept] eqn:E.
  - apply IH; [exact Hrest|].
    destruct formattedText as [|f ft]; [exact Hft|].
    destruct (endsWith [chr_nl; chr_nl] (f :: ft)) eqn:Ee; [exact Hft|].
    rewrite rev_app_distr. change (rev [chr_nl]) with [chr_nl]. cbn [app].
    unfold endsWith in Ee.
    change (rev [chr_nl; chr_nl]) with [chr_nl; chr_nl] in Ee.
    apply no_double_newline_ahead in Ee.
    set (r := rev (f :: ft)) in *. cbn [longestNewlineRun runLength].
    rewrite N.eqb_refl. lia.
  - apply IH; [exact Hrest|].
    rewrite !rev_app_distr, <- app_assoc.
    set (r := rev (k :: kept) ++ rev formattedText).
    assert (Hr0 : runLength (N.eqb chr_nl) r = 0).
    { apply runLength_oneLine.
      - cbn [rev]. intros H. apply app_eq_nil in H. destruct H; discriminate.
      - apply Forall_rev. exact Hcl. }
    assert (Hr : longestNewlineRun r <= 2).
    { unfold r. rewrite longestNewlineRun_oneLine by (apply Forall_rev; exact Hcl).
      exact Hft. }
    clearbody r.
    destruct (match rest with [] => [] | next :: _ => trim next end) as [|x xs];
      [exact Hr|].
    destruct (lineBreakAfter_cases (k :: kept) (x :: xs) n) as [->|[->| ->]];
      cbn [rev app longestNewlineRun runLength];
      rewrite ?N.eqb_refl; try change (N.eqb chr_nl chr_space) with false;
      cbv iota; rewrite ?Hr0; lia.
Qed.

(** X10. The paragraph detection never leaves more than one blank line in a
    row: its result has no three newlines one after the other. *)
Theorem detectAndFormatParagraphs_no_triple_newline (text a b : jsstring) :
  detectAndFormatParagraphs text <> a ++ [chr_nl; chr_nl; chr_nl] ++ b.
Proof.
  unfold detectAndFormatParagraphs. intros H.
  destruct text as [|c rest]; [destruct a; discriminate|].
  set (lines := splitOn chr_nl (c :: rest)) in H.
  pose proof (@formatLines_runs lines [] 0 (splitOn_pieces _) (Nat.le_0_l _)) as Hruns.
  destruct (trim_infix (formatLines lines [] 0)) as [pre [post Hsplit]].
  rewrite H in Hsplit. rewrite Hsplit in Hruns.
  rewrite !rev_app_distr in Hruns. cbn [rev app] in Hruns.
  rewrite <- !app_assoc in Hruns. cbn [app] in Hruns.
  pose proof (longestNewlineRun_infix (rev post ++ rev b) (rev a ++ rev pre)) as H3.
  rewrite <- !app_assoc in H3. cbn [app] in H3. lia.
Qed.

(* --------------------------------------------------------------------- *)
(** ** The result assembler *)
(* --------------------------------------------------------------------- *)

Lemma collapsed_oneLine (s : jsstring) : collapsed s = true -> oneLine s.
Proof. apply collapsed_no_newline. Qed.

(** After the normaliser the paragraph detection has nothing to do. *)
Lemma detectAndFormatParagraphs_after_clean (extractedText : jsstring) :
  detectAndFormatParagraphs (cleanAndFormatText extractedText)
  = cleanAndFormatText extractedText.
Proof.
  destruct (cleanAndFormatText_tidy extractedText) as [Hc Ht].
  rewrite detectAndFormatParagraphs_oneLine by (apply collapsed_oneLine; exact Hc).
  exact Ht.
Qed.

Lemma processOCRResults_shape (readResults : option (list Page.t))
      (r : Processed.t) :
  processOCRResults readResults = Ret r ->
  Processed.text r <> []
  /\ collapsed (Processed.text r) = true
  /\ trim (Processed.text r) = Processed.text r.
Proof.
  unfold processOCRResults.
  destruct readResults as [[|page pages]|];
    try (intros H; injection H as <-; cbn [Processed.text];
         split; [discriminate | split; vm_compute; reflexivity]).
  destruct (processPages _ _ _ _ _) as [[extractedText acc]|]; [|discriminate].
  cbn [bind fst snd]. intros H. injection H as <-. cbn [Processed.text].
  rewrite detectAndFormatParagraphs_after_clean.
  destruct (cleanAndFormatText_tidy extractedText) as [Hc Ht].
  destruct (cleanAndFormatText extractedText) as [|c rest] eqn:E.
  - split; [discriminate | split; vm_compute; reflexivity].
  - split; [discriminate | split; assumption].
Qed.

(** X11. The text that [processOCRResults] returns is never empty and is one
    line: it is trimmed, and its only white space is single spaces.  The
    newlines of the page headers and of the page separators, and the line
    structure of the pages, do not reach the caller; and since the text put
    before the paragraph detection never has a newline, that detection
    returns it unchanged. *)
Theorem processOCRResults_text_is_one_line
        (readResults : option (list Page.t)) (r : Processed.t) :
  processOCRResults readResults = Ret r ->
  Processed.text r <> []
  /\ oneLine (Processed.text r)
  /\ collapsed (Processed.text r) = true
  /\ trim (Processed.text r) = Processed.text r
  /\ forall extractedText,
       detectAndFormatParagraphs (cleanAndFormatText extractedText)
       = cleanAndFormatText extractedText.
Proof.
  intros H. destruct (processOCRResults_shape _ H) as [Hn [Hc Ht]].
  repeat split; try assumption.
  - apply collapsed_oneLine. exact Hc.
  - apply detectAndFormatParagraphs_after_clean.
Qed.

Lemma processOCRResults_text_is_one_line_witness :
  exists r,
    processOCRResults (Some [confidentPage; blankPage]) = Ret r
    /\ Processed.text r
       = js "--- Page 1 --- Hello World --- Page 2 --- No text recognized on this page."
    /\ oneLine (Processed.text r).
Proof.
  eexists. split; [vm_compute; reflexivity|].
  split; [reflexivity|].
  refine (proj1 (proj2 (@processOCRResults_text_is_one_line
                          (Some [confidentPage; blankPage]) _ _))).
  vm_compute. reflexivity.
Defined.

Lemma addWordConfidences_within :
  forall words acc,
    forallb (fun word => unitConfidence (Word.confidence word)) words = true ->
    withinCount acc -> withinCount (addWordConfidences words acc).
Proof.
  unfold addWordConfidences.
  induction words as [|word rest IH]; intros acc Hall Hacc; [exact Hacc|].
  cbn [forallb] in Hall. apply andb_true_iff in Hall. destruct Hall as [Hw Hrest].
  cbn [fold_left]. apply IH; [exact Hrest|].
  destruct (Word.confidence word) as [[q|]|]; cbn [unitConfidence] in Hw;
    [|discriminate|exact Hacc].
  apply andb_true_iff in Hw. destruct Hw as [H0 H1].
  apply Qle_bool_iff in H0. apply Qle_bool_iff in H1.
  destruct Hacc as [t [Et [Ht0 Ht1]]]. destruct acc as [total count].
  cbn [fst snd] in *. subst total. exists (t + q)%Q. cbn [fst snd Num.add Num.lift2].
  split; [reflexivity|].
  rewrite Nat2Z.inj_succ, <- Z.add_1_r, inject_Z_plus.
  change (inject_Z 1) with 1%Q. split; lra.
Qed.

Lemma addLineConfidences_within :
  forall lines acc,
    unitConfidences lines = true ->
    withinCount acc -> withinCount (addLineConfidences lines acc).
Proof.
  unfold addLineConfidences, unitConfidences.
  induction lines as [|line rest IH]; intros acc Hall Hacc; [exact Hacc|].
  cbn [forallb] in Hall. apply andb_true_iff in Hall. destruct Hall as [Hl Hrest].
  cbn [fold_left]. apply IH; [exact Hrest|].
  destruct (Line.words line) as [ws|]; [|exact Hacc].
  apply addWordConfidences_within; assumption.
Qed.

Lemma processPages_within :
  forall pages count pageIndex extractedText acc result,
    processPages count pageIndex pages extractedText acc = Ret result ->
    forallb (fun page => unitConfidences (linesOf page)) pages = true ->
    withinCount acc -> withinCount (snd result).
Proof.
  induction pages as [|page rest IH];
    intros count pageIndex extractedText acc result H Hall Hacc.
  - cbn in H. injection H as <-. exact Hacc.
  - cbn [forallb] in Hall. apply andb_true_iff in Hall.
    destruct Hall as [Hp Hrest]. cbn [processPages] in H. cbv zeta in H.
    unfold linesOf in Hp.
    destruct (Page.lines page) as [[|line lines]|]; cbn [bind fst snd] in H;
      try (eapply IH; eassumption).
    destruct (pageText (line :: lines)) as [t|]; [|discriminate].
    cbn [bind fst snd] in H. eapply IH; [exact H | exact Hrest|].
    apply addLineConfidences_within; assumption.
Qed.

Lemma round_percentage (t : Q) (n : nat) :
  (0 <= t <= inject_Z (Z.of_nat n))%Q -> 0 < n ->
  exists z,
    round (Num.mul (Num.div (Fin t) (Fin (inject_Z (Z.of_nat n)))) (Fin 100))
    = Fin (inject_Z z)
    /\ (0 <= z <= 100)%Z.
Proof.
  intros [H0 H1] Hn.
  assert (Hpos : (0 < inject_Z (Z.of_nat n))%Q).
  { change 0%Q with (inject_Z 0). rewrite <- Zlt_Qlt. lia. }
  unfold Num.div.
  destruct (Qeq_bool (inject_Z (Z.of_nat n)) 0) eqn:E.
  { apply Qeq_bool_iff in E. rewrite E in Hpos. exfalso. revert Hpos. apply Qlt_irrefl. }
  cbn [Num.mul Num.lift2 round]. eexists. split; [reflexivity|].
  set (d := inject_Z (Z.of_nat n)) in *.
  assert (Hq0 : (0 <= t / d)%Q).
  { apply Qle_shift_div_l; [exact Hpos | lra]. }
  assert (Hq1 : (t / d <= 1)%Q).
  { apply Qle_shift_div_r; [exact Hpos | lra]. }
  set (q := (t / d)%Q) in *. clearbody q. clear - Hq0 Hq1. split.
  - apply Z.le_trans with (Qfloor (1 # 2)); [discriminate|].
    apply Qfloor_resp_le. lra.
  - apply Z.le_trans with (Qfloor (100 + (1 # 2))); [|discriminate].
    apply Qfloor_resp_le. lra.
Qed.

(** X12. When every recognised word carries a confidence between 0 and 1, or
    none, the confidence that [processOCRResults] reports is a whole number
    of percent from 0 to 100. *)
Theorem processOCRResults_confidence_is_a_percentage
        (pages : list Page.t) (r : Processed.t) :
  processOCRResults (Some pages) = Ret r ->
  forallb (fun page => unitConfidences (linesOf page)) pages = true ->
  exists z, Processed.confidence r = Fin (inject_Z z) /\ (0 <= z <= 100)%Z.
Proof.
  unfold processOCRResults. intros H Hall.
  destruct pages as [|page rest].
  { injection H as <-. exists 0%Z. split; [reflexivity | lia]. }
  destruct (processPages _ _ _ _ _) as [[extractedText [total count]]|] eqn:E;
    [|discriminate].
  cbn [bind fst snd] in H. injection H as <-. cbn [Processed.confidence].
  assert (Hacc : withinCount (total, count)).
  { apply (processPages_within _ _ _ _ E Hall).
    exists 0%Q. cbn. split; [reflexivity | split; apply Qle_refl]. }
  destruct Hacc as [t [Et Ht]]. cbn [fst snd] in Et, Ht. subst total.
  destruct count as [|count].
  - exists 0%Z. split; [reflexivity | lia].
  - change (0 <? S count) with true. cbv iota.
    apply round_percentage; [exact Ht | lia].
Qed.

Lemma processOCRResults_confidence_is_a_percentage_witness :
  exists r z,
    processOCRResults (Some [confidentPage; blankPage]) = Ret r
    /\ Processed.confidence r = Fin (inject_Z z) /\ (0 <= z <= 100)%Z.
Proof.
  destruct (processOCRResults (Some [confidentPage; blankPage])) as [r|] eqn:E.
  - exists r.
    destruct (processOCRResults_confidence_is_a_percentage _ E) as [z Hz];
      [reflexivity|].
    exists z. split; [reflexivity | exact Hz].
  - vm_compute in E. discriminate E.
Defined.

(** *** It returns on every geometry that is made of numbers *)

Section SortReturns.
Context {A : Type} (compare : A -> A -> Exc jsnum).

Lemma insertSorted_returns (x : A) :
  forall sorted,
    (forall y, In y sorted -> exists v, compare x y = Ret v) ->
    exists out, insertSorted compare x sorted = Ret out.
Proof.
  induction sorted as [|y ys IH]; intros H; [cbn; eauto|].
  cbn [insertSorted]. destruct (H y (or_introl eq_refl)) as [v ->]. cbn [bind].
  destruct (Num.gtb v (Fin 0)); [|eauto].
  destruct IH as [ys' ->]; [intros z Hz; apply H; right; exact Hz|].
  cbn [bind]. eauto.
Qed.

Lemma sortWith_returns :
  forall l,
    (forall a b, In a l -> In b l -> exists v, compare a b = Ret v) ->
    exists out, sortWith compare l = Ret out.
Proof.
  induction l as [|x xs IH]; intros H; [cbn; eauto|].
  cbn [sortWith].
  destruct IH as [sorted E];
    [intros a b Ha Hb; apply H; right; assumption|].
  rewrite E. cbn [bind]. apply insertSorted_returns.
  intros y Hy. apply H; [left; reflexivity|].
  right. apply (Permutation_in _ (Permutation_sym (sortWith_permutation _ _ E))).
  exact Hy.
Qed.
End SortReturns.

Lemma numericBox_boxOf (word : Word.t) :
  numericBox (Word.boundingBox word) = true ->
  numericBox (Some (boxOf word)) = true.
Proof. unfold boxOf. destruct (Word.boundingBox word); auto. Qed.

Lemma compareByPosition_returns (a b : Word.t) :
  numericBox (Word.boundingBox a) = true ->
  numericBox (Word.boundingBox b) = true ->
  exists v, compareByPosition a b = Ret v.
Proof.
  intros Ha Hb. apply numericBox_boxOf in Ha. apply numericBox_boxOf in Hb.
  unfold compareByPosition.
  destruct (min4_numeric _ 1 3 5 7 Ha) as [aTop ->].
  destruct (min4_numeric _ 1 3 5 7 Hb) as [bTop ->].
  destruct (min4_numeric _ 0 2 4 6 Ha) as [aLeft ->].
  destruct (min4_numeric _ 0 2 4 6 Hb) as [bLeft ->].
  destruct (max4_numeric _ 1 3 5 7 Ha) as [aBottom ->].
  destruct (max4_numeric _ 1 3 5 7 Hb) as [bBottom ->].
  cbn [bind].
  match goal with
  | |- context [if ?c then _ else _] => destruct c
  end; eauto.
Qed.

Lemma assembleLines_returns :
  forall lines formattedText previousLine,
    forallb numericLine lines = true ->
    (forall prev, previousLine = Some prev ->
                  numericBox (Line.boundingBox prev) = true) ->
    exists result, assembleLines lines formattedText previousLine = Ret result.
Proof.
  induction lines as [|line rest IH]; intros formattedText previousLine Hall Hprev;
    [cbn; eauto|].
  cbn [forallb] in Hall. apply andb_true_iff in Hall. destruct Hall as [Hl Hrest].
  unfold numericLine in Hl. apply andb_true_iff in Hl. destruct Hl as [Hbox _].
  cbn [assembleLines]. destruct (noWords line); [apply IH; assumption|].
  destruct (processWordsWithSpacing_solid (Line.words line)) as [lineText [-> _]].
  cbn [bind].
  assert (exists lineSpacing,
             match previousLine with
             | Some prev =>
                 if nonBlank lineText
                 then calculateSpacingBetweenLines prev line
                 else Ret []
             | None => Ret []
             end = Ret lineSpacing) as [lineSpacing ->].
  { destruct previousLine as [prev|]; [|eauto].
    destruct (nonBlank lineText); [|eauto].
    apply lineSpacing_returns; [apply Hprev; reflexivity | exact Hbox]. }
  cbn [bind]. apply IH; [exact Hrest|].
  intros prev. destruct (nonBlank lineText).
  - intros E. injection E as <-. exact Hbox.
  - apply Hprev.
Qed.

Lemma pageText_returns (lines : list Line.t) :
  forallb numericLine lines = true -> exists result, pageText lines = Ret result.
Proof.
  intros Hall. unfold pageText.
  cbn [CONFIG.INTELLIGENT_SPACING.ENABLED
         CONFIG.INTELLIGENT_SPACING.FORCE_SPACING_ON_NO_GAPS andb].
  assert (exists spaced,
             processLinesWithIntelligentSpacing (Some lines) = Ret spaced)
    as [spaced ->].
  { unfold processLinesWithIntelligentSpacing. destruct lines as [|l ls]; [eauto|].
    apply assembleLines_returns; [exact Hall | discriminate]. }
  cbn [bind].
  destruct (negb (hasSpace spaced) && someMultiWordLine lines); [|eauto].
  assert (exists forced,
             applyForcedSpacingToCompactText (Some lines) = Ret forced)
    as [forced ->].
  { unfold applyForcedSpacingToCompactText. destruct lines as [|l ls]; [eauto|].
    destruct (collectWords (l :: ls)) as [|cw cws] eqn:Ec; [eauto|].
    destruct (sortWith_returns compareByPosition (cw :: cws)) as [sorted ->].
    - assert (Hnum : forall word, In word (cw :: cws) ->
                                  numericBox (Word.boundingBox word) = true).
      { intros word Hin. rewrite <- Ec in Hin. apply collectWords_In in Hin.
        destruct Hin as [line [ws [Hline [Hws [Hword _]]]]].
        rewrite forallb_forall in Hall. specialize (Hall _ Hline).
        unfold numericLine in Hall. rewrite Hws in Hall.
        apply andb_true_iff in Hall. destruct Hall as [_ Hall].
        rewrite forallb_forall in Hall. apply Hall. exact Hword. }
      intros a b Ha Hb. apply compareByPosition_returns; apply Hnum; assumption.
    - cbn [bind]. apply joinForced_returns. }
  cbn [bind]. destruct (negb (hasSpace forced)); eauto.
Qed.

Lemma processPages_returns :
  forall pages count pageIndex extractedText acc,
    forallb (fun page => forallb numericLine (linesOf page)) pages = true ->
    exists result,
      processPages count pageIndex pages extractedText acc = Ret result.
Proof.
  induction pages as [|page rest IH]; intros count pageIndex extractedText acc Hall;
    [cbn; eauto|].
  cbn [forallb] in Hall. apply andb_true_iff in Hall. destruct Hall as [Hp Hrest].
  cbn [processPages]. cbv zeta. unfold linesOf in Hp.
  destruct (Page.lines page) as [[|line lines]|]; cbn [bind fst snd];
    try (apply IH; exact Hrest).
  destruct (pageText_returns _ Hp) as [t ->]. cbn [bind fst snd].
  apply IH. exact Hrest.
Qed.

(** X13. [processOCRResults] returns, without raising, on every array of
    pages in which no entry of a bounding box is a value that cannot be read
    as a number (where an entry is missing or is not a number, it still
    returns), and it reports as many pages as it was given. *)
Theorem processOCRResults_returns (pages : list Page.t) :
  forallb (fun page => forallb numericLine (linesOf page)) pages = true ->
  exists r,
    processOCRResults (Some pages) = Ret r
    /\ Processed.pages r = List.length pages.
Proof.
  intros Hall. unfold processOCRResults. destruct pages as [|page rest].
  - eexists. split; reflexivity.
  - destruct (processPages_returns _ (List.length (page :: rest)) 0 [] (Fin 0, 0) Hall)
      as [result ->].
    cbn [bind]. eexists. split; reflexivity.
Qed.

Lemma processOCRResults_returns_witness :
  exists r,
    processOCRResults (Some [undeterminedPage; blankPage]) = Ret r
    /\ Processed.pages r = 2.
Proof.
  apply (@processOCRResults_returns [undeterminedPage; blankPage]). reflexivity.
Defined.

(* --------------------------------------------------------------------- *)
(** ** The page-object probe *)
(* --------------------------------------------------------------------- *)

Lemma extractTextFromPDFPage_empty (pdfDoc : PdfDocument) (pageIndex : nat) :
  extractTextFromPDFPage pdfDoc pageIndex = [].
Proof.
  unfold extractTextFromPDFPage.
  destruct (lookupPage pdfDoc pageIndex) as [[object|]|]; cbn [bind];
    try reflexivity.
  destruct (hasDict object); [|reflexivity].
  destruct (hasContents object) as [[|]|]; reflexivity.
Qed.

Lemma scanPages_finds_nothing (pdfDoc : PdfDocument) :
  forall pageIndices allText hasSignificantText,
    scanPages pdfDoc pageIndices allText hasSignificantText
    = (allText, hasSignificantText).
Proof.
  induction pageIndices as [|i rest IH]; intros allText hasSignificantText;
    [reflexivity|].
  cbn [scanPages]. rewrite extractTextFromPDFPage_empty. cbn [andb]. apply IH.
Qed.

(** X14. The probe that walks the page objects never finds text: whatever
    the document, it answers that there is none, with an empty extract of
    length 0; what it does report is the number of pages, or 0 when the
    document cannot be loaded. *)
Theorem checkPDFForExistingText_never_finds_text (load : Exc PdfDocument) :
  hasText (checkPDFForExistingText load) = false
  /\ extractedText (checkPDFForExistingText load) = []
  /\ textLength (checkPDFForExistingText load) = 0
  /\ pageCount (checkPDFForExistingText load)
     = match load with
       | Ret pdfDoc => numberOfPages pdfDoc
       | Raise _ => 0
       end.
Proof.
  unfold checkPDFForExistingText. destruct load as [pdfDoc|e].
  - rewrite scanPages_finds_nothing. repeat split.
  - repeat split.
Qed.

(* --------------------------------------------------------------------- *)
(** ** The polling loop, for every client *)
(* --------------------------------------------------------------------- *)

Lemma pollLoop_sleeps (maxAttempts : nat) (op : Operation) :
  forall fuel attempts events r,
    pollLoop maxAttempts op fuel attempts = Some (events, r) ->
    totalSleep events = 1000 * suspensions events
    /\ (attempts < maxAttempts -> attempts + suspensions events <= maxAttempts).
Proof.
  induction fuel as [|fuel IH]; intros attempts events r H; [discriminate|].
  simpl in H. destruct (getReadResult op attempts) as [status|e].
  - destruct (maxAttempts <=? S attempts) eqn:Hmax.
    + inversion H; subst. cbn. split; lia.
    + apply Nat.leb_gt in Hmax.
      destruct (stillPending status).
      * destruct (pollLoop maxAttempts op fuel (S attempts)) as [[ev r']|] eqn:Hrec;
          [|discriminate].
        inversion H; subst. apply IH in Hrec. cbn [totalSleep fold_right].
        fold (totalSleep ev). unfold suspensions in *. cbn [filter List.length].
        split; lia.
      * inversion H; subst. cbn. split; lia.
  - inversion H; subst. cbn. split; lia.
Qed.

(** X15. Whatever the client answers, the polling loop of [readTextFromFile]
    comes to an end; it suspends for one second before each poll, at most
    30 times, so it never waits for more than 30 seconds in all. *)
Theorem polling_waits_at_most_thirty_seconds (op : Operation) :
  exists events r,
    pollOperation CONFIG.TIMEOUT_SECONDS op = Some (events, r)
    /\ polls events <= suspensions events <= 30
    /\ totalSleep events = 1000 * suspensions events
    /\ totalSleep events <= 1000 * 30.
Proof.
  destruct (pollOperation_total CONFIG.TIMEOUT_SECONDS op) as [[events r] E].
  exists events, r. split; [exact E|].
  unfold pollOperation in E.
  destruct (pollLoop_sleeps _ _ _ _ E) as [Hs Hb].
  destruct (pollLoop_bounds _ _ _ _ E) as [[Hp _] _].
  unfold CONFIG.TIMEOUT_SECONDS in Hb.
  repeat split; try assumption; lia.
Qed.

Lemma pollLoop_success (maxAttempts : nat) (op : Operation) :
  forall fuel attempts events status,
    pollLoop maxAttempts op fuel attempts = Some (events, Ret status) ->
    exists n,
      attempts <= n /\ S n < maxAttempts
      /\ getReadResult op n = Ret status
      /\ stillPending status = false
      /\ forall k, attempts <= k < n ->
                   exists s, getReadResult op k = Ret s /\ stillPending s = true.
Proof.
  induction fuel as [|fuel IH]; intros attempts events status H; [discriminate|].
  simpl in H. destruct (getReadResult op attempts) as [st|e] eqn:Eg;
    [|discriminate].
  destruct (maxAttempts <=? S attempts) eqn:Hmax; [discriminate|].
  apply Nat.leb_gt in Hmax.
  destruct (stillPending st) eqn:Ep.
  - destruct (pollLoop maxAttempts op fuel (S attempts)) as [[ev r']|] eqn:Hrec;
      [|discriminate].
    injection H as _ ->.
    destruct (IH _ _ _ Hrec) as [n [Hle [Hlt [Hn [Hdone Hbefore]]]]].
    exists n. repeat split; try assumption; [lia|].
    intros k Hk. destruct (Nat.eq_dec k attempts) as [->|Hne].
    + exists st. split; assumption.
    + apply Hbefore. lia.
  - injection H as _ <-. exists attempts.
    repeat split; try assumption; [lia|]. intros k Hk. lia.
Qed.

Lemma awaitOperation_success (op : Operation) (pages : list Page.t) :
  awaitOperation op = Ret pages ->
  pages = readResults op
  /\ exists n,
      n < 29
      /\ getReadResult op n = Ret succeeded
      /\ forall k, k < n ->
                   exists s, getReadResult op k = Ret s /\ stillPending s = true.
Proof.
  unfold awaitOperation, pollOperation. intros H.
  destruct (pollLoop CONFIG.TIMEOUT_SECONDS op (S CONFIG.TIMEOUT_SECONDS) 0)
    as [[events [status|e]]|] eqn:E; try discriminate.
  destruct (pollLoop_success _ _ _ _ E) as [n [_ [Hlt [Hn [Hdone Hbefore]]]]].
  unfold CONFIG.TIMEOUT_SECONDS in Hlt.
  destruct status; try discriminate; cbn [afterLoop] in H.
  injection H as <-. split; [reflexivity|].
  exists n. repeat split; [lia | exact Hn|].
  intros k Hk. apply Hbefore. lia.
Qed.

(** X16. Pages that [readTextFromFile] returns are the pages of an operation
    that the client accepted, from the stream or, after an "image must be"
    error, from the buffer, and that answered [succeeded] at one of its
    first 29 polls after answering [notStarted] or [running] at every poll
    before. *)
Theorem readTextFromFile_returns_a_succeeded_read
        (client : Client) (readFile : Exc jsstring) (pages : list Page.t) :
  readTextFromFile client readFile = Ret pages ->
  exists op,
    (readInStream_stream client = Ret op \/ readInStream_buffer client = Ret op)
    /\ pages = readResults op
    /\ exists n,
        n < 29
        /\ getReadResult op n = Ret succeeded
        /\ forall k, k < n ->
                     exists s, getReadResult op k = Ret s
                               /\ stillPending s = true.
Proof.
  unfold readTextFromFile, readTextFromFileAlternative. intros H.
  destruct (readInStream_stream client) as [op|e] eqn:Es; cbn [bind try_catch] in H.
  - destruct (awaitOperation op) as [pages'|e] eqn:Ea; cbn [try_catch] in H.
    + injection H as <-. exists op. split; [left; reflexivity|].
      apply awaitOperation_success. exact Ea.
    + destruct (mentionsImageMustBe e); [|discriminate].
      destruct readFile as [content|e']; [|discriminate]. cbn [bind] in H.
      destruct (readInStream_buffer client) as [op'|e'] eqn:Eb; [|discriminate].
      cbn [bind] in H. exists op'. split; [right; reflexivity|].
      apply awaitOperation_success. exact H.
  - destruct (mentionsImageMustBe e); [|discriminate].
    destruct readFile as [content|e']; [|discriminate]. cbn [bind] in H.
    destruct (readInStream_buffer client) as [op'|e'] eqn:Eb; [|discriminate].
    cbn [bind] in H. exists op'. split; [right; reflexivity|].
    apply awaitOperation_success. exact H.
Qed.

Lemma readTextFromFile_returns_a_succeeded_read_witness :
  exists op,
    (readInStream_stream idleClient = Ret op
     \/ readInStream_buffer idleClient = Ret op)
    /\ [] = readResults op
    /\ exists n,
        n < 29
        /\ getReadResult op n = Ret succeeded
        /\ forall k, k < n ->
                     exists s, getReadResult op k = Ret s
                               /\ stillPending s = true.
Proof.
  apply (@readTextFromFile_returns_a_succeeded_read idleClient (Ret []) []).
  reflexivity.
Defined.

(* --------------------------------------------------------------------- *)
(** ** The entry point and its callers *)
(* --------------------------------------------------------------------- *)

Section EntryPointFacts.
Variables path_basename path_dirname path_extname sanitizePath
  : jsstring -> jsstring.
Variable path_join : jsstring -> jsstring -> jsstring.
Variable path_basename_ext : jsstring -> jsstring -> jsstring.
Variable processOCRResults : list Page.t -> Exc ExtractedData.
Variable w : World.
Variable writeOverlayFromPDF : jsstring -> list Page.t -> jsstring -> Exc unit.
Variable writeOverlayFromImage : jsstring -> option Page.t -> jsstring -> Exc unit.
Variable writeTextOnlyPDF : OcrResult -> jsstring -> Exc unit.




Lemma extractText_not_a_string (mimetype : option jsstring) :
  extractText path_basename path_dirname sanitizePath path_join
              processOCRResults w None mimetype = Raise TypeError.
Proof. reflexivity. Qed.

(** X18. [processMultipleFiles] answers with one entry per file, in the
    order of the files and under their names.  The entry of a file whose
    path is a string is a success, whatever became of the file; the entry of
    a file whose path is not a string is a failure, with a TypeError. *)
Theorem processMultipleFiles_entries (files : list File.t) :
  List.map fileOf
           (processMultipleFiles path_basename path_dirname sanitizePath
                                 path_join processOCRResults w files)
  = List.map File.filename files
  /\ forall i file,
      nth_error files i = Some file ->
      exists entry,
        nth_error (processMultipleFiles path_basename path_dirname sanitizePath
                                        path_join processOCRResults w files) i
        = Some entry
        /\ match File.path file with
           | Some _ => exists result, entry = FileSuccess (File.filename file) result
           | None => entry = FileFailure (File.filename file) TypeError
           end.
Proof.
  unfold processMultipleFiles. split.
  - rewrite map_map. apply map_ext. intros file.
    destruct (extractText _ _ _ _ _ _ _ _); reflexivity.
  - intros i file Hi. rewrite nth_error_map, Hi. cbn [option_map].
    eexists. split; [reflexivity|].
    destruct (File.path file) as [p|].
    + destruct (extractText_returns path_basename path_dirname sanitizePath
                                    path_join processOCRResults w p
                                    (File.mimetype file)) as [r ->].
      exists r. reflexivity.
    + rewrite extractText_not_a_string. reflexivity.
Qed.

(** X19. For a path that is a string, [extractTextWithOverlay] returns,
    whatever becomes of the overlay: the result carries what [extractText]
    returned, and it names an overlay document, by path and by name
    together, only when one was asked for and the result is labelled "Azure
    Computer Vision".  For a path that is not a string it raises a
    TypeError. *)
Theorem extractTextWithOverlay_returns
        (filePath : jsstring) (mimetype : option jsstring)
        (generateOverlay : bool) :
  (exists result,
      extractTextWithOverlay path_basename path_dirname path_extname sanitizePath
                             path_join path_basename_ext processOCRResults w
                             writeOverlayFromPDF writeOverlayFromImage
                             writeTextOnlyPDF (Some filePath) mimetype
                             generateOverlay = Ret result
      /\ extractText path_basename path_dirname sanitizePath path_join
                     processOCRResults w (Some filePath) mimetype
         = Ret (ocrResults result)
      /\ (overlayPDFPath result <> None ->
          generateOverlay = true
          /\ ocrEngine (ocrResults result) = AzureComputerVision)
      /\ (overlayPDFPath result = None <-> overlayPDFName result = None))
  /\ extractTextWithOverlay path_basename path_dirname path_extname sanitizePath
                            path_join path_basename_ext processOCRResults w
                            writeOverlayFromPDF writeOverlayFromImage
                            writeTextOnlyPDF None mimetype generateOverlay
     = Raise TypeError.
Proof.
  split; [|reflexivity].
  unfold extractTextWithOverlay.
  destruct (extractText_returns path_basename path_dirname sanitizePath
                                path_join processOCRResults w filePath mimetype)
    as [r ->].
  cbn [bind].
  assert (Hplain :
            exists result,
              Ret {| ocrResults := r; overlayPDFPath := None;
                     overlayPDFName := None |} = Ret result
              /\ Ret r = Ret (ocrResults result)
              /\ (overlayPDFPath result <> None ->
                  generateOverlay = true
                  /\ ocrEngine (ocrResults result) = AzureComputerVision)
              /\ (overlayPDFPath result = None <-> overlayPDFName result = None)).
  { eexists. split; [reflexivity|]. cbn. split; [reflexivity|].
    split; [intros H; exfalso; apply H; reflexivity | split; reflexivity]. }
  destruct (ocrEngine r) eqn:He; try exact Hplain.
  destruct generateOverlay; [|exact Hplain].
  eexists. split; [reflexivity|].
  unfold attachOverlay. cbv zeta.
  destruct (match mimetype with Some m => isPdf m | None => false end).
  - destruct (generateOverlayPDF _ _ _ _ _ _ _ _ _ _) as [resultPath|].
    + cbn. repeat split; auto; discriminate.
    + destruct (writeTextOnlyPDF r _).
      * cbn. repeat split; auto; discriminate.
      * cbn. repeat split; auto.
  - destruct (generateOverlayPDF _ _ _ _ _ _ _ _ _ _) as [resultPath|].
    + cbn. repeat split; auto; discriminate.
    + cbn. repeat split; auto.
Qed.
End EntryPointFacts.

Lemma processMultipleFiles_entries_witness :
  List.map fileOf (runBatch 1024 twoFiles) = [js "scan.png"; js "lost.png"]
  /\ exists entry,
      nth_error (runBatch 1024 twoFiles) 1 = Some entry
      /\ entry = FileFailure (js "lost.png") TypeError.
Proof.
  destruct (@processMultipleFiles_entries
              (fun p => p) (fun _ => []) (fun p => p) (fun d p => d ++ p)
              noData (worldWithFile 1024) twoFiles) as [Hnames Hentries].
  split; [exact Hnames|].
  destruct (Hentries 1 _ eq_refl) as [entry [E H]].
  exists entry. split; [exact E | exact H].
Defined.

Lemma extractTextWithOverlay_returns_witness :
  exists result,
    runWithOverlay 1024 "scan.png" "image/png" true = Ret result
    /\ overlayPDFPath result = Some (js "scan.png_overlay.pdf")
    /\ ocrEngine (ocrResults result) = AzureComputerVision.
Proof.
  destruct (proj1 (@extractTextWithOverlay_returns
                     (fun p => p) (fun _ => []) (fun _ => []) (fun p => p)
                     (fun d p => d ++ p) (fun p _ => p) noData
                     (worldWithFile 1024)
                     (fun _ _ _ => Ret tt) (fun _ _ _ => Ret tt)
                     (fun _ _ => Ret tt)
                     (js "scan.png") (Some (js "image/png")) true))
    as [result [E [_ [H _]]]].
  exists result. split; [exact E|].
  assert (Hpath : overlayPDFPath result = Some (js "scan.png_overlay.pdf")).
  { vm_compute in E. injection E as <-. reflexivity. }
  split; [exact Hpath|]. apply H. rewrite Hpath. discriminate.
Defined.


(* --------------------------------------------------------------------- *)
(** ** The text-only document *)
(* --------------------------------------------------------------------- *)

Lemma join_splitOn (sep : jschar) (s : jsstring) :
  join [sep] (splitOn sep s) = s.
Proof.
  induction s as [|c rest IH]; [reflexivity|].
  cbn [splitOn]. destruct (N.eqb sep c) eqn:E.
  - apply N.eqb_eq in E. subst c.
    destruct (splitOn sep rest) as [|piece pieces] eqn:Es;
      [exfalso; exact (splitOn_nonempty _ _ Es)|].
    cbn [join app] in *. rewrite IH. reflexivity.
  - destruct (splitOn sep rest) as [|piece pieces] eqn:Es;
      [exfalso; exact (splitOn_nonempty _ _ Es)|].
    destruct pieces as [|piece' pieces']; cbn [join app] in *;
      rewrite <- IH; reflexivity.
Qed.

Section TextOnlyFacts.
Local Open Scope Q_scope.
Variable pageHeight : Q.

Lemma placeLines_texts :
  forall lines page yPosition,
    List.map placedText (placeLines pageHeight lines page yPosition) = lines.
Proof.
  induction lines as [|line rest IH]; intros page yPosition; [reflexivity|].
  cbn [placeLines List.map placedText]. rewrite IH. reflexivity.
Qed.

(** X20. The text-only document holds the title and then the lines of the
    text, one call of [doc.text] each, in order and unchanged: joined by
    newlines, what it draws after the title is the text. *)
Theorem generateSearchablePDFLegacy_draws_the_text (ocrResults : OcrResult) :
  List.map placedText (generateSearchablePDFLegacy pageHeight ocrResults)
  = js "Extracted Text"
    :: match text ocrResults with
       | [] => []
       | _ => splitOn chr_nl (text ocrResults)
       end
  /\ join [chr_nl]
          (List.tl (List.map placedText
                             (generateSearchablePDFLegacy pageHeight ocrResults)))
     = text ocrResults.
Proof.
  unfold generateSearchablePDFLegacy. cbn [List.map placedText List.tl].
  destruct (text ocrResults) as [|c rest] eqn:E; [split; reflexivity|].
  rewrite placeLines_texts. split; [reflexivity | apply join_splitOn].
Qed.

Lemma placeLines_margins :
  forall lines page yPosition,
    100 <= pageHeight -> 50 <= yPosition ->
    Forall (fun d => atX d == 50 /\ 50 <= atY d <= pageHeight - 50)
           (placeLines pageHeight lines page yPosition).
Proof.
  induction lines as [|line rest IH]; intros page yPosition Hh Hy;
    [constructor|].
  cbn [placeLines]. cbv zeta.
  destruct (Num.Qltb (pageHeight - 50) yPosition) eqn:E.
  - constructor; [cbn; split; [reflexivity | lra]|]. apply IH; lra.
  - apply Qltb_ge in E.
    constructor; [cbn; split; [reflexivity | lra]|]. apply IH; lra.
Qed.

Lemma placeLines_chain :
  forall lines page yPosition,
    Sorted drawnAfter (placeLines pageHeight lines page yPosition)
    /\ HdRel drawnAfter
             {| onPage := page; placedText := []; atX := 50;
                atY := yPosition - 14 |}
             (placeLines pageHeight lines page yPosition).
Proof.
  induction lines as [|line rest IH]; intros page yPosition;
    [split; constructor|].
  cbn [placeLines]. cbv zeta.
  destruct (Num.Qltb (pageHeight - 50) yPosition) eqn:E.
  - destruct (IH (S page) (50 + 14)) as [Hs Hh]. split.
    + constructor; [exact Hs|].
      destruct (placeLines pageHeight rest (S page) (50 + 14)) as [|d ds];
        constructor.
      inversion Hh as [|? ? Hd]; subst. unfold drawnAfter in *. cbn in *.
      destruct Hd as [[Hp Hy]|[Hp Hy]]; [left | right]; split; auto; lra.
    + constructor. right. cbn. split; reflexivity.
  - destruct (IH page (yPosition + 14)) as [Hs Hh]. split.
    + constructor; [exact Hs|].
      destruct (placeLines pageHeight rest page (yPosition + 14)) as [|d ds];
        constructor.
      inversion Hh as [|? ? Hd]; subst. unfold drawnAfter in *. cbn in *.
      destruct Hd as [[Hp Hy]|[Hp Hy]]; [left | right]; split; auto; lra.
    + constructor. left. cbn. split; [reflexivity | lra].
Qed.

(** X21. On a page at least 100 points high, the text-only document keeps
    its margins: every call of [doc.text] is at abscissa 50 and at an
    ordinate from 50 to the page height less 50.  The lines of the text
    follow each other without overlap: each is drawn 14 points below the
    line before it on the same page, or at ordinate 50 of the next page. *)
Theorem generateSearchablePDFLegacy_keeps_margins (ocrResults : OcrResult) :
  100 <= pageHeight ->
  Forall (fun d => atX d == 50 /\ 50 <= atY d <= pageHeight - 50)
         (generateSearchablePDFLegacy pageHeight ocrResults)
  /\ Sorted drawnAfter (List.tl (generateSearchablePDFLegacy pageHeight ocrResults)).
Proof.
  intros Hh. unfold generateSearchablePDFLegacy. cbn [List.tl]. split.
  - constructor; [cbn; split; [reflexivity | lra]|].
    destruct (text ocrResults); [constructor|].
    apply placeLines_margins; lra.
  - destruct (text ocrResults); [constructor|]. apply placeLines_chain.
Qed.
End TextOnlyFacts.

Lemma generateSearchablePDFLegacy_keeps_margins_witness :
  Forall (fun d => (atX d == 50 /\ 50 <= atY d <= a4Height - 50)%Q)
         (generateSearchablePDFLegacy a4Height threeLineResult)
  /\ Sorted drawnAfter (List.tl (generateSearchablePDFLegacy a4Height threeLineResult)).
Proof.
  apply generateSearchablePDFLegacy_keeps_margins. unfold a4Height. lra.
Defined.

(** *** On a page of A4 *)

Lemma natQ_S (n : nat) : (natQ (S n) == natQ n + 1)%Q.
Proof.
  unfold natQ. rewrite Nat2Z.inj_succ, <- Z.add_1_r, inject_Z_plus. reflexivity.
Qed.

Lemma natQ_le (n m : nat) : n <= m -> (natQ n <= natQ m)%Q.
Proof. intros H. unfold natQ. rewrite <- Zle_Qle. lia. Qed.

(** From the top margin of a page, 53 lines fit on it. *)
Lemma placeLines_a4_following :
  forall lines page j yPosition,
    j <= 53 ->
    (yPosition == 50 + 14 * natQ j)%Q ->
    forall i d,
      nth_error (placeLines a4Height lines page yPosition) i = Some d ->
      onPage d = page + (j + i) / 53
      /\ (atY d == 50 + 14 * natQ ((j + i) mod 53))%Q.
Proof.
  induction lines as [|line rest IH]; intros page j yPosition Hj Hy i d Hd;
    [destruct i; discriminate|].
  cbn [placeLines] in Hd. cbv zeta in Hd.
  destruct (Nat.eq_dec j 53) as [->|Hne].
  - assert (E : Num.Qltb (a4Height - 50) yPosition = true).
    { apply Qltb_lt. rewrite Hy. change (natQ 53) with 53%Q.
      unfold a4Height. lra. }
    rewrite E in Hd. destruct i as [|i].
    + injection Hd as <-. cbn [onPage atY]. split.
      * change ((53 + 0) / 53) with 1. lia.
      * change (natQ ((53 + 0) mod 53)) with 0%Q. lra.
    + cbn [nth_error] in Hd.
      destruct (IH (S page) 1 (50 + 14)%Q) with (i := i) (d := d) as [Hp Hq];
        [lia | change (natQ 1) with 1%Q; lra | exact Hd |].
      replace (53 + S i) with (1 + i + 1 * 53) by lia.
      rewrite Nat.div_add, Nat.Div0.mod_add by lia. split; [lia | exact Hq].
  - assert (Hj' : (natQ j <= 52)%Q).
    { change 52%Q with (natQ 52). apply natQ_le. lia. }
    assert (E : Num.Qltb (a4Height - 50) yPosition = false).
    { apply Qltb_ge. rewrite Hy. unfold a4Height. lra. }
    rewrite E in Hd. destruct i as [|i].
    + injection Hd as <-. cbn [onPage atY].
      rewrite Nat.add_0_r, Nat.div_small, Nat.mod_small by lia.
      split; [lia | exact Hy].
    + cbn [nth_error] in Hd.
      destruct (IH page (S j) (yPosition + 14)%Q) with (i := i) (d := d)
        as [Hp Hq]; [lia | rewrite natQ_S, Hy; lra | exact Hd |].
      replace (j + S i) with (S j + i) by lia. split; assumption.
Qed.

(** From ordinate 80 of the first page, 51 lines fit on it. *)
Lemma placeLines_a4_first :
  forall lines k yPosition,
    k <= 51 ->
    (yPosition == 80 + 14 * natQ k)%Q ->
    forall i d,
      nth_error (placeLines a4Height lines 0 yPosition) i = Some d ->
      if k + i <? 51
      then onPage d = 0 /\ (atY d == 80 + 14 * natQ (k + i))%Q
      else onPage d = 1 + (k + i - 51) / 53
           /\ (atY d == 50 + 14 * natQ ((k + i - 51) mod 53))%Q.
Proof.
  induction lines as [|line rest IH]; intros k yPosition Hk Hy i d Hd;
    [destruct i; discriminate|].
  cbn [placeLines] in Hd. cbv zeta in Hd.
  destruct (Nat.eq_dec k 51) as [->|Hne].
  - assert (E : Num.Qltb (a4Height - 50) yPosition = true).
    { apply Qltb_lt. rewrite Hy. change (natQ 51) with 51%Q.
      unfold a4Height. lra. }
    rewrite E in Hd.
    replace (51 + i <? 51) with false by (symmetry; apply Nat.ltb_ge; lia).
    replace (51 + i - 51) with i by lia.
    destruct i as [|i].
    + injection Hd as <-. cbn [onPage atY]. split; [reflexivity|].
      change (natQ (0 mod 53)) with 0%Q. lra.
    + cbn [nth_error] in Hd.
      destruct (@placeLines_a4_following rest 1 1 (50 + 14)%Q) with (i := i) (d := d)
        as [Hp Hq]; [lia | change (natQ 1) with 1%Q; lra | exact Hd |].
      split; assumption.
  - assert (Hk' : (natQ k <= 50)%Q).
    { change 50%Q with (natQ 50). apply natQ_le. lia. }
    assert (E : Num.Qltb (a4Height - 50) yPosition = false).
    { apply Qltb_ge. rewrite Hy. unfold a4Height. lra. }
    rewrite E in Hd. destruct i as [|i].
    + injection Hd as <-. cbn [onPage atY]. rewrite Nat.add_0_r.
      replace (k <? 51) with true by (symmetry; apply Nat.ltb_lt; lia).
      split; [reflexivity | exact Hy].
    + cbn [nth_error] in Hd.
      specialize (IH (S k) (yPosition + 14)%Q ltac:(lia)
                     ltac:(rewrite natQ_S, Hy; lra) i d Hd).
      replace (k + S i) with (S k + i) by lia. exact IH.
Qed.

(** X22. On a page of A4 the text-only document has room for 51 lines of
    the text on its first page and for 53 on each page after it: line [i]
    of the text, counted from 0, is drawn on the first page at ordinate
    [80 + 14 i] when [i < 51], and otherwise on page [1 + (i - 51) / 53],
    the first page being page 0, at ordinate
    [50 + 14 ((i - 51) mod 53)]. *)
Theorem generateSearchablePDFLegacy_on_a4
        (ocrResults : OcrResult) (i : nat) (d : Placed) :
  nth_error (generateSearchablePDFLegacy a4Height ocrResults) (S i) = Some d ->
  if i <? 51
  then onPage d = 0 /\ (atY d == 80 + 14 * natQ i)%Q
  else onPage d = 1 + (i - 51) / 53
       /\ (atY d == 50 + 14 * natQ ((i - 51) mod 53))%Q.
Proof.
  unfold generateSearchablePDFLegacy. cbn [nth_error].
  destruct (text ocrResults) as [|c rest]; [destruct i; discriminate|].
  intros H.
  apply (@placeLines_a4_first _ 0 80%Q) with (i := i) (d := d) in H;
    [exact H | lia | change (natQ 0) with 0%Q; lra].
Qed.

Lemma generateSearchablePDFLegacy_on_a4_witness :
  exists d,
    nth_error (generateSearchablePDFLegacy a4Height sixtyLineResult) 56 = Some d
    /\ onPage d = 1 /\ (atY d == 106)%Q.
Proof.
  eexists. split; [vm_compute; reflexivity|].
  refine (let H := @generateSearchablePDFLegacy_on_a4 sixtyLineResult 55 _ _ in _).
  cbn [Nat.ltb Nat.leb] in H. destruct H as [Hp Hy].
  split; [exact Hp | rewrite Hy; reflexivity].
  Unshelve. vm_compute. reflexivity.
Defined.

(* --------------------------------------------------------------------- *)
(** ** The text of the searchable layer *)
(* --------------------------------------------------------------------- *)

Lemma boxMin4_finite (word : Word.t) :
  finiteAbscissas word = true ->
  exists q, boxMin4 word 0 2 4 6 = Ret (Fin q).
Proof.
  unfold finiteAbscissas, boxMin4, JsMath.min4, at_.
  destruct (Word.boundingBox word) as [box|]; [|discriminate].
  cbn [forallb]. rewrite !andb_true_iff. intros [H0 [H2 [H4 [H6 _]]]].
  destruct (nth 0 box (Num NaN)) as [[a|]|]; try discriminate.
  destruct (nth 2 box (Num NaN)) as [[b|]|]; try discriminate.
  destruct (nth 4 box (Num NaN)) as [[c|]|]; try discriminate.
  destruct (nth 6 box (Num NaN)) as [[d|]|]; try discriminate.
  cbn. eauto.
Qed.

Lemma boxMax4_finite (word : Word.t) :
  finiteAbscissas word = true ->
  exists q, boxMax4 word 0 2 4 6 = Ret (Fin q).
Proof.
  unfold finiteAbscissas, boxMax4, JsMath.max4, at_.
  destruct (Word.boundingBox word) as [box|]; [|discriminate].
  cbn [forallb]. rewrite !andb_true_iff. intros [H0 [H2 [H4 [H6 _]]]].
  destruct (nth 0 box (Num NaN)) as [[a|]|]; try discriminate.
  destruct (nth 2 box (Num NaN)) as [[b|]|]; try discriminate.
  destruct (nth 4 box (Num NaN)) as [[c|]|]; try discriminate.
  destruct (nth 6 box (Num NaN)) as [[d|]|]; try discriminate.
  cbn. eauto.
Qed.

Lemma spacesFor_repeat (n : jsnum) :
  exists gap,
    spacesFor n = repeat chr_space gap
    /\ ((exists q, n = Fin q) -> 1 <= gap).
Proof.
  destruct n as [q|].
  - exists (Z.to_nat (Z.max 1 (Qfloor (q + (1 # 2))))). split; [reflexivity|].
    intros _. lia.
  - exists 0. split; [reflexivity|]. intros [q H]. discriminate.
Qed.

Lemma continueText_spaced (charWidth : jsnum) :
  forall rest prev spaced,
    continueText charWidth prev rest = Ret spaced ->
    exists gaps,
      List.length gaps = List.length rest
      /\ spaced = spacedWords rest gaps
      /\ ((exists c, charWidth = Fin c /\ ~ (c == 0)%Q) ->
          forallb finiteAbscissas (prev :: rest) = true ->
          Forall (fun gap => 1 <= gap) gaps).
Proof.
  induction rest as [|curr rest IH]; intros prev spaced H.
  - cbn in H. injection H as <-. exists []. repeat split. constructor.
  - cbn [continueText] in H.
    destruct (boxMax4 prev 0 2 4 6) as [prevEnd|] eqn:Ep; [|discriminate].
    destruct (boxMin4 curr 0 2 4 6) as [currStart|] eqn:Ec; [|discriminate].
    cbn [bind] in H.
    destruct (continueText charWidth curr rest) as [tail|] eqn:Et; [|discriminate].
    cbn [bind] in H. injection H as <-.
    destruct (IH _ _ Et) as [gaps [Hlen [-> Hgaps]]].
    destruct (spacesFor_repeat (Num.div (Num.sub currStart prevEnd) charWidth))
      as [gap [-> Hgap]].
    exists (gap :: gaps). split; [cbn; lia|]. split; [reflexivity|].
    intros [c [-> Hc]] Hfin. cbn [forallb] in Hfin.
    apply andb_true_iff in Hfin. destruct Hfin as [Hprev Hrest].
    constructor.
    + apply Hgap. cbn [forallb] in Hrest. apply andb_true_iff in Hrest.
      destruct Hrest as [Hcurr _].
      destruct (boxMax4_finite _ Hprev) as [a Ha].
      destruct (boxMin4_finite _ Hcurr) as [b Hb].
      rewrite Ha in Ep. rewrite Hb in Ec.
      injection Ep as <-. injection Ec as <-.
      cbn [Num.sub Num.lift2 Num.div].
      destruct (Qeq_bool c 0) eqn:E; [|eauto].
      apply Qeq_bool_iff in E. contradiction.
    + apply Hgaps; [eauto | exact Hrest].
Qed.

Lemma forallb_permutation {A : Type} (p : A -> bool) (l l' : list A) :
  Permutation l l' -> forallb p l = true -> forallb p l' = true.
Proof.
  intros Hperm H. rewrite forallb_forall in *. intros x Hx.
  apply H. apply (Permutation_in _ (Permutation_sym Hperm)). exact Hx.
Qed.

Lemma overlayLine_text (charWidth : jsnum) (size : PageSize) (page : Page.t)
      (line : Line.t) (d : Draw) :
  overlayLine charWidth size page line = Ret (Some d) ->
  exists ws first rest gaps,
    Line.words line = Some ws
    /\ sortWith compareByLeft ws = Ret (first :: rest)
    /\ List.length gaps = List.length rest
    /\ drawnText d = Word.text first ++ spacedWords rest gaps
    /\ ((exists c, charWidth = Fin c /\ ~ (c == 0)%Q) ->
        forallb finiteAbscissas ws = true ->
        Forall (fun gap => 1 <= gap) gaps).
Proof.
  unfold overlayLine. intros H.
  destruct (Line.words line) as [[|w ws]|]; try discriminate.
  destruct (sortWith compareByLeft (w :: ws)) as [[|first rest]|] eqn:Es;
    try discriminate.
  cbn [bind] in H.
  destruct (continueText charWidth first rest) as [spaced|] eqn:Ec; [|discriminate].
  cbn [bind] in H.
  destruct (boxMin4 first 1 3 5 7); [|discriminate].
  destruct (boxMax4 first 1 3 5 7); [|discriminate].
  cbn [bind] in H.
  destruct (boxMin4 first 0 2 4 6); [|discriminate].
  cbn [bind] in H. injection H as <-. cbn [drawnText].
  destruct (continueText_spaced _ _ _ Ec) as [gaps [Hlen [-> Hgaps]]].
  exists (w :: ws), first, rest, gaps. repeat split; try assumption.
  intros Hc Hfin. apply Hgaps; [exact Hc|].
  apply (forallb_permutation _ (sortWith_permutation _ _ Es)). exact Hfin.
Qed.

(** X23. The text that the document-backed overlay draws for a line is the
    texts of the words of the line, in the order of the sort by left edge,
    with a run of spaces before each word but the first, and nothing else:
    no word of the line is left out of the searchable layer.  When the
    corner abscissas of the words are numbers, and the width of a character
    is a number other than 0, every one of these runs has at least one
    space. *)
Theorem overlayLine_draws_the_words
        (charWidth : jsnum) (size : PageSize) (page : Page.t)
        (line : Line.t) (d : Draw) :
  overlayLine charWidth size page line = Ret (Some d) ->
  exists ws first rest gaps,
    Line.words line = Some ws
    /\ Permutation ws (first :: rest)
    /\ Sorted (mayFollow compareByLeft) (first :: rest)
    /\ List.length gaps = List.length rest
    /\ drawnText d = Word.text first ++ spacedWords rest gaps
    /\ ((exists c, charWidth = Fin c /\ ~ (c == 0)%Q) ->
        forallb finiteAbscissas ws = true ->
        Forall (fun gap => 1 <= gap) gaps).
Proof.
  intros H.
  destruct (overlayLine_text _ _ _ _ H)
    as [ws [first [rest [gaps [Hw [Hs [Hlen [Ht Hgaps]]]]]]]].
  exists ws, first, rest, gaps. repeat split; try assumption.
  - exact (sortWith_permutation _ _ Hs).
  - exact (sortWith_sorted _ _ Hs).
Qed.

Lemma overlayLine_draws_the_words_witness :
  exists d,
    overlayLine courierWidth targetSize sourcePage shuffledLine = Ret (Some d)
    /\ exists ws first rest gaps,
        Line.words shuffledLine = Some ws
        /\ Permutation ws (first :: rest)
        /\ Sorted (mayFollow compareByLeft) (first :: rest)
        /\ List.length gaps = List.length rest
        /\ drawnText d = Word.text first ++ spacedWords rest gaps
        /\ ((exists c, courierWidth = Fin c /\ ~ (c == 0)%Q) ->
            forallb finiteAbscissas ws = true ->
            Forall (fun gap => 1 <= gap) gaps).
Proof.
  destruct (overlayLine courierWidth targetSize sourcePage shuffledLine)
    as [[d|]|] eqn:E;
    [|vm_compute in E; discriminate E | vm_compute in E; discriminate E].
  exists d. split; [reflexivity|].
  exact (overlayLine_draws_the_words _ _ _ _ E).
Defined.

(** *** The image-backed overlay *)

Lemma imageLine_parts (spaceWidth fontSize : jsnum) (line : Line.t) (d : Draw) :
  imageLine spaceWidth fontSize line = Ret (Some d) ->
  exists ws first rest spaced baselines,
    Line.words line = Some ws
    /\ sortWith compareByLeft ws = Ret (first :: rest)
    /\ continueText spaceWidth first rest = Ret spaced
    /\ drawnText d = Word.text first ++ spaced
    /\ baselinesOf (Num.mul fontSize (Fin (2 # 10))) (first :: rest)
       = Ret baselines
    /\ y d = Num.div (fold_left Num.add baselines (Fin 0))
                     (Fin (inject_Z (Z.of_nat (List.length baselines))))
    /\ boxMin4 first 0 2 4 6 = Ret (x d).
Proof.
  unfold imageLine. intros H.
  destruct (Line.words line) as [[|w ws]|]; try discriminate.
  destruct (sortWith compareByLeft (w :: ws)) as [[|first rest]|] eqn:Es;
    try discriminate.
  cbn [bind] in H.
  destruct (continueText spaceWidth first rest) as [spaced|] eqn:Ec; [|discriminate].
  cbn [bind] in H. cbv zeta in H.
  destruct (baselinesOf _ (first :: rest)) as [baselines|] eqn:Eb; [|discriminate].
  cbn [bind] in H.
  destruct (boxMin4 first 0 2 4 6) as [startX|] eqn:Ex; [|discriminate].
  cbn [bind] in H. injection H as <-. cbn [drawnText x y].
  exists (w :: ws), first, rest, spaced, baselines. repeat split; assumption.
Qed.

(** X24. The two overlays agree on the text: for the same character width,
    what the image-backed overlay draws for a line is what the
    document-backed overlay draws for it, the words of the line in the order
    of the sort by left edge with their runs of spaces; and the image-backed
    overlay draws it at the leftmost corner of the first of these words, as
    the recognition gave it, neither scaled nor clamped. *)
Theorem imageLine_draws_the_words
        (spaceWidth fontSize : jsnum) (size : PageSize) (page : Page.t)
        (line : Line.t) (d : Draw) :
  imageLine spaceWidth fontSize line = Ret (Some d) ->
  (exists ws first rest gaps,
      Line.words line = Some ws
      /\ Permutation ws (first :: rest)
      /\ Sorted (mayFollow compareByLeft) (first :: rest)
      /\ List.length gaps = List.length rest
      /\ drawnText d = Word.text first ++ spacedWords rest gaps
      /\ boxMin4 first 0 2 4 6 = Ret (x d))
  /\ forall d',
      overlayLine spaceWidth size page line = Ret (Some d') ->
      drawnText d' = drawnText d.
Proof.
  intros H.
  destruct (imageLine_parts _ _ _ H)
    as [ws [first [rest [spaced [baselines [Hw [Hs [Hc [Ht [_ [_ Hx]]]]]]]]]]].
  split.
  - destruct (continueText_spaced _ _ _ Hc) as [gaps [Hlen [-> _]]].
    exists ws, first, rest, gaps. repeat split; try assumption.
    + exact (sortWith_permutation _ _ Hs).
    + exact (sortWith_sorted _ _ Hs).
  - intros d' H'.
    destruct (overlayLine_text _ _ _ _ H')
      as [ws' [first' [rest' [gaps' [Hw' [Hs' _]]]]]].
    rewrite Hw in Hw'. injection Hw' as <-. rewrite Hs in Hs'.
    injection Hs' as <- <-.
    unfold overlayLine in H'. rewrite Hw in H'.
    destruct ws as [|w ws0]; [discriminate|].
    rewrite Hs in H'. cbn [bind] in H'. rewrite Hc in H'. cbn [bind] in H'.
    destruct (boxMin4 first 1 3 5 7); [|discriminate].
    destruct (boxMax4 first 1 3 5 7); [|discriminate].
    cbn [bind] in H'.
    destruct (boxMin4 first 0 2 4 6); [|discriminate].
    cbn [bind] in H'. injection H' as <-. cbn [drawnText]. symmetry. exact Ht.
Qed.

Lemma imageLine_draws_the_words_witness :
  exists d,
    imageLine courierWidth (Fin CONFIG.PDF_FONT_SIZE) shuffledLine = Ret (Some d)
    /\ drawnText d = js "a b  c"
    /\ forall d',
        overlayLine courierWidth targetSize sourcePage shuffledLine
        = Ret (Some d') ->
        drawnText d' = drawnText d.
Proof.
  destruct (imageLine courierWidth (Fin CONFIG.PDF_FONT_SIZE) shuffledLine)
    as [[d|]|] eqn:E;
    [|vm_compute in E; discriminate E | vm_compute in E; discriminate E].
  exists d. split; [reflexivity|].
  split; [vm_compute in E; injection E as <-; reflexivity|].
  exact (proj2 (@imageLine_draws_the_words _ _ targetSize sourcePage _ _ E)).
Defined.





(** *** A word without a bounding box *)

Lemma boxMin4_has_box (word : Word.t) (i j k l : nat) (n : jsnum) :
  boxMin4 word i j k l = Ret n -> Word.boundingBox word <> None.
Proof. unfold boxMin4. destruct (Word.boundingBox word); discriminate. Qed.

Lemma boxMax4_has_box (word : Word.t) (i j k l : nat) (n : jsnum) :
  boxMax4 word i j k l = Ret n -> Word.boundingBox word <> None.
Proof. unfold boxMax4. destruct (Word.boundingBox word); discriminate. Qed.

Lemma continueText_has_boxes (charWidth : jsnum) :
  forall rest prev spaced,
    continueText charWidth prev rest = Ret spaced ->
    Forall (fun word => Word.boundingBox word <> None) rest.
Proof.
  induction rest as [|curr rest IH]; intros prev spaced H; [constructor|].
  cbn [continueText] in H.
  destruct (boxMax4 prev 0 2 4 6); [|discriminate].
  destruct (boxMin4 curr 0 2 4 6) as [currStart|] eqn:Ec; [|discriminate].
  cbn [bind] in H.
  destruct (continueText charWidth curr rest) as [tail|] eqn:Et; [|discriminate].
  constructor; [exact (boxMin4_has_box _ _ _ _ _ Ec) | exact (IH _ _ Et)].
Qed.

Lemma overlayLine_has_boxes (charWidth : jsnum) (size : PageSize) (page : Page.t)
      (line : Line.t) (drawn : option Draw) (ws : list Word.t) :
  overlayLine charWidth size page line = Ret drawn ->
  Line.words line = Some ws ->
  Forall (fun word => Word.boundingBox word <> None) ws.
Proof.
  unfold overlayLine. intros H Hw. rewrite Hw in H.
  destruct ws as [|w ws']; [constructor|].
  destruct (sortWith compareByLeft (w :: ws')) as [[|first rest]|] eqn:Es;
    try discriminate.
  cbn [bind] in H.
  destruct (continueText charWidth first rest) as [spaced|] eqn:Ec; [|discriminate].
  cbn [bind] in H.
  destruct (boxMin4 first 1 3 5 7) as [minY|] eqn:Em; [|discriminate].
  apply (Permutation_Forall (Permutation_sym (sortWith_permutation _ _ Es))).
  constructor; [exact (boxMin4_has_box _ _ _ _ _ Em)|].
  exact (continueText_has_boxes _ _ _ Ec).
Qed.

(** X26. One word without a bounding box, on a page that both the
    recognition and the document have, costs the document-backed overlay
    its searchable layer: nothing is overlaid, and the function leaves the
    text-only document of its [catch] block instead. *)
Theorem boxless_word_costs_the_overlay
        (charWidth : jsnum) (sizes : list PageSize) (pages : list Page.t)
        (i : nat) (page : Page.t) (size : PageSize) (lines : list Line.t)
        (line : Line.t) (ws : list Word.t) (word : Word.t) :
  nth_error pages i = Some page ->
  nth_error sizes i = Some size ->
  Page.lines page = Some lines ->
  In line lines ->
  Line.words line = Some ws ->
  In word ws ->
  Word.boundingBox word = None ->
  createContinuousSearchablePdfFromPDF charWidth (Ret sizes) pages
  = TextOnlyFallback.
Proof.
  intros Hpage Hsize Hlines Hline Hws Hword Hbox.
  unfold createContinuousSearchablePdfFromPDF. cbn [bind].
  destruct (overlayPages charWidth pages sizes) as [dss|] eqn:E; [|reflexivity].
  exfalso.
  destruct (overlayPages_nth _ _ _ E) as [_ Hnth].
  destruct (Hnth _ _ _ Hpage Hsize) as [ds [_ Hds]].
  rewrite Hlines in Hds.
  destruct (overlayLines_In _ _ _ _ Hds _ Hline) as [drawn [Hdrawn _]].
  pose proof (overlayLine_has_boxes _ _ _ _ Hdrawn Hws) as Hall.
  rewrite Forall_forall in Hall. exact (Hall _ Hword Hbox).
Qed.

Lemma boxless_word_costs_the_overlay_witness :
  createContinuousSearchablePdfFromPDF courierWidth (Ret [targetSize]) [boxlessPage]
  = TextOnlyFallback.
Proof.
  apply (@boxless_word_costs_the_overlay
           courierWidth [targetSize] [boxlessPage] 0 boxlessPage targetSize
           [boxlessLine] boxlessLine
           [ {| Word.text := js "a"; Word.boundingBox := None;
                Word.confidence := None |} ]
           {| Word.text := js "a"; Word.boundingBox := None;
              Word.confidence := None |});
    try reflexivity; left; reflexivity.
Defined.

Lemma imageLine_has_boxes (spaceWidth fontSize : jsnum) (line : Line.t)
      (drawn : option Draw) (ws : list Word.t) :
  imageLine spaceWidth fontSize line = Ret drawn ->
  Line.words line = Some ws ->
  Forall (fun word => Word.boundingBox word <> None) ws.
Proof.
  unfold imageLine. intros H Hw. rewrite Hw in H.
  destruct ws as [|w ws']; [constructor|].
  destruct (sortWith compareByLeft (w :: ws')) as [[|first rest]|] eqn:Es;
    try discriminate.
  cbn [bind] in H.
  destruct (continueText spaceWidth first rest) as [spaced|] eqn:Ec; [|discriminate].
  cbn [bind] in H. cbv zeta in H.
  destruct (baselinesOf _ (first :: rest)) as [baselines|]; [|discriminate].
  cbn [bind] in H.
  destruct (boxMin4 first 0 2 4 6) as [startX|] eqn:Em; [|discriminate].
  apply (Permutation_Forall (Permutation_sym (sortWith_permutation _ _ Es))).
  constructor; [exact (boxMin4_has_box _ _ _ _ _ Em)|].
  exact (continueText_has_boxes _ _ _ Ec).
Qed.

Lemma imageLines_In (spaceWidth fontSize : jsnum) :
  forall lines ds,
    imageLines spaceWidth fontSize lines = Ret ds ->
    forall line, In line lines ->
      exists drawn, imageLine spaceWidth fontSize line = Ret drawn.
Proof.
  induction lines as [|l rest IH]; intros ds H line Hin; [destruct Hin|].
  cbn [imageLines] in H.
  destruct (imageLine spaceWidth fontSize l) as [d|] eqn:Ed; [|discriminate].
  cbn [bind] in H.
  destruct (imageLines spaceWidth fontSize rest) as [ds'|] eqn:Er; [|discriminate].
  destruct Hin as [<-|Hin]; [eauto | exact (IH _ eq_refl _ Hin)].
Qed.

(** X27. The image-backed overlay has no such way out: one word without a
    bounding box on the page makes [createContinuousSearchablePdf] raise,
    and no document is written. *)
Theorem boxless_word_fails_the_image_overlay
        (spaceWidth fontSize : jsnum) (image : Exc unit) (page : Page.t)
        (lines : list Line.t) (line : Line.t) (ws : list Word.t)
        (word : Word.t) :
  Page.lines page = Some lines ->
  In line lines ->
  Line.words line = Some ws ->
  In word ws ->
  Word.boundingBox word = None ->
  exists e,
    createContinuousSearchablePdf spaceWidth fontSize image (Some page)
    = Raise e.
Proof.
  intros Hlines Hline Hws Hword Hbox.
  unfold createContinuousSearchablePdf.
  destruct image as [[]|e]; cbn [bind]; [|eauto].
  rewrite Hlines.
  destruct (imageLines spaceWidth fontSize lines) as [ds|e] eqn:E; [|eauto].
  exfalso.
  destruct (imageLines_In _ _ _ E _ Hline) as [drawn Hdrawn].
  pose proof (imageLine_has_boxes _ _ _ Hdrawn Hws) as Hall.
  rewrite Forall_forall in Hall. exact (Hall _ Hword Hbox).
Qed.

Lemma boxless_word_fails_the_image_overlay_witness :
  exists e,
    createContinuousSearchablePdf courierWidth (Fin CONFIG.PDF_FONT_SIZE)
                                  (Ret tt) (Some boxlessPage)
    = Raise e.
Proof.
  apply (@boxless_word_fails_the_image_overlay
           courierWidth (Fin CONFIG.PDF_FONT_SIZE) (Ret tt) boxlessPage
           [boxlessLine] boxlessLine
           [ {| Word.text := js "a"; Word.boundingBox := None;
                Word.confidence := None |} ]
           {| Word.text := js "a"; Word.boundingBox := None;
              Word.confidence := None |});
    try reflexivity; left; reflexivity.
Defined.

(* --------------------------------------------------------------------- *)
(** ** The embedding on concrete inputs *)
(* --------------------------------------------------------------------- *)

Example normaliser_on_ocr_output :
  cleanAndFormatText (js "TheQuick  brownFox.Jumps over3dogs")
  = js "The Quick brown Fox. Jumps over 3 dogs".
Proof. vm_compute. reflexivity. Qed.

Example normaliser_splits_dictionary_words :
  cleanAndFormatText (js "salt_and_pepper breadandbutter")
  = js "salt_ and _pepper bread and butter".
Proof. vm_compute. reflexivity. Qed.

Example line_of_two_words :
  processWordsWithSpacing (Some [hello; world]) = Ret (js "Hello World").
Proof. reflexivity. Qed.

Example two_lines_of_a_page :
  pageText [ {| Line.words := Some [hello; world];
                Line.boundingBox := Line.boundingBox upperLine |};
             {| Line.words := Some [nextLineStart];
                Line.boundingBox := Line.boundingBox lowerLine |} ]
  = Ret (js "Hello World" ++ [chr_nl; chr_nl] ++ js "again").
Proof. reflexivity. Qed.

Example probe_counts_each_indicator :
  List.map (fun m => matchCount m
                       (js "/Type /Font /Subtype/Type1 /Subtype /TrueType BT /F1 12 Tf (a) Tj ET [(b)] TJ"))
           Indicator.textIndicators
  = [1; 1; 1; 1; 0; 1].
Proof. reflexivity. Qed.

Example fallback_text :
  match simulateOCR (fun p => p) (worldWithFile 2048) (Some (js "scan.png")) with
  | Ret r =>
      text r
      = js "[FALLBACK] Could not process file with Azure Computer Vision."
        ++ [chr_nl] ++ js "File: scan.png"
        ++ [chr_nl] ++ js "Size: 2048 bytes"
        ++ [chr_nl] ++ js "Reason: Azure API unavailable"
        ++ [chr_nl; chr_nl]
        ++ js "Fix by checking VISION_KEY and VISION_ENDPOINT in .env"
  | Raise _ => False
  end.
Proof. vm_compute. reflexivity. Qed.

Example overlay_of_the_example_page :
  match exampleDraws with
  | [[d]] =>
      drawnText d = js "Total"
      /\ match x d, y d with
         | Fin qx, Fin qy => Qeq_bool qx 50 && Qeq_bool qy 440 = true
         | _, _ => False
         end
  | _ => False
  end.
Proof. vm_compute. split; reflexivity. Qed.

Example paragraphs_of_a_short_text :
  detectAndFormatParagraphs
    (js "Title" ++ [chr_nl] ++ js "First sentence." ++ [chr_nl]
     ++ js "Second one" ++ [chr_nl; chr_nl; chr_nl] ++ js "goes on  ")
  = js "Title First sentence." ++ [chr_nl; chr_nl]
    ++ js "Second one" ++ [chr_nl; chr_nl] ++ js "goes on".
Proof. vm_compute. reflexivity. Qed.

Example result_of_two_pages :
  match processOCRResults (Some [confidentPage; blankPage]) with
  | Ret r =>
      Processed.text r
      = js "--- Page 1 --- Hello World --- Page 2 --- No text recognized on this page."
      /\ Processed.confidence r = Fin 85
      /\ Processed.pages r = 2
  | Raise _ => False
  end.
Proof. vm_compute. repeat split. Qed.

Example result_of_no_page :
  processOCRResults (Some [])
  = Ret {| Processed.text := js "No text detected";
           Processed.confidence := Fin 0;
           Processed.language := js "en";
           Processed.pages := 0 |}.
Proof. reflexivity. Qed.

Example text_only_document_of_three_lines :
  List.map (fun d => (onPage d, placedText d))
           (generateSearchablePDFLegacy a4Height threeLineResult)
  = [ (0, js "Extracted Text"); (0, js "first"); (0, js "second");
      (0, js "third") ].
Proof. vm_compute. reflexivity. Qed.

Example searchable_line_of_three_words :
  match overlayLine courierWidth targetSize sourcePage shuffledLine with
  | Ret (Some d) => drawnText d = js "a b  c"
  | _ => False
  end.
Proof. vm_compute. reflexivity. Qed.

Example batch_of_two_files :
  List.map (fun entry =>
              match entry with
              | FileSuccess file r => (file, Some (ocrEngine r))
              | FileFailure file _ => (file, None)
              end) (runBatch 1024 twoFiles)
  = [ (js "scan.png", Some AzureComputerVision); (js "lost.png", None) ].
Proof. vm_compute. reflexivity. Qed.

Example page_object_probe_of_three_pages :
  checkPDFForExistingText (Ret threePageDocument)
  = {| hasText := false; extractedText := []; pageCount := 3; textLength := 0 |}.
Proof. reflexivity. Qed.
